(** * Keploy outbound-interception core: a shallow embedding of the Go sources

    The development follows the Go packages of the repository:
    - [postgres] : [PostgresV1.MatchType] (protocol classifier);
    - [generic]  : [Generic.MatchType];
    - [mysql]    : [decodeHandshakeResponse], [decodeLengthEncodedInteger];
    - [yaml]     : [WriteFile], [ReadFile], [CreateYamlFile],
                   [ReadSessionIndices];
    - [conn]     : [Factory.ProcessActiveTrackers], [Factory.Worker], [capture];
    - [app]      : [NewApp], [Setup], [SetupDocker], [SetupCompose],
                   [injectNetwork], [handleDockerEvents].

    Go values are modelled as the code has them: a [[]byte] is a slice with a
    length and a capacity, an indexing or slicing expression outside its
    bounds is a run-time panic, and a function returning [(T, error)]
    returns either a value or an error. *)

From Stdlib Require Import ZArith Lia List Bool.
From Stdlib Require Import Strings.Byte Strings.String Strings.Ascii.
From stdpp Require Import base option list gmap strings.

Local Open Scope Z_scope.

(** ** Outcomes of running Go code *)

(** The run-time panics the modelled code can raise. *)
Inductive panic : Set :=
| IndexOutOfRange
| SliceBoundsOutOfRange
| NilDereference.

(** A call of a Go function ends in one of four ways: it returns a value,
    it returns a non-nil [error] (we keep its message), it panics, or it
    never returns. *)
Inductive go (A : Type) : Type :=
| Ok (a : A)
| Err (msg : string)
| Panic (p : panic)
| Diverge.

Arguments Ok {A} a.
Arguments Err {A} msg.
Arguments Panic {A} p.
Arguments Diverge {A}.

#[global] Instance go_ret : MRet go := fun A a => Ok a.
#[global] Instance go_bind : MBind go := fun A B f m =>
  match m with
  | Ok a => f a
  | Err e => Err e
  | Panic p => Panic p
  | Diverge => Diverge
  end.

Definition returns {A} (o : go A) : Prop := exists a, o = Ok a.
Definition fails {A} (o : go A) : Prop := exists msg, o = Err msg.
Definition panics {A} (o : go A) : Prop := exists p, o = Panic p.

(** ** Bytes and byte slices *)

Abbreviation byte := Byte.byte.

(** [int(b)] for a byte [b]. *)
Definition byte_to_Z (b : byte) : Z := Z.of_N (Byte.to_N b).

(** A Go slice: the [len] visible elements, followed by the elements of the
    backing array between the length and the capacity.  Re-slicing checks
    its upper bound against the capacity, indexing against the length. *)
Record slice : Type := Slice { elems : list byte; spare : list byte }.

Definition backing (s : slice) : list byte := elems s ++ spare s.
Definition len (s : slice) : Z := Z.of_nat (length (elems s)).
Definition cap (s : slice) : Z := Z.of_nat (length (backing s)).

(** A freshly allocated slice with [len = cap]. *)
Definition of_bytes (l : list byte) : slice := Slice l [].

(** [s[i]] *)
Definition index (s : slice) (i : Z) : go byte :=
  if (0 <=? i) && (i <? len s) then
    match nth_error (elems s) (Z.to_nat i) with
    | Some b => Ok b
    | None => Panic IndexOutOfRange
    end
  else Panic IndexOutOfRange.

(** [s[lo:hi]]: requires [0 <= lo <= hi <= cap(s)]. *)
Definition slice_range (s : slice) (lo hi : Z) : go slice :=
  if (0 <=? lo) && (lo <=? hi) && (hi <=? cap s) then
    Ok (Slice (drop (Z.to_nat lo) (take (Z.to_nat hi) (backing s)))
              (drop (Z.to_nat hi) (backing s)))
  else Panic SliceBoundsOutOfRange.

(** [s[lo:]] is [s[lo:len(s)]]. *)
Definition slice_from (s : slice) (lo : Z) : go slice :=
  slice_range s lo (len s).

(** [s[:hi]] is [s[0:hi]]. *)
Definition slice_to (s : slice) (hi : Z) : go slice :=
  slice_range s 0 hi.

(** [string(s)]: Go strings are byte sequences, as Rocq's are. *)
Definition to_string (s : slice) : string := string_of_list_byte (elems s).

(** [bytes.IndexByte(s, c)]: index of the first [c] among the visible
    elements, or [-1]. *)
Fixpoint index_byte (l : list byte) (c : byte) : Z :=
  match l with
  | [] => -1
  | b :: l' =>
      if Byte.eqb b c then 0
      else let i := index_byte l' c in if i =? -1 then -1 else i + 1
  end.

Definition IndexByte (s : slice) (c : byte) : Z := index_byte (elems s) c.

(** [binary.BigEndian.Uint32] and [binary.LittleEndian.Uint16/32/64] on a
    slice of at least that many bytes (they index the slice, so a shorter
    one panics). *)
Definition BigEndian_Uint32 (s : slice) : go Z :=
  b3 ← index s 3; b0 ← index s 0; b1 ← index s 1; b2 ← index s 2;
  Ok (Z.lor (Z.lor (Z.lor (byte_to_Z b3) (Z.shiftl (byte_to_Z b2) 8))
                   (Z.shiftl (byte_to_Z b1) 16))
            (Z.shiftl (byte_to_Z b0) 24)).

Definition LittleEndian_Uint16 (s : slice) : go Z :=
  b1 ← index s 1; b0 ← index s 0;
  Ok (Z.lor (byte_to_Z b0) (Z.shiftl (byte_to_Z b1) 8)).

Definition LittleEndian_Uint32 (s : slice) : go Z :=
  b3 ← index s 3; b0 ← index s 0; b1 ← index s 1; b2 ← index s 2;
  Ok (Z.lor (Z.lor (Z.lor (byte_to_Z b0) (Z.shiftl (byte_to_Z b1) 8))
                   (Z.shiftl (byte_to_Z b2) 16))
            (Z.shiftl (byte_to_Z b3) 24)).

Definition LittleEndian_Uint64 (s : slice) : go Z :=
  b7 ← index s 7; b0 ← index s 0; b1 ← index s 1; b2 ← index s 2;
  b3 ← index s 3; b4 ← index s 4; b5 ← index s 5; b6 ← index s 6;
  Ok (Z.lor (Z.lor (Z.lor (Z.lor (Z.lor (Z.lor (Z.lor
        (byte_to_Z b0) (Z.shiftl (byte_to_Z b1) 8))
        (Z.shiftl (byte_to_Z b2) 16)) (Z.shiftl (byte_to_Z b3) 24))
        (Z.shiftl (byte_to_Z b4) 32)) (Z.shiftl (byte_to_Z b5) 40))
        (Z.shiftl (byte_to_Z b6) 48)) (Z.shiftl (byte_to_Z b7) 56)).

(** [int(u)] for a [uint64]: on the 64-bit targets of the build the
    conversion wraps into the signed range. *)
Definition int_of_uint64 (u : Z) : Z :=
  let r := u mod 2 ^ 64 in if r <? 2 ^ 63 then r else r - 2 ^ 64.

(** ** Package [postgres/v1] *)

Module postgres.

Definition ProtocolVersion : Z := 0x00030000.

(** [func (p *PostgresV1) MatchType(ctx, reqBuf []byte) bool] *)
Definition MatchType (reqBuf : slice) : go bool :=
  if len reqBuf <? 8 then Ok false
  else
    hdr ← slice_range reqBuf 4 8;
    version ← BigEndian_Uint32 hdr;
    if version =? 80877103 then Ok true
    else Ok (version =? ProtocolVersion).

End postgres.

(** ** Package [generic] *)

Module generic.

(** [func (g *Generic) MatchType(ctx, buffer []byte) bool]: "generic is
    checked explicitly in the proxy". *)
Definition MatchType (buffer : slice) : go bool := Ok false.

End generic.

(** ** Package [mysql] *)

Module mysql.

Definition CLIENT_PLUGIN_AUTH : Z := 0x080000.
Definition CLIENT_CONNECT_WITH_DB : Z := 0x08.
Definition CLIENT_CONNECT_ATTRS : Z := 0x0100000.
Definition CLIENT_ZSTD_COMPRESSION_ALGORITHM : Z := 0x010000.
Definition CLIENT_PLUGIN_AUTH_LENENC_CLIENT_DATA : Z := 0x0200000.

(** [flags & c != 0] *)
Definition has_flag (flags c : Z) : bool := negb (Z.land flags c =? 0).

(** [models.MySQLHandshakeResponse], with the fields the decoder assigns.
    A [nil] map is [None]; a [nil] byte slice is the empty list. *)
Record MySQLHandshakeResponse : Type := {
  CapabilityFlags : Z;
  MaxPacketSize : Z;
  CharacterSet : byte;
  Reserved : list byte;
  Username : string;
  AuthData : list byte;
  Database : string;
  AuthPluginName : string;
  ConnectAttributes : option (gmap string string);
  ZstdCompressionLevel : byte
}.

(** [func decodeLengthEncodedInteger(b []byte) (length int, isNull bool,
    bytesRead int)] *)
Definition decodeLengthEncodedInteger (b : slice) : go (Z * bool * Z) :=
  if len b =? 0 then Ok (0, true, 0)
  else
    b0 ← index b 0;
    if byte_to_Z b0 =? 0xfb then Ok (0, true, 1)
    else if byte_to_Z b0 =? 0xfc then
      if len b <? 3 then Ok (0, false, 0)
      else
        s ← slice_range b 1 3;
        u ← LittleEndian_Uint16 s;
        Ok (u, false, 3)
    else if byte_to_Z b0 =? 0xfd then
      if len b <? 4 then Ok (0, false, 0)
      else
        b1 ← index b 1; b2 ← index b 2; b3 ← index b 3;
        Ok (Z.lor (Z.lor (byte_to_Z b1) (Z.shiftl (byte_to_Z b2) 8))
                  (Z.shiftl (byte_to_Z b3) 16), false, 4)
    else if byte_to_Z b0 =? 0xfe then
      if len b <? 9 then Ok (0, false, 0)
      else
        s ← slice_range b 1 9;
        u ← LittleEndian_Uint64 s;
        Ok (int_of_uint64 u, false, 9)
    else Ok (byte_to_Z b0, false, 1).

(** The fixed 32-byte header: capability flags, max packet size, character
    set and the 23 reserved bytes (source lines 33-43). *)
Definition decodeHeader (data : slice) : go (Z * Z * byte * list byte * slice) :=
  b ← slice_to data 4;
  flags ← LittleEndian_Uint32 b;
  data ← slice_from data 4;
  b ← slice_to data 4;
  maxPacket ← LittleEndian_Uint32 b;
  data ← slice_from data 4;
  charset ← index data 0;
  data ← slice_from data 1;
  r ← slice_to data 23;
  data ← slice_from data 23;
  Ok (flags, maxPacket, charset, elems r, data).

(** The null-terminated user name (source lines 45-50). *)
Definition decodeUsername (data : slice) : go (string * slice) :=
  let idx := IndexByte data Byte.x00 in
  if idx =? -1 then
    Err "malformed handshake response packet: missing null terminator for Username"
  else
    u ← slice_to data idx;
    data ← slice_from data (idx + 1);
    Ok (to_string u, data).

(** The authentication data (source lines 52-67).  In the second branch
    [data] is re-sliced past the length byte and one more byte, and is left
    there: it is not advanced past the authentication data. *)
Definition decodeAuthData (flags : Z) (data : slice) : go (list byte * slice) :=
  if has_flag flags CLIENT_PLUGIN_AUTH_LENENC_CLIENT_DATA then
    b ← index data 0;
    let length := byte_to_Z b in
    data ← slice_from data 1;
    if 0 <? length then
      if len data <? length then
        Err "handshake response packet too short for auth data"
      else
        a ← slice_to data length;
        data ← slice_from data length;
        Ok (elems a, data)
    else Ok ([], data)
  else
    b ← index data 0;
    let authLen := byte_to_Z b in
    data ← slice_from data 2;
    a ← slice_to data authLen;
    Ok (elems a, data).

(** The database name (source lines 69-75): when no terminator is found
    the field is left empty and nothing is consumed. *)
Definition decodeDatabase (flags : Z) (data : slice) : go (string * slice) :=
  if has_flag flags CLIENT_CONNECT_WITH_DB then
    let idx := IndexByte data Byte.x00 in
    if negb (idx =? -1) then
      d ← slice_to data idx;
      data ← slice_from data (idx + 1);
      Ok (to_string d, data)
    else Ok (EmptyString, data)
  else Ok (EmptyString, data).

(** The authentication plugin name (source lines 77-84). *)
Definition decodeAuthPluginName (flags : Z) (data : slice) : go (string * slice) :=
  if has_flag flags CLIENT_PLUGIN_AUTH then
    let idx := IndexByte data Byte.x00 in
    if idx =? -1 then
      Err "malformed handshake response packet: missing null terminator for AuthPluginName"
    else
      n ← slice_to data idx;
      data ← slice_from data (idx + 1);
      Ok (to_string n, data)
  else Ok (EmptyString, data).

(** One key and value read off [attributesData] (source lines 102-118):
    what is left of [attributesData], the key and the value. *)
Definition attrPair (attributesData : slice) : go (slice * string * string) :=
  '(keyLength, isNull, n) ← decodeLengthEncodedInteger attributesData;
  if isNull : bool then
    Err "malformed handshake response packet: null length encoded integer for connection attribute key"
  else
    attributesData ← slice_from attributesData n;
    k ← slice_to attributesData keyLength;
    let key := to_string k in
    attributesData ← slice_from attributesData keyLength;
    '(valueLength, isNull, n) ← decodeLengthEncodedInteger attributesData;
    if isNull : bool then
      Err "malformed handshake response packet: null length encoded integer for connection attribute value"
    else
      attributesData ← slice_from attributesData n;
      v ← slice_to attributesData valueLength;
      let value := to_string v in
      attributesData ← slice_from attributesData valueLength;
      Ok (attributesData, key, value).

(** One iteration of the attribute loop: a pair is read and stored
    (source lines 102-120). *)
Definition attrBody (st : slice * gmap string string)
  : go (slice * gmap string string) :=
  '(rest, key, value) ← attrPair st.1;
  Ok (rest, <[key := value]> st.2).

(** [for len(attributesData) > 0 { ... }].  An iteration either shortens
    [attributesData] or leaves it as it was, in which case the Go loop
    repeats the iteration for ever ([attrBody_stuck_forever] below); so the
    length of [attributesData] is enough fuel ([attrLoop_fuel]). *)
Fixpoint attrLoop (fuel : nat) (attributesData : slice)
    (attrs : gmap string string) : go (gmap string string) :=
  if 0 <? len attributesData then
    match fuel with
    | O => Diverge
    | S fuel' =>
        '(rest, attrs') ← attrBody (attributesData, attrs);
        if len rest =? len attributesData then Diverge
        else attrLoop fuel' rest attrs'
    end
  else Ok attrs.

(** The connection attributes (source lines 86-122). *)
Definition decodeConnectAttrs (flags : Z) (data : slice)
  : go (option (gmap string string) * slice) :=
  if has_flag flags CLIENT_CONNECT_ATTRS then
    if len data <? 4 then
      Err "handshake response packet too short for connection attributes"
    else
      '(totalLength, isNull, n) ← decodeLengthEncodedInteger data;
      if (isNull : bool) || (n =? 0) then
        Err "error decoding total length of connection attributes"
      else
        data ← slice_from data n;
        attributesData ← slice_to data totalLength;
        data ← slice_from data totalLength;
        attrs ← attrLoop (length (elems attributesData)) attributesData ∅;
        Ok (Some attrs, data)
  else Ok (None, data).

(** The zstd compression level (source lines 123-130). *)
Definition decodeZstd (flags : Z) (data : slice) : go byte :=
  if 0 <? len data then
    if has_flag flags CLIENT_ZSTD_COMPRESSION_ALGORITHM then
      if len data <? 1 then
        Err "handshake response packet too short for ZSTD compression level"
      else index data 0
    else Ok Byte.x00
  else Ok Byte.x00.

(** [func decodeHandshakeResponse(data []byte)], returning a pointer to a
    [models.MySQLHandshakeResponse] or an error. *)
Definition decodeHandshakeResponse (data : slice) : go MySQLHandshakeResponse :=
  if len data <? 32 then Err "handshake response packet too short"
  else
    '(flags, maxPacket, charset, reserved, data) ← decodeHeader data;
    '(username, data) ← decodeUsername data;
    '(authData, data) ← decodeAuthData flags data;
    '(database, data) ← decodeDatabase flags data;
    '(pluginName, data) ← decodeAuthPluginName flags data;
    '(attrs, data) ← decodeConnectAttrs flags data;
    level ← decodeZstd flags data;
    Ok {| CapabilityFlags := flags;
          MaxPacketSize := maxPacket;
          CharacterSet := charset;
          Reserved := reserved;
          Username := username;
          AuthData := authData;
          Database := database;
          AuthPluginName := pluginName;
          ConnectAttributes := attrs;
          ZstdCompressionLevel := level |}.

(** The decoder up to the database name, and up to the plugin name: the
    capability flags and the bytes left when the field is about to be
    read. *)
Definition before_database (data : slice) : go (Z * slice) :=
  '(flags, _, _, _, data) ← decodeHeader data;
  '(_, data) ← decodeUsername data;
  '(_, data) ← decodeAuthData flags data;
  Ok (flags, data).

Definition before_plugin_name (data : slice) : go (Z * slice) :=
  '(flags, data) ← before_database data;
  '(_, data) ← decodeDatabase flags data;
  Ok (flags, data).

End mysql.

(** ** Package [yaml] *)

Module yaml.

(** The files of the disk: path to content.  Directories, permissions and
    I/O errors other than a missing file are not modelled. *)
Abbreviation files := (gmap string (list byte)).

(** ["---\n"] *)
Definition separator : list byte :=
  [Byte.x2d; Byte.x2d; Byte.x2d; Byte.x0a].

(** [ValidatePath] of this package and [filepath.Join] of the standard
    library are not among the sources: they are parameters. *)
Class Paths : Type := {
  ValidatePath : string -> go string;
  Join : string -> string -> string
}.

Section OS.

Context {paths : Paths}.

(** [func (cw *ctxWriter) Write(p []byte) (n int, err error)] on a file
    whose content is [content]; [ctxDone] says whether the context is
    cancelled.  [os.File.Write] writes the whole of [p]. *)
Definition ctxWriter_Write (ctxDone : bool) (content p : list byte)
  : list byte * go Z :=
  if 0 <? Z.of_nat (length p) then
    if ctxDone then (content, Err "context canceled")
    else (content ++ p, Ok (Z.of_nat (length p)))
  else (content, Ok 0).

(** [os.OpenFile(name, os.O_WRONLY|os.O_CREATE|os.O_TRUNC, 0644)]: the file
    is created when missing and emptied when present. *)
Definition OpenFile_trunc (fs : files) (name : string) : files :=
  <[name := []]> fs.

(** [func CreateYamlFile(ctx, Logger, path, fileName) (bool, error)] *)
Definition CreateYamlFile (fs : files) (path fileName : string)
  : files * go bool :=
  match ValidatePath (Join path (fileName +:+ ".yaml")) with
  | Ok yamlPath =>
      match fs !! yamlPath with
      | None => (<[yamlPath := []]> fs, Ok true)
      | Some _ => (fs, Ok false)
      end
  | Err e => (fs, Err e)
  | Panic p => (fs, Panic p)
  | Diverge => (fs, Diverge)
  end.

(** [func WriteFile(ctx, logger, path, fileName, docData) error] *)
Definition WriteFile (ctxDone : bool) (fs : files) (path fileName : string)
    (docData : list byte) : files * go unit :=
  match CreateYamlFile fs path fileName with
  | (fs, Ok isFileEmpty) =>
      let data := (if isFileEmpty then [] else separator) ++ docData in
      let yamlPath := Join path (fileName +:+ ".yaml") in
      let fs := OpenFile_trunc fs yamlPath in
      let '(content, w) := ctxWriter_Write ctxDone (default [] (fs !! yamlPath)) data in
      let fs := <[yamlPath := content]> fs in
      match w with
      | Err _ => (fs, Ok tt) (* err == ctx.Err(): return nil *)
      | _ => (fs, Ok tt)
      end
  | (fs, Err e) => (fs, Err e)
  | (fs, Panic p) => (fs, Panic p)
  | (fs, Diverge) => (fs, Diverge)
  end.

(** [func ReadFile(ctx, path, name) ([]byte, error)] *)
Definition ReadFile (ctxDone : bool) (fs : files) (path name : string)
  : go (list byte) :=
  match fs !! Join path (name +:+ ".yaml") with
  | None => Err "failed to read the file"
  | Some content =>
      if ctxDone then Ok [] (* return nil, nil *)
      else Ok content
  end.

(** Successive [WriteFile] calls for one session file. *)
Fixpoint WriteFiles (fs : files) (path fileName : string)
    (docs : list (list byte)) : files :=
  match docs with
  | [] => fs
  | d :: docs' => WriteFiles (WriteFile false fs path fileName d).1 path fileName docs'
  end.

End OS.

(** What appending leaves in a session file: the documents in the order
    written, ["---\n"] before each one after the first. *)
Fixpoint joined (docs : list (list byte)) : list byte :=
  match docs with
  | [] => []
  | [d] => d
  | d :: docs' => d ++ separator ++ joined docs'
  end.

(** [ReadDir] of this package and [os.File.ReadDir] are not among the
    sources.  [ReadDir path] opens the directory (the outer result fails
    when it cannot), and [dir.ReadDir(0)] gives the names of its entries
    (the inner result fails when the listing does). *)
Class Directories : Type := {
  ReadDir : string -> go (go (list string))
}.

(** [func ReadSessionIndices(ctx, path, Logger) ([]string, error)].  On
    both error paths the slice returned is the empty [indices]; the first
    returns a nil error with it. *)
Definition ReadSessionIndices `{Directories} (path : string) : go (list string) :=
  let indices := [] in
  match ReadDir path with
  | Ok dir =>
      match dir with
      | Ok files =>
          Ok (fold_left
                (fun indices v =>
                   if negb (String.eqb v "testReports") then indices ++ [v]
                   else indices)
                files indices)
      | Err e => Err e
      | Panic p => Panic p
      | Diverge => Diverge
      end
  | Err _ => Ok indices
  | Panic p => Panic p
  | Diverge => Diverge
  end.

End yaml.

(** ** Package [conn] *)

Module conn.

(** Modelled from the spec: the declarations of [ID], [SocketDataEvent],
    [Event] and [TrafficDirectionEnum] are not among the sources.  A
    connection identifier is a 64-bit number, a data event carries a
    connection identifier, a direction and bytes, and an event is one of
    [open], [data] and [close]; any other [Type] string falls through the
    [switch]. *)
Abbreviation ID := Z.

Record SocketDataEvent : Type := {
  ConnID : ID;
  Direction : Z;
  Msg : list byte
}.

Inductive Event : Type :=
| OpenEvent (connID : ID)
| DataEvent (dataEvent : SocketDataEvent)
| CloseEvent (connID : ID)
| OtherEvent.

(** A buffered channel of data events: its queue, its capacity, and
    whether it was closed.  Channels are shared between the factory and the
    workers, so they live in a store and are named by their location. *)
Record chan : Type := Chan {
  buf : list SocketDataEvent;
  capacity : nat;
  closed : bool
}.

Abbreviation loc := nat.

(** The local variables of one [Worker] goroutine. *)
Record locals : Type := Locals {
  lastEventType : Z;
  req : list byte;
  res : list byte
}.

(** The factory: its [connections] map, with the store of the channels it
    made and the workers it started that have not returned (each worker is
    named by the channel it was given; a channel deleted from [connections]
    stays in the store, where its worker still holds it). *)
Record Factory : Type := {
  connections : gmap ID loc;
  chans : gmap loc chan;
  workers : gmap loc locals
}.

(** How a call that may wait on a channel ends: it returns, it is suspended
    on the channel, or it panics. *)
Inductive wait (A : Type) : Type :=
| Returned (a : A)
| Blocked
| Panicked (msg : string).

Arguments Returned {A} a.
Arguments Blocked {A}.
Arguments Panicked {A} msg.

(** [ch <- v] on a channel reference ([None] is the nil channel). *)
Definition send (ch : option chan) (v : SocketDataEvent) : wait chan :=
  match ch with
  | None => Blocked
  | Some c =>
      if closed c then Panicked "send on closed channel"
      else if (length (buf c) <? capacity c)%nat
           then Returned (Chan (buf c ++ [v]) (capacity c) false)
           else Blocked
  end.

(** [close(ch)] *)
Definition close (ch : option chan) : wait chan :=
  match ch with
  | None => Panicked "close of nil channel"
  | Some c =>
      if closed c then Panicked "close of closed channel"
      else Returned (Chan (buf c) (capacity c) true)
  end.

(** [var lastEventType TrafficDirectionEnum = -1; var req, res []byte] *)
Definition initial : locals := Locals (-1) [] [].

(** [func (factory *Factory) ProcessActiveTrackers(ctx, t, event)] *)
Definition ProcessActiveTrackers (factory : Factory) (event : Event)
  : wait Factory :=
  match event with
  | OpenEvent connectionId =>
      let workerChan := fresh (dom (chans factory)) in
      Returned {| connections := <[connectionId := workerChan]> (connections factory);
                  chans := <[workerChan := Chan [] 1000 false]> (chans factory);
                  workers := <[workerChan := initial]> (workers factory) |}
  | DataEvent dataEvent =>
      let connectionId := ConnID dataEvent in
      let ch := connections factory !! connectionId in
      match send (l ← ch; chans factory !! l) dataEvent with
      | Returned c =>
          Returned {| connections := connections factory;
                      chans := match ch with
                               | Some l => <[l := c]> (chans factory)
                               | None => chans factory
                               end;
                      workers := workers factory |}
      | Blocked => Blocked
      | Panicked m => Panicked m
      end
  | CloseEvent connectionId =>
      let ch := connections factory !! connectionId in
      match close (l ← ch; chans factory !! l) with
      | Returned c =>
          Returned {| connections := delete connectionId (connections factory);
                      chans := match ch with
                               | Some l => <[l := c]> (chans factory)
                               | None => chans factory
                               end;
                      workers := workers factory |}
      | Blocked => Blocked
      | Panicked m => Panicked m
      end
  | OtherEvent => Returned factory
  end.

(** What [Worker] and [capture] use and the sources do not hold:
    - the two direction constants;
    - the zero value of [SocketDataEvent.Msg] (the type of the field is not
      known);
    - [net/http] requests and responses, and reading their bodies to the
      end with [io.ReadAll] ([None]: the read fails);
    - the parsers of package [pkg]: each returns a pointer ([None] is nil)
      and whether its error is non-nil. *)
Class Externals : Type := {
  IngressTraffic : Z;
  EgressTraffic : Z;
  zeroMsg : list byte;
  Request : Type;
  Response : Type;
  ReadAll_Request : Request -> option (list byte);
  ReadAll_Response : Response -> option (list byte);
  ParseHTTPRequest : list byte -> option Request * bool;
  ParseHTTPResponse : list byte -> option Request -> option Response * bool
}.

Section Worker.

Context {ext : Externals}.

(** [models.TestCase]: every field [capture] fills is computed from the
    parsed request, its body, the parsed response and its body (and the
    clock, which is left out). *)
Record TestCase : Type := {
  HTTPReq : Request;
  HTTPReq_Body : list byte;
  HTTPResp : Response;
  HTTPResp_Body : list byte
}.

(** How a call of [capture] ends: it sent a test case on [t], it returned
    without sending, or it panicked. *)
Inductive captured : Type :=
| Sent (tc : TestCase)
| NotSent
| CapturePanic (p : panic).

(** [func capture(_, logger, t, req, resp, reqTimeTest, resTimeTest)].
    [req.Body] and [resp.Body] dereference their pointers. *)
Definition capture (req : option Request) (resp : option Response) : captured :=
  match req with
  | None => CapturePanic NilDereference
  | Some r =>
      match ReadAll_Request r with
      | None => NotSent
      | Some reqBody =>
          match resp with
          | None => CapturePanic NilDereference
          | Some p =>
              match ReadAll_Response p with
              | None => NotSent
              | Some respBody =>
                  Sent {| HTTPReq := r; HTTPReq_Body := reqBody;
                          HTTPResp := p; HTTPResp_Body := respBody |}
              end
          end
      end
  end.

(** The parsing and capturing both arms of the [select] share (source lines
    87-97 and 103-113): a parse error is logged and the pointer is passed
    on. *)
Definition parse_and_capture (req res : list byte) : captured :=
  let parsedHTTPReq := (ParseHTTPRequest req).1 in
  let parsedHTTPRes := (ParseHTTPResponse res parsedHTTPReq).1 in
  capture parsedHTTPReq parsedHTTPRes.

(** The arm of the [select] that runs in one iteration of the loop. *)
Inductive selected : Type :=
| RecvCase (dataEvent : SocketDataEvent)
| TimeoutCase
| DoneCase.

(** The result of one iteration: the loop goes on (having sent a test case
    or not), the worker returns, or it panics. *)
Inductive iteration : Type :=
| Continue (w : locals) (emitted : option TestCase)
| Exit
| Crash (p : panic).

(** One iteration of the [for { select { ... } }] of [Worker]. *)
Definition Worker_iter (w : locals) (sel : selected) : iteration :=
  match sel with
  | RecvCase dataEvent =>
      let req' := if Direction dataEvent =? IngressTraffic
                  then req w ++ Msg dataEvent else req w in
      let res' := if Direction dataEvent =? IngressTraffic then res w
                  else if Direction dataEvent =? EgressTraffic
                       then res w ++ Msg dataEvent else res w in
      if (Direction dataEvent =? IngressTraffic)
         && (lastEventType w =? EgressTraffic) then
        match parse_and_capture req' res' with
        | Sent tc => Continue (Locals (Direction dataEvent) req' res') (Some tc)
        | NotSent => Continue (Locals (Direction dataEvent) req' res') None
        | CapturePanic p => Crash p
        end
      else Continue (Locals (Direction dataEvent) req' res') None
  | TimeoutCase =>
      if lastEventType w =? EgressTraffic then
        match parse_and_capture (req w) (res w) with
        | Sent tc => Continue (Locals (-1) (req w) (res w)) (Some tc)
        | NotSent => Continue (Locals (-1) (req w) (res w)) None
        | CapturePanic p => Crash p
        end
      else Continue (Locals (-1) (req w) (res w)) None
  | DoneCase => Exit
  end.

(** [<-workerChan]: the head of the queue; on an empty queue the zero value
    if the channel is closed, and otherwise the receive waits. *)
Definition recv (ch : chan) : option (SocketDataEvent * chan) :=
  match buf ch with
  | dataEvent :: rest => Some (dataEvent, Chan rest (capacity ch) (closed ch))
  | [] =>
      if closed ch
      then Some ({| ConnID := 0; Direction := 0; Msg := zeroMsg |}, ch)
      else None
  end.

(** The arms of the [select] that can run, given the channel and whether
    the context is cancelled; the timer arm runs when the other two could
    not for two seconds. *)
Definition Worker_select (ctxDone : bool) (ch : chan) : list (selected * chan) :=
  match recv ch, ctxDone with
  | Some (dataEvent, ch'), true => [(RecvCase dataEvent, ch'); (DoneCase, ch)]
  | Some (dataEvent, ch'), false => [(RecvCase dataEvent, ch')]
  | None, true => [(DoneCase, ch)]
  | None, false => [(TimeoutCase, ch)]
  end.

(** The states of a worker goroutine and its channel. *)
Inductive goroutine : Type :=
| Running (ch : chan) (w : locals)
| Exited
| Crashed (p : panic).

(** One iteration of a worker, with the test case it sent. *)
Inductive Worker_step (ctxDone : bool)
  : goroutine -> option TestCase -> goroutine -> Prop :=
| step_continue ch w sel ch' w' e :
    In (sel, ch') (Worker_select ctxDone ch) ->
    Worker_iter w sel = Continue w' e ->
    Worker_step ctxDone (Running ch w) e (Running ch' w')
| step_exit ch w sel ch' :
    In (sel, ch') (Worker_select ctxDone ch) ->
    Worker_iter w sel = Exit ->
    Worker_step ctxDone (Running ch w) None Exited
| step_crash ch w sel ch' p :
    In (sel, ch') (Worker_select ctxDone ch) ->
    Worker_iter w sel = Crash p ->
    Worker_step ctxDone (Running ch w) None (Crashed p).

(** Any number of iterations, with the test cases sent in order. *)
Inductive Worker_steps (ctxDone : bool)
  : goroutine -> list TestCase -> goroutine -> Prop :=
| steps_nil g : Worker_steps ctxDone g [] g
| steps_cons g1 e g2 out g3 :
    Worker_step ctxDone g1 e g2 ->
    Worker_steps ctxDone g2 out g3 ->
    Worker_steps ctxDone g1 (option_list e ++ out) g3.

(** With a live context and no sender, one arm of the [select] can run:
    the worker alone is deterministic.  [Worker_next] is its next state and
    [Worker_run n] its state after [n] iterations. *)
Definition Worker_next (g : goroutine) : goroutine :=
  match g with
  | Running ch w =>
      match Worker_select false ch with
      | (sel, ch') :: _ =>
          match Worker_iter w sel with
          | Continue w' _ => Running ch' w'
          | Exit => Exited
          | Crash p => Crashed p
          end
      | [] => g
      end
  | _ => g
  end.

Fixpoint Worker_run (n : nat) (g : goroutine) : goroutine :=
  match n with
  | O => g
  | S n' => Worker_run n' (Worker_next g)
  end.

End Worker.

(** Whether the worker function has returned. *)
Definition returned (g : goroutine) : bool :=
  match g with
  | Exited => true
  | _ => false
  end.

(** [NewFactory]: no connection yet. *)
Definition NewFactory : Factory :=
  {| connections := ∅; chans := ∅; workers := ∅ |}.

(** The events of the tracer handled one after the other while no worker
    is scheduled: [ProcessActiveTrackers] is called on each event in turn, as
    long as it returns.  This is one of the runs of the program ([step]
    below, where the workers run as well): the one in which a queue that is
    full stays full, so that the send that finds it full waits. *)
Fixpoint run_events (factory : Factory) (events : list Event) : wait Factory :=
  match events with
  | [] => Returned factory
  | event :: events' =>
      match ProcessActiveTrackers factory event with
      | Returned factory' => run_events factory' events'
      | Blocked => Blocked
      | Panicked m => Panicked m
      end
  end.

Section Program.

Context {ext : Externals}.

(** The program as a whole: whether the context is cancelled, and the
    factory.  The goroutine of the tracer handles an event; a worker started
    by an [open] event runs one iteration of its loop on its channel,
    receiving from it when it can, or returns, after which it is no longer
    among the workers; or the context is cancelled.  A call of
    [ProcessActiveTrackers] that is suspended on a full queue is no step: it
    takes place once the worker has received.  A panic ends the program: it
    is no step either. *)
Inductive step : bool * Factory -> bool * Factory -> Prop :=
| step_event ctxDone factory event factory' :
    ProcessActiveTrackers factory event = Returned factory' ->
    step (ctxDone, factory) (ctxDone, factory')
| step_worker ctxDone factory l ch w e ch' w' :
    chans factory !! l = Some ch ->
    workers factory !! l = Some w ->
    Worker_step ctxDone (Running ch w) e (Running ch' w') ->
    step (ctxDone, factory)
         (ctxDone, {| connections := connections factory;
                      chans := <[l := ch']> (chans factory);
                      workers := <[l := w']> (workers factory) |})
| step_return ctxDone factory l ch w :
    chans factory !! l = Some ch ->
    workers factory !! l = Some w ->
    Worker_step ctxDone (Running ch w) None Exited ->
    step (ctxDone, factory)
         (ctxDone, {| connections := connections factory;
                      chans := chans factory;
                      workers := delete l (workers factory) |})
| step_cancel factory :
    step (false, factory) (true, factory).

(** The states the program reaches from [NewFactory] under a live context. *)
Definition reachable (s : bool * Factory) : Prop := rtc step (false, NewFactory) s.

End Program.

End conn.

(** ** Package [app] *)

Module app.

(** [utils.CmdType], as far as [Setup] and [Run] tell the kinds apart:
    [utils.Docker], [utils.DockerCompose], and any other. *)
Inductive CmdType : Set := Docker | DockerCompose | Native.

(** What the package reads of the Docker library's [types.ContainerJSON]:
    it embeds a pointer to [ContainerJSONBase], which holds [Name] and the
    pointer [State]; [NetworkSettings] is a pointer, [Networks] a map to
    pointers.  [None] is nil. *)
Record EndpointSettings : Type := { IPAddress : string }.

Record NetworkSettings : Type := {
  Networks : option (gmap string (option EndpointSettings))
}.

Record ContainerState : Type := { Pid : Z }.

Record ContainerJSONBase : Type := {
  Name : string;
  State : option ContainerState
}.

Record ContainerJSON : Type := {
  base : option ContainerJSONBase;
  networkSettings : option NetworkSettings
}.

(** The network of a compose file, as [GetNetworkInfo] reports it. *)
Record NetworkInfo : Type := { External : bool; NetworkName : string }.

(** [events.Message] *)
Record Message : Type := { Action : string; ID : string }.

(** [type App struct], without the logger, the identifier and the delay;
    the Docker client [a.docker] is part of the world below, and
    [inodeChan] holds the values sent on the channel, in order (the
    receiver is outside the package). *)
Record App : Type := {
  cmd : string;
  kind : CmdType;
  container : string;
  containerNetwork : string;
  containerIPv4 : string;
  keployNetwork : string;
  keployContainer : string;
  keployIPv4 : string;
  inode : Z;
  inodeChan : list Z
}.

Definition set_cmd (v : string) (a : App) : App :=
  {| cmd := v; kind := kind a; container := container a;
     containerNetwork := containerNetwork a; containerIPv4 := containerIPv4 a;
     keployNetwork := keployNetwork a; keployContainer := keployContainer a;
     keployIPv4 := keployIPv4 a; inode := inode a; inodeChan := inodeChan a |}.

Definition set_container (v : string) (a : App) : App :=
  {| cmd := cmd a; kind := kind a; container := v;
     containerNetwork := containerNetwork a; containerIPv4 := containerIPv4 a;
     keployNetwork := keployNetwork a; keployContainer := keployContainer a;
     keployIPv4 := keployIPv4 a; inode := inode a; inodeChan := inodeChan a |}.

Definition set_containerNetwork (v : string) (a : App) : App :=
  {| cmd := cmd a; kind := kind a; container := container a;
     containerNetwork := v; containerIPv4 := containerIPv4 a;
     keployNetwork := keployNetwork a; keployContainer := keployContainer a;
     keployIPv4 := keployIPv4 a; inode := inode a; inodeChan := inodeChan a |}.

Definition set_containerIPv4 (v : string) (a : App) : App :=
  {| cmd := cmd a; kind := kind a; container := container a;
     containerNetwork := containerNetwork a; containerIPv4 := v;
     keployNetwork := keployNetwork a; keployContainer := keployContainer a;
     keployIPv4 := keployIPv4 a; inode := inode a; inodeChan := inodeChan a |}.

Definition set_keployNetwork (v : string) (a : App) : App :=
  {| cmd := cmd a; kind := kind a; container := container a;
     containerNetwork := containerNetwork a; containerIPv4 := containerIPv4 a;
     keployNetwork := v; keployContainer := keployContainer a;
     keployIPv4 := keployIPv4 a; inode := inode a; inodeChan := inodeChan a |}.

Definition set_keployIPv4 (v : string) (a : App) : App :=
  {| cmd := cmd a; kind := kind a; container := container a;
     containerNetwork := containerNetwork a; containerIPv4 := containerIPv4 a;
     keployNetwork := keployNetwork a; keployContainer := keployContainer a;
     keployIPv4 := v; inode := inode a; inodeChan := inodeChan a |}.

Definition set_inode (v : Z) (a : App) : App :=
  {| cmd := cmd a; kind := kind a; container := container a;
     containerNetwork := containerNetwork a; containerIPv4 := containerIPv4 a;
     keployNetwork := keployNetwork a; keployContainer := keployContainer a;
     keployIPv4 := keployIPv4 a; inode := v; inodeChan := inodeChan a |}.

(** [a.inodeChan <- v] *)
Definition send_inode (v : Z) (a : App) : App :=
  {| cmd := cmd a; kind := kind a; container := container a;
     containerNetwork := containerNetwork a; containerIPv4 := containerIPv4 a;
     keployNetwork := keployNetwork a; keployContainer := keployContainer a;
     keployIPv4 := keployIPv4 a; inode := inode a; inodeChan := inodeChan a ++ [v] |}.

(** The Docker client of package [docker] and the functions of package
    [app] and [utils] that are not among the sources, as parameters.  [W] is
    the world they act on: the client, the daemon, the compose file in
    memory and the file system.  A method with an [error] result returns a
    [go] value; [ReadComposeFile] returns its pointer only, since its error
    is overwritten before it is read; [getInode] returns its number and
    its error, since the number is stored before the error is looked at. *)
Class Client (W : Type) : Type := {
  Compose : Type;
  New : W -> W * go unit;
  AttachNetwork : string -> list string -> W -> W * go unit;
  ContainerInspect : string -> W -> W * go ContainerJSON;
  SetContainerID : string -> W -> W * unit;
  GetContainerID : W -> W * string;
  ReadComposeFile : string -> W -> W * Compose;
  HasRelativePath : Compose -> W -> W * bool;
  ForceAbsolutePath : Compose -> string -> W -> W * go unit;
  GetNetworkInfo : Compose -> W -> W * option NetworkInfo;
  SetKeployNetwork : Compose -> W -> W * go unit;
  MakeNetworkExternal : Compose -> W -> W * go unit;
  NetworkExists : string -> W -> W * go bool;
  CreateNetwork : string -> W -> W * go unit;
  WriteComposeFile : Compose -> string -> W -> W * go unit;
  FindDockerCmd : string -> CmdType;
  parseDockerCmd : string -> go (string * string);
  findComposeFile : W -> W * string;
  modifyDockerComposeCommand : string -> string -> string;
  getInode : Z -> W -> W * (Z * option string)
}.

(** [func NewApp(logger, id, cmd) *App] *)
Definition NewApp `{Client W} (cmd : string) : App :=
  {| cmd := cmd; kind := FindDockerCmd cmd; container := EmptyString;
     containerNetwork := EmptyString; containerIPv4 := EmptyString;
     keployNetwork := EmptyString; keployContainer := "keploy-v2";
     keployIPv4 := EmptyString; inode := 0; inodeChan := [] |}.

Section Methods.

Context {W : Type} {client : Client W}.

(** A method of [*App]: it runs on the app and the world, changes them, and
    ends as a Go call does. *)
Definition act (A : Type) : Type := App * W -> (App * W) * go A.

#[global] Instance act_ret : MRet act := fun A a s => (s, Ok a).

#[global] Instance act_bind : MBind act := fun A B f m s =>
  match m s with
  | (s', Ok a) => f a s'
  | (s', Err e) => (s', Err e)
  | (s', Panic p) => (s', Panic p)
  | (s', Diverge) => (s', Diverge)
  end.

(** Reading and assigning the fields of [a]. *)
Definition get : act App := fun s => (s, Ok s.1).

Definition modify (f : App -> App) : act unit := fun s => ((f s.1, s.2), Ok tt).

(** A call of the client or of a function of the package: without and with
    an [error] result ([if err != nil { return err }]). *)
Definition call {A} (m : W -> W * A) : act A :=
  fun s => let '(w, r) := m s.2 in ((s.1, w), Ok r).

Definition checked {A} (m : W -> W * go A) : act A :=
  fun s => let '(w, r) := m s.2 in ((s.1, w), r).

(** A call that touches neither the app nor the world. *)
Definition pure {A} (r : go A) : act A := fun s => (s, r).

(** [return errors.New(msg)] *)
Definition errors_New {A} (msg : string) : act A := pure (Err msg).

(** [p.field] on a pointer [p]. *)
Definition deref {A} (p : option A) : act A :=
  pure (match p with Some x => Ok x | None => Panic NilDereference end).

(** An error that is logged and dropped, and one that is returned inside
    another ([fmt.Errorf(prefix + "%v", err)]). *)
Definition logged (m : act unit) : act unit := fun s =>
  match m s with
  | (s', Err _) => (s', Ok tt)
  | r => r
  end.

Definition wrapped (prefix : string) (m : act unit) : act unit := fun s =>
  match m s with
  | (s', Err e) => (s', Err (prefix +:+ e))
  | r => r
  end.

(** [func (a *App) injectNetwork(network string) error].  The [range] over
    the networks returns at the key [network], if it is there. *)
Definition injectNetwork (network : string) : act unit :=
  a ← get;
  _ ← checked (AttachNetwork (keployContainer a) [network]);
  _ ← modify (set_keployNetwork network);
  kInspect ← checked (ContainerInspect (keployContainer a));
  ns ← deref (networkSettings kInspect);
  let keployNetworks := default ∅ (Networks ns) in
  match keployNetworks !! network with
  | Some settings =>
      settings ← deref settings;
      modify (set_keployIPv4 (IPAddress settings))
  | None =>
      errors_New ("failed to find the network:" +:+ network +:+ " in the keploy container")
  end.

(** [func (a *App) SetupDocker() error] *)
Definition SetupDocker : act unit :=
  a ← get;
  '(cont, net) ← pure (parseDockerCmd (cmd a));
  _ ← (if String.eqb (container a) "" then modify (set_container cont)
       else mret tt);
  _ ← (if String.eqb (containerNetwork a) "" then modify (set_containerNetwork net)
       else mret tt);
  a ← get;
  injectNetwork (containerNetwork a).

(** [func (a *App) SetupCompose() error] *)
Definition SetupCompose : act unit :=
  a ← get;
  if String.eqb (container a) "" then errors_New "container name not found"
  else
    path ← call findComposeFile;
    if String.eqb path "" then
      errors_New "can't find the docker compose file of user. Are you in the right directory? "
    else
      let newPath := "docker-compose-tmp.yaml"%string in
      compose ← call (ReadComposeFile path);
      let composeChanged := false in
      ok ← call (HasRelativePath compose);
      composeChanged ←
        (if ok : bool then _ ← checked (ForceAbsolutePath compose path); mret true
         else mret composeChanged);
      info ← call (GetNetworkInfo compose);
      composeChanged ←
        (match info with
         | None => _ ← checked (SetKeployNetwork compose); mret true
         | Some _ => mret composeChanged
         end);
      i ← deref info;
      composeChanged ←
        (if negb (External i) then
           _ ← wrapped "error while updating network to external: "
                 (checked (MakeNetworkExternal compose));
           _ ← modify (set_keployNetwork (NetworkName i));
           mret true
         else mret composeChanged);
      a ← get;
      ok ← checked (NetworkExists (keployNetwork a));
      _ ← (if negb ok then checked (CreateNetwork (keployNetwork a)) else mret tt);
      _ ← (if composeChanged : bool then
             _ ← logged (checked (WriteComposeFile compose newPath));
             a ← get;
             modify (set_cmd (modifyDockerComposeCommand (cmd a) newPath))
           else mret tt);
      a ← get;
      injectNetwork (containerNetwork a).

(** [func (a *App) Setup(ctx, opts) error] *)
Definition Setup : act unit :=
  _ ← checked New;
  a ← get;
  match kind a with
  | Docker => SetupDocker
  | DockerCompose => SetupCompose
  | Native => mret tt
  end.

(** [func (a *App) handleDockerEvents(ctx, e events.Message) error] *)
Definition handleDockerEvents (e : Message) : act unit :=
  if String.eqb (Action e) "create" then
    c ← checked (ContainerInspect (ID e));
    b ← deref (base c);
    a ← get;
    if negb (String.eqb (Name b) ("/" +:+ container a)) then mret tt
    else call (SetContainerID (ID e))
  else if String.eqb (Action e) "connect" then
    id ← call GetContainerID;
    if String.eqb id "" then mret tt
    else
      a ← get;
      info ← checked (ContainerInspect (container a));
      match networkSettings info with
      | None => mret tt
      | Some ns =>
          match Networks ns with
          | None => mret tt
          | Some networks =>
              match networks !! containerNetwork a with
              | Some (Some n) => modify (set_containerIPv4 (IPAddress n))
              | _ => mret tt
              end
          end
      end
  else if String.eqb (Action e) "start" then
    id ← call GetContainerID;
    if String.eqb id "" then mret tt
    else
      a ← get;
      if String.eqb (containerIPv4 a) "" then
        errors_New "docker container started but ip not yet available"
      else
        info ← checked (ContainerInspect (container a));
        b ← deref (base info);
        st ← deref (State b);
        if Pid st =? 0 then errors_New "failed to get the pid of the container"
        else
          '(i, err) ← call (getInode (Pid st));
          _ ← modify (set_inode i);
          match err with
          | Some e => errors_New e
          | None => modify (send_inode i)
          end
  else mret tt.

End Methods.

End app.

(** ** Package [proxy]: the classifier *)

Module proxy.

(** Modelled from the spec: the dispatcher's classifier is not among the
    sources.  "Iterate registered codecs in a deterministic order; return
    the first whose [MatchType] returns true.  If none match, return the
    [generic] codec." *)
Inductive codec : Set := PostgresV1 | Generic.

Definition MatchType (c : codec) (buffer : slice) : go bool :=
  match c with
  | PostgresV1 => postgres.MatchType buffer
  | Generic => generic.MatchType buffer
  end.

(** The first registered codec that claims the buffer, if any. *)
Fixpoint first_match (registry : list codec) (buffer : slice) : option codec :=
  match registry with
  | [] => None
  | c :: registry' =>
      match MatchType c buffer with
      | Ok true => Some c
      | _ => first_match registry' buffer
      end
  end.

Definition classify (registry : list codec) (buffer : slice) : codec :=
  default Generic (first_match registry buffer).

End proxy.

(** * Definitions used by the statements *)

(** The big-endian 32-bit integer with bytes [b0 b1 b2 b3]. *)
Definition uint32_be (b0 b1 b2 b3 : byte) : Z :=
  byte_to_Z b0 * 2 ^ 24 + byte_to_Z b1 * 2 ^ 16 + byte_to_Z b2 * 2 ^ 8 + byte_to_Z b3.

(** The little-endian 32-bit integer with bytes [b0 b1 b2 b3]. *)
Definition uint32_le (b0 b1 b2 b3 : byte) : Z := uint32_be b3 b2 b1 b0.

(** The big-endian integer held by bytes [4..8) of a buffer (bytes that
    are missing read as zero). *)
Definition version_field (l : list byte) : Z :=
  uint32_be (nth 4 l Byte.x00) (nth 5 l Byte.x00) (nth 6 l Byte.x00) (nth 7 l Byte.x00).

(** The bytes before the first [0x00] and the bytes after it. *)
Fixpoint split_nul (l : list byte) : option (list byte * list byte) :=
  match l with
  | [] => None
  | b :: l' =>
      if Byte.eqb b Byte.x00 then Some ([], l')
      else match split_nul l' with
           | Some (u, r) => Some (b :: u, r)
           | None => None
           end
  end.

(** The capability flags and the maximal packet size of a header. *)
Definition flags_of (hdr : list byte) : Z :=
  uint32_le (nth 0 hdr Byte.x00) (nth 1 hdr Byte.x00)
            (nth 2 hdr Byte.x00) (nth 3 hdr Byte.x00).

Definition max_packet_of (hdr : list byte) : Z :=
  uint32_le (nth 4 hdr Byte.x00) (nth 5 hdr Byte.x00)
            (nth 6 hdr Byte.x00) (nth 7 hdr Byte.x00).

(** The state of the attribute loop after [n] iterations of its body, the
    guard aside. *)
Fixpoint attrIter (n : nat) (st : slice * gmap string string)
  : go (slice * gmap string string) :=
  match n with
  | O => Ok st
  | S n' => st' ← mysql.attrBody st; attrIter n' st'
  end.

(** The handshake response of the MySQL scenario: the 32-byte header with
    capability bytes [caps], then the user name, the authentication data
    with its length byte, the database, the plugin name and the attribute
    block with its length byte [attrlen]. *)
Definition handshake_header (caps : list byte) : list byte :=
  caps ++ [x00; x00; x00; x01] ++ [x21] ++ repeat x00 23.

Definition attribute_block (attrlen : byte) : list byte :=
  [attrlen; x03] ++ list_byte_of_string "foo" ++ [x03] ++ list_byte_of_string "bar".

Definition handshake_body (auth : list byte) (attrlen : byte) : list byte :=
  list_byte_of_string "root" ++ [x00] ++ [x14] ++ auth
  ++ list_byte_of_string "test" ++ x00
  :: list_byte_of_string "mysql_native_password" ++ x00
  :: attribute_block attrlen.

Definition handshake (caps auth : list byte) (attrlen : byte) : list byte :=
  handshake_header caps ++ handshake_body auth attrlen.

(** The capability bytes of the scenario, [8D A6 0F 00]. *)
Definition scenario_caps : list byte := [x8d; xa6; x0f; x00].

Definition scramble : list byte :=
  [x01; x02; x03; x04; x05; x06; x07; x08; x09; x0a;
   x0b; x0c; x0d; x0e; x0f; x10; x11; x12; x13; x14].

Definition zero_header (caps : list byte) : list byte :=
  caps ++ repeat x00 28.

(** [unterminated data field]: the decoder reaches the null-terminated
    field [field] of [data], which it requires, and no [0x00] is left in
    the buffer. *)
Inductive unterminated (data : slice) : string -> Prop :=
| unterminated_Username flags maxPacket charset reserved rest :
    mysql.decodeHeader data = Ok (flags, maxPacket, charset, reserved, rest) ->
    ~ In x00 (elems rest) ->
    unterminated data "Username"
| unterminated_AuthPluginName flags rest :
    mysql.before_plugin_name data = Ok (flags, rest) ->
    mysql.has_flag flags mysql.CLIENT_PLUGIN_AUTH = true ->
    ~ In x00 (elems rest) ->
    unterminated data "AuthPluginName".

(** The same for the database name, which is read when
    [CLIENT_CONNECT_WITH_DB] is set. *)
Definition unterminated_Database (data : slice) : Prop :=
  exists flags rest,
    mysql.before_database data = Ok (flags, rest) /\
    mysql.has_flag flags mysql.CLIENT_CONNECT_WITH_DB = true /\
    ~ In x00 (elems rest).

(** A user name without terminator: 32 header bytes and ["root"]. *)
Definition unterminated_user : slice :=
  of_bytes (zero_header [x00; x00; x20; x00] ++ list_byte_of_string "root").

(** A plugin name without terminator: the flags
    [CLIENT_PLUGIN_AUTH|CLIENT_PLUGIN_AUTH_LENENC_CLIENT_DATA], the user
    ["root"], no authentication data, and ["mysql"]. *)
Definition unterminated_plugin : slice :=
  of_bytes (zero_header [x00; x00; x28; x00]
            ++ list_byte_of_string "root" ++ [x00; x00]
            ++ list_byte_of_string "mysql").

(** A database name without terminator: the flags
    [CLIENT_CONNECT_WITH_DB|CLIENT_PLUGIN_AUTH_LENENC_CLIENT_DATA], the user
    ["root"], no authentication data, and ["test"]. *)
Definition unterminated_db : slice :=
  of_bytes (zero_header [x08; x00; x20; x00]
            ++ list_byte_of_string "root" ++ [x00; x00]
            ++ list_byte_of_string "test").

(** The layout of an accepted packet [data], decoded as [p]: the header,
    the user name and its terminator, the length byte [L], and the
    authentication data.  When [CLIENT_PLUGIN_AUTH_LENENC_CLIENT_DATA] is
    not among the capability flags, one more byte is skipped and [AuthData]
    is the [L] bytes that follow it in the backing array; when the flag is
    set, [AuthData] is the [L] bytes that follow the length byte. *)
Definition AuthData_layout (data : slice) (p : mysql.MySQLHandshakeResponse) : Prop :=
  exists (hdr user : list byte) (L : byte) (more : list byte),
    elems data = hdr ++ user ++ x00 :: L :: more /\
    length hdr = 32%nat /\
    ~ In x00 user /\
    mysql.CapabilityFlags p = flags_of hdr /\
    mysql.Username p = string_of_list_byte user /\
    if mysql.has_flag (flags_of hdr) mysql.CLIENT_PLUGIN_AUTH_LENENC_CLIENT_DATA
    then
      byte_to_Z L <= Z.of_nat (length more) /\
      mysql.AuthData p = take (Z.to_nat (byte_to_Z L)) more
    else
      exists (skipped : byte) (more' : list byte),
        more = skipped :: more' /\
        byte_to_Z L <= Z.of_nat (length (more' ++ spare data)) /\
        mysql.AuthData p = take (Z.to_nat (byte_to_Z L)) (more' ++ spare data).

(** Two accepted packets with the same bytes after the user name, one for
    each form: length byte [02], then [aa bb cc]. *)
Definition auth_legacy : slice :=
  of_bytes (zero_header [x00; x00; x00; x00] ++ [x00; x02; xaa; xbb; xcc]).

Definition auth_lenenc : slice :=
  of_bytes (zero_header [x00; x00; x20; x00] ++ [x00; x02; xaa; xbb; xcc]).

Definition auth_legacy_packet : mysql.MySQLHandshakeResponse :=
  {| mysql.CapabilityFlags := 0;
     mysql.MaxPacketSize := 0;
     mysql.CharacterSet := x00;
     mysql.Reserved := repeat x00 23;
     mysql.Username := "";
     mysql.AuthData := [xbb; xcc];
     mysql.Database := "";
     mysql.AuthPluginName := "";
     mysql.ConnectAttributes := None;
     mysql.ZstdCompressionLevel := x00 |}.

(** Paths joined with a slash, every path valid. *)
#[local] Instance plain_paths : yaml.Paths :=
  {| yaml.ValidatePath := fun p => Ok p;
     yaml.Join := fun dir name => dir +:+ "/" +:+ name |}.

Definition doc_a : list byte := list_byte_of_string "name: mock-0" ++ [x0a].

Definition doc_b : list byte := list_byte_of_string "name: mock-1" ++ [x0a].

(** Every channel of the factory was made with capacity 1000 and holds at
    most that many events. *)
Definition bounded (factory : conn.Factory) : Prop :=
  forall l ch, conn.chans factory !! l = Some ch ->
               conn.capacity ch = 1000%nat /\ (length (conn.buf ch) <= 1000)%nat.

Definition data42 : conn.SocketDataEvent :=
  {| conn.ConnID := 42; conn.Direction := 0; conn.Msg := [x47; x45; x54] |}.

Definition queue42 (n : nat) : conn.Factory :=
  {| conn.connections := {[ 42 := 0%nat ]};
     conn.chans := {[ 0%nat := conn.Chan (repeat data42 n) 1000 false ]};
     conn.workers := {[ 0%nat := conn.initial ]} |}.

(** [parsed req res tc]: the accumulators are not empty, both parse
    without error, and [tc] holds the parsed request and response with
    their bodies. *)
Definition parsed {ext : conn.Externals} (req res : list byte) (tc : conn.TestCase) : Prop :=
  req <> [] /\ res <> [] /\
  conn.ParseHTTPRequest req = (Some (conn.HTTPReq tc), false) /\
  conn.ParseHTTPResponse res (Some (conn.HTTPReq tc)) = (Some (conn.HTTPResp tc), false) /\
  conn.ReadAll_Request (conn.HTTPReq tc) = Some (conn.HTTPReq_Body tc) /\
  conn.ReadAll_Response (conn.HTTPResp tc) = Some (conn.HTTPResp_Body tc).

(** A stand-in for the parsers: a request or a response is its bytes, and
    only the empty input fails to parse.  Ingress is 0 and egress is 1, as
    in the specification. *)
#[local] Instance bytes_externals : conn.Externals :=
  {| conn.IngressTraffic := 0;
     conn.EgressTraffic := 1;
     conn.zeroMsg := [];
     conn.Request := list byte;
     conn.Response := list byte;
     conn.ReadAll_Request := Some;
     conn.ReadAll_Response := Some;
     conn.ParseHTTPRequest := fun b =>
       match b with [] => (None, true) | _ => (Some b, false) end;
     conn.ParseHTTPResponse := fun b _ =>
       match b with [] => (None, true) | _ => (Some b, false) end |}.

Definition get_request : list byte := list_byte_of_string "GET / HTTP/1.1".

Definition ok_response : list byte := list_byte_of_string "HTTP/1.1 200 OK".

Definition next_request : list byte := list_byte_of_string "GET /b HTTP/1.1".


(** * Definitions used by the further properties *)

(** A directory that cannot be opened, and one that lists [names]. *)
#[local] Instance listing (names : list string) : yaml.Directories :=
  {| yaml.ReadDir := fun _ => Ok (Ok names) |}.

(** The shape the factory keeps: every connection has an open channel in
    the store, no two connections share a channel, and the channels are
    bounded. *)
Definition well_formed (factory : conn.Factory) : Prop :=
  (forall id l, conn.connections factory !! id = Some l ->
     exists ch, conn.chans factory !! l = Some ch /\ conn.closed ch = false) /\
  (forall id1 id2 l, conn.connections factory !! id1 = Some l ->
     conn.connections factory !! id2 = Some l -> id1 = id2) /\
  bounded factory.

(** Every channel of the store has its worker. *)
Definition staffed (factory : conn.Factory) : Prop :=
  forall l, is_Some (conn.chans factory !! l) -> is_Some (conn.workers factory !! l).

(** What holds of every state of the program: the factory has its shape,
    and as long as the context is live no worker has returned. *)
Definition invariant (s : bool * conn.Factory) : Prop :=
  well_formed s.2 /\ (s.1 = false -> staffed s.2).

(** The channel [ch'] is what is left of the channel [ch] once its worker
    has received some of its events: nothing was sent to it and it was not
    closed. *)
Definition drained (ch ch' : conn.chan) : Prop :=
  conn.closed ch' = conn.closed ch /\
  conn.capacity ch' = conn.capacity ch /\
  conn.buf ch' `suffix_of` conn.buf ch.

(** No connection of the factory has the channel [l]. *)
Definition unreferenced (l : conn.loc) (factory : conn.Factory) : Prop :=
  forall id, conn.connections factory !! id <> Some l.

(** Whether an iteration of the worker sent a test case. *)
Definition sends {ext : conn.Externals} (it : conn.iteration) : bool :=
  match it with
  | conn.Continue _ (Some _) => true
  | _ => false
  end.

(** The byte with value [z mod 256], and the [n] low bytes of [v], least
    significant first. *)
Definition byte_of_Z (z : Z) : byte :=
  default x00 (Byte.of_N (Z.to_N (z mod 256))).

Fixpoint le_bytes (n : nat) (v : Z) : list byte :=
  match n with
  | O => []
  | S n' => byte_of_Z v :: le_bytes n' (v / 256)
  end.

(** The number whose bytes, least significant first, are [l]. *)
Definition le_value (l : list byte) : Z :=
  fold_right (fun b acc => byte_to_Z b + 256 * acc) 0 l.

(** MySQL's length-encoded integer for [v]: one byte below 251, else the
    prefix [0xfc], [0xfd] or [0xfe] and 2, 3 or 8 bytes. *)
Definition lenenc (v : Z) : list byte :=
  if v <? 251 then [byte_of_Z v]
  else if v <? 2 ^ 16 then xfc :: le_bytes 2 v
  else if v <? 2 ^ 24 then xfd :: le_bytes 3 v
  else xfe :: le_bytes 8 v.

(** What [decodeLengthEncodedInteger] computes, on the visible bytes. *)
Definition lenenc_decode (l : list byte) : Z * bool * Z :=
  match l with
  | [] => (0, true, 0)
  | b0 :: t =>
      if byte_to_Z b0 =? 0xfb then (0, true, 1)
      else if byte_to_Z b0 =? 0xfc then
        match t with
        | b1 :: b2 :: _ => (le_value [b1; b2], false, 3)
        | _ => (0, false, 0)
        end
      else if byte_to_Z b0 =? 0xfd then
        match t with
        | b1 :: b2 :: b3 :: _ => (le_value [b1; b2; b3], false, 4)
        | _ => (0, false, 0)
        end
      else if byte_to_Z b0 =? 0xfe then
        match t with
        | b1 :: b2 :: b3 :: b4 :: b5 :: b6 :: b7 :: b8 :: _ =>
            (int_of_uint64 (le_value [b1; b2; b3; b4; b5; b6; b7; b8]), false, 9)
        | _ => (0, false, 0)
        end
      else (byte_to_Z b0, false, 1)
  end.

(** The fields that follow the header in a handshake response whose
    authentication data has the one-byte length form: the user name and
    its terminator, the length byte and the authentication data, and, when
    their capability flags are set, the database name and the plugin name
    with their terminators. *)
Definition encode_fields (flags : Z) (user auth db plugin : list byte) : list byte :=
  user ++ x00 :: byte_of_Z (Z.of_nat (length auth)) :: auth
  ++ (if mysql.has_flag flags mysql.CLIENT_CONNECT_WITH_DB then db ++ [x00] else [])
  ++ (if mysql.has_flag flags mysql.CLIENT_PLUGIN_AUTH then plugin ++ [x00] else []).

(** A connection attribute: the key and the value, each after its length
    byte; a block of attributes; and the map they make, a later pair
    replacing an earlier one with the same key. *)
Definition encode_attr (kv : string * string) : list byte :=
  byte_of_Z (Z.of_nat (length (list_byte_of_string kv.1)))
  :: list_byte_of_string kv.1
  ++ byte_of_Z (Z.of_nat (length (list_byte_of_string kv.2)))
  :: list_byte_of_string kv.2.

Definition encode_attrs (kvs : list (string * string)) : list byte :=
  concat (map encode_attr kvs).

Definition attrs_map (kvs : list (string * string)) (attrs : gmap string string)
  : gmap string string :=
  fold_left (fun attrs kv => <[kv.1 := kv.2]> attrs) kvs attrs.

(** Keys and values short enough for a one-byte length. *)
Definition short_attr (kv : string * string) : Prop :=
  (length (list_byte_of_string kv.1) < 251)%nat /\
  (length (list_byte_of_string kv.2) < 251)%nat.

(** The zstd level the decoder reports for the bytes [rest] left at the
    end. *)
Definition zstd_level (flags : Z) (rest : list byte) : byte :=
  match rest with
  | b :: _ =>
      if mysql.has_flag flags mysql.CLIENT_ZSTD_COMPRESSION_ALGORITHM then b else x00
  | [] => x00
  end.

(** A multi-byte length prefix with too few bytes after it. *)
Definition truncated_prefix (l : list byte) : Prop :=
  exists b0 t, l = b0 :: t /\
    ((b0 = xfc /\ (length t < 2)%nat) \/
     (b0 = xfd /\ (length t < 3)%nat) \/
     (b0 = xfe /\ (length t < 8)%nat)).

(** The errors [decodeHandshakeResponse] can return. *)
Definition decode_errors : list string :=
  [ "handshake response packet too short";
    "malformed handshake response packet: missing null terminator for Username";
    "handshake response packet too short for auth data";
    "malformed handshake response packet: missing null terminator for AuthPluginName";
    "handshake response packet too short for connection attributes";
    "error decoding total length of connection attributes";
    "malformed handshake response packet: null length encoded integer for connection attribute key";
    "malformed handshake response packet: null length encoded integer for connection attribute value"
  ]%string.

(** A header with [CLIENT_PLUGIN_AUTH_LENENC_CLIENT_DATA] and without
    [CLIENT_CONNECT_ATTRS] (flags [0x002FA68D]), and one with both (flags
    [0x003FA68D]). *)
Definition lenenc_header : list byte := handshake_header [x8d; xa6; x2f; x00].

Definition attrs_header : list byte := handshake_header [x8d; xa6; x3f; x00].

(** [m] returns no error besides those of [L]. *)
Definition errors_within {A} (L : list string) (m : go A) : Prop :=
  forall msg, m = Err msg -> In msg L.

(** The fields after the header when the authentication data has the
    other form: the user name, the length byte [L], one more byte, and then
    the database name and, when its flag is set, the plugin name. *)
Definition legacy_region (flags : Z) (db plugin tail : list byte) : list byte :=
  db ++ x00
  :: (if mysql.has_flag flags mysql.CLIENT_PLUGIN_AUTH then plugin ++ [x00] else [])
  ++ tail.

(** A header without [CLIENT_PLUGIN_AUTH_LENENC_CLIENT_DATA] and
    [CLIENT_CONNECT_ATTRS], with [CLIENT_CONNECT_WITH_DB] and
    [CLIENT_PLUGIN_AUTH] (flags [0x000FA68D]). *)
Definition legacy_header : list byte := handshake_header scenario_caps.

(** [post m s Q]: the method [m], run on the app and the world [s], leaves
    them and ends in a way that [Q] accepts. *)
Definition post {W A : Type} (m : @app.act W A) (s : app.App * W)
    (Q : app.App * W -> go A -> Prop) : Prop :=
  Q (m s).1 (m s).2.

(** What going on after a call [r] gives, for the postcondition [Q] of the
    whole: the rest [k] is run when the call returned. *)
Definition after {W A B : Type} (k : A -> @app.act W B)
    (Q : app.App * W -> go B -> Prop) (s : app.App * W) (r : go A) : Prop :=
  match r with
  | Ok a => post (k a) s Q
  | Err e => Q s (Err e)
  | Panic p => Q s (Panic p)
  | Diverge => Q s Diverge
  end.

(** A container as the daemon describes it in the examples: named
    ["/app"], running as process 42, on the network ["appnet"]. *)
Definition inspected : app.ContainerJSON :=
  {| app.base := Some {| app.Name := "/app"; app.State := Some {| app.Pid := 42 |} |};
     app.networkSettings :=
       Some {| app.Networks :=
                 Some {[ "appnet"%string := Some {| app.IPAddress := "172.18.0.2" |} ]} |} |}.

(** A Docker world for the examples: the world is the container identifier
    the client holds, every call succeeds, every container is [inspected],
    and the compose file has the network [info]. *)
#[local] Instance docker_world (info : option app.NetworkInfo) : app.Client string :=
  {| app.Compose := unit;
     app.New := fun w => (w, Ok tt);
     app.AttachNetwork := fun _ _ w => (w, Ok tt);
     app.ContainerInspect := fun _ w => (w, Ok inspected);
     app.SetContainerID := fun id _ => (id, tt);
     app.GetContainerID := fun w => (w, w);
     app.ReadComposeFile := fun _ w => (w, tt);
     app.HasRelativePath := fun _ w => (w, false);
     app.ForceAbsolutePath := fun _ _ w => (w, Ok tt);
     app.GetNetworkInfo := fun _ w => (w, info);
     app.SetKeployNetwork := fun _ w => (w, Ok tt);
     app.MakeNetworkExternal := fun _ w => (w, Ok tt);
     app.NetworkExists := fun _ w => (w, Ok true);
     app.CreateNetwork := fun _ w => (w, Ok tt);
     app.WriteComposeFile := fun _ _ w => (w, Ok tt);
     app.FindDockerCmd := fun cmd =>
       if String.eqb cmd "docker compose up" then app.DockerCompose
       else if String.eqb cmd "docker run --name app --network appnet app" then app.Docker
       else app.Native;
     app.parseDockerCmd := fun _ => Ok ("app"%string, "appnet"%string);
     app.findComposeFile := fun w => (w, "docker-compose.yaml"%string);
     app.modifyDockerComposeCommand := fun cmd _ => cmd;
     app.getInode := fun pid w => (w, (4026532000 + pid, None)) |}.

(** The events handled one after the other by [handleDockerEvents], as
    the listener started by [getDockerMeta] hands them over; an error is
    passed on and the next event is handled, a panic ends the listener. *)
Fixpoint handled {W : Type} `{app.Client W} (es : list app.Message) (s : app.App * W)
  : app.App * W :=
  match es with
  | [] => s
  | e :: es' =>
      match app.handleDockerEvents e s with
      | (s', Ok _) | (s', Err _) => handled es' s'
      | (s', _) => s'
      end
  end.

(** The fields of the app that [handleDockerEvents] never assigns. *)
Definition same_setup (a a' : app.App) : Prop :=
  app.cmd a' = app.cmd a /\ app.kind a' = app.kind a /\
  app.container a' = app.container a /\
  app.containerNetwork a' = app.containerNetwork a /\
  app.keployNetwork a' = app.keployNetwork a /\
  app.keployContainer a' = app.keployContainer a /\
  app.keployIPv4 a' = app.keployIPv4 a.

(** The app and the world [s'] after a setup of [a] that attached keploy
    to the network of the application: in the world [w0] the keploy
    container was attached to the network of the application container,
    and then inspected, which left the world of [s']; the kind and the
    keploy container are those of [a], the keploy network is the network
    of the application container, and the keploy address is the one the
    inspection reported for that network. *)
Definition injected {W : Type} `{app.Client W} (w0 : W) (a : app.App)
    (s' : app.App * W) : Prop :=
  app.kind s'.1 = app.kind a /\
  app.keployContainer s'.1 = app.keployContainer a /\
  app.keployNetwork s'.1 = app.containerNetwork s'.1 /\
  exists w1 info ns settings,
    app.AttachNetwork (app.keployContainer a) [app.containerNetwork s'.1] w0
    = (w1, Ok tt) /\
    app.ContainerInspect (app.keployContainer a) w1 = (s'.2, Ok info) /\
    app.networkSettings info = Some ns /\
    default ∅ (app.Networks ns) !! app.containerNetwork s'.1 = Some (Some settings) /\
    app.keployIPv4 s'.1 = app.IPAddress settings.

(** A Docker world that keeps the networks the keploy container is
    attached to: attaching adds to them, and an inspection reports them,
    each with the address ["172.18.0.2"].  The compose file has the
    external network ["appnet"]. *)
Definition attaching_world : app.Client (list string) :=
  {| app.Compose := unit;
     app.New := fun w => (w, Ok tt);
     app.AttachNetwork := fun _ networks w => (networks ++ w, Ok tt);
     app.ContainerInspect := fun _ w =>
       (w, Ok {| app.base := Some {| app.Name := "/keploy-v2"; app.State := None |};
                 app.networkSettings :=
                   Some {| app.Networks :=
                             Some (list_to_map
                                     ((fun n => (n, Some {| app.IPAddress := "172.18.0.2" |}))
                                        <$> w)) |} |});
     app.SetContainerID := fun _ w => (w, tt);
     app.GetContainerID := fun w => (w, EmptyString);
     app.ReadComposeFile := fun _ w => (w, tt);
     app.HasRelativePath := fun _ w => (w, false);
     app.ForceAbsolutePath := fun _ _ w => (w, Ok tt);
     app.GetNetworkInfo := fun _ w =>
       (w, Some {| app.External := true; app.NetworkName := "appnet" |});
     app.SetKeployNetwork := fun _ w => (w, Ok tt);
     app.MakeNetworkExternal := fun _ w => (w, Ok tt);
     app.NetworkExists := fun _ w => (w, Ok true);
     app.CreateNetwork := fun _ w => (w, Ok tt);
     app.WriteComposeFile := fun _ _ w => (w, Ok tt);
     app.FindDockerCmd := fun _ => app.DockerCompose;
     app.parseDockerCmd := fun _ => Ok ("app"%string, "appnet"%string);
     app.findComposeFile := fun w => (w, "docker-compose.yaml"%string);
     app.modifyDockerComposeCommand := fun cmd _ => cmd;
     app.getInode := fun pid w => (w, (pid, None)) |}.

(** The apps of the examples: made for a compose file and given their
    container and its network, and the same once the daemon has linked the
    container to the network. *)
Definition compose_app : app.App :=
  app.set_containerNetwork "appnet"
    (app.set_container "app" (@app.NewApp string (docker_world None) "docker compose up")).

Definition linked_app : app.App := app.set_containerIPv4 "172.18.0.2" compose_app.

(** The factory after [open(42)], one [data] event, and the worker of the
    connection receiving it. *)
Definition received42 : conn.Factory :=
  {| conn.connections := {[ 42 := 0%nat ]};
     conn.chans :=
       <[0%nat := conn.Chan [] 1000 false]>
         {[ 0%nat := conn.Chan [data42] 1000 false ]};
     conn.workers :=
       <[0%nat := conn.Locals 0 (conn.Msg data42) []]> {[ 0%nat := conn.initial ]} |}.

(** The factory after [open(42)], one [data] event and a second
    [open(42)]; and then after the first worker has received the event and
    the connection was closed. *)
Definition reopened42 : conn.Factory :=
  {| conn.connections := <[42 := 1%nat]> {[ 42 := 0%nat ]};
     conn.chans :=
       <[1%nat := conn.Chan [] 1000 false]> {[ 0%nat := conn.Chan [data42] 1000 false ]};
     conn.workers := <[1%nat := conn.initial]> {[ 0%nat := conn.initial ]} |}.

Definition orphaned42 : conn.Factory :=
  {| conn.connections := delete 42 (conn.connections reopened42);
     conn.chans :=
       <[1%nat := conn.Chan [] 1000 true]>
         (<[0%nat := conn.Chan [] 1000 false]> (conn.chans reopened42));
     conn.workers :=
       <[0%nat := conn.Locals 0 (conn.Msg data42) []]> (conn.workers reopened42) |}.

(** * Properties *)

(** ** Tactics *)

(** [bounds] proves the side conditions on lengths and capacities; [norm]
    evaluates slicing on a list whose first elements are known. *)
Ltac bounds :=
  unfold len, cap, backing in *; cbn [elems spare app length] in *;
  rewrite ?length_app in *; cbn [length] in *; lia.

Ltac znat :=
  repeat match goal with
         | |- context [Z.to_nat (Zpos ?p)] =>
             let n := eval vm_compute in (Z.to_nat (Zpos p)) in
             change (Z.to_nat (Zpos p)) with n
         | |- context [Z.to_nat 0] => change (Z.to_nat 0) with 0%nat
         end.

Ltac norm :=
  znat; cbn [backing elems spare app firstn skipn mbind go_bind];
  rewrite ?drop_0, ?take_0.

(** ** Bytes, integers and slices *)

Lemma byte_to_Z_range (b : byte) : 0 <= byte_to_Z b < 256.
Proof.
  unfold byte_to_Z. pose proof (Byte.to_N_bounded b) as H. lia.
Qed.

Lemma byte_to_Z_inj (a b : byte) : byte_to_Z a = byte_to_Z b -> a = b.
Proof.
  unfold byte_to_Z. intros H. apply N2Z.inj in H.
  apply (f_equal Byte.of_N) in H. rewrite !Byte.of_to_N in H. congruence.
Qed.

(** Or-ing a value below [2^n] with a value shifted left by [n] adds them. *)
Lemma lor_shiftl_add (a b n : Z) :
  0 <= n -> 0 <= a < 2 ^ n -> Z.lor a (Z.shiftl b n) = a + b * 2 ^ n.
Proof.
  intros Hn Ha.
  rewrite Z.shiftl_mul_pow2 by lia.
  rewrite <- Z.lxor_lor, <- Z.add_nocarry_lxor; try reflexivity.
  all: apply Z.bits_inj'; intros i Hi; rewrite Z.land_spec, Z.bits_0;
    destruct (Z.ltb_spec i n) as [Hlt | Hge].
  all: try (rewrite Z.mul_pow2_bits_low by lia; apply andb_false_r).
  all: destruct (Z.eq_dec a 0) as [-> | Hne];
    [ rewrite Z.bits_0; reflexivity | ].
  all: rewrite (Z.bits_above_log2 a i); [ reflexivity | lia | ].
  all: apply Z.log2_lt_pow2; [ lia | ].
  all: apply Z.lt_le_trans with (2 ^ n); [ lia | apply Z.pow_le_mono_r; lia ].
Qed.

Lemma lor_bytes_be (b0 b1 b2 b3 : byte) :
  Z.lor (Z.lor (Z.lor (byte_to_Z b3) (Z.shiftl (byte_to_Z b2) 8))
               (Z.shiftl (byte_to_Z b1) 16))
        (Z.shiftl (byte_to_Z b0) 24) = uint32_be b0 b1 b2 b3.
Proof.
  pose proof (byte_to_Z_range b0). pose proof (byte_to_Z_range b1).
  pose proof (byte_to_Z_range b2). pose proof (byte_to_Z_range b3).
  unfold uint32_be.
  rewrite (lor_shiftl_add (byte_to_Z b3)) by lia.
  rewrite (lor_shiftl_add _ (byte_to_Z b1)) by lia.
  rewrite (lor_shiftl_add _ (byte_to_Z b0)) by lia.
  lia.
Qed.

(** ** [PostgresV1.MatchType] *)

Lemma BigEndian_Uint32_4 b0 b1 b2 b3 sp :
  BigEndian_Uint32 (Slice [b0; b1; b2; b3] sp) = Ok (uint32_be b0 b1 b2 b3).
Proof.
  rewrite <- lor_bytes_be. reflexivity.
Qed.

Lemma MatchType_long b0 b1 b2 b3 b4 b5 b6 b7 rest sp :
  postgres.MatchType (Slice (b0 :: b1 :: b2 :: b3 :: b4 :: b5 :: b6 :: b7 :: rest) sp)
  = Ok ((uint32_be b4 b5 b6 b7 =? 80877103)
        || (uint32_be b4 b5 b6 b7 =? postgres.ProtocolVersion)).
Proof.
  unfold postgres.MatchType.
  replace (len _ <? 8) with false
    by (symmetry; apply Z.ltb_ge; unfold len; cbn [elems length]; lia).
  unfold slice_range.
  replace (_ && _ && _) with true.
  2:{ symmetry. rewrite !andb_true_iff, !Z.leb_le. unfold cap, backing.
      cbn [elems length app]. lia. }
  change (Z.to_nat 4) with 4%nat. change (Z.to_nat 8) with 8%nat.
  cbn [backing elems spare app firstn skipn mbind go_bind].
  rewrite BigEndian_Uint32_4. cbn [mbind go_bind].
  destruct (_ =? 80877103); reflexivity.
Qed.

Lemma MatchType_short (reqBuf : slice) :
  len reqBuf < 8 -> postgres.MatchType reqBuf = Ok false.
Proof.
  intros H. unfold postgres.MatchType.
  apply Z.ltb_lt in H. rewrite H. reflexivity.
Qed.

(** C1: [PostgresV1.MatchType] never panics, and answers [true] exactly
    when the buffer holds at least 8 bytes and the big-endian 32-bit integer
    at bytes [4..8) is [0x00030000] or [80877103]. *)
Theorem MatchType_postgres_spec (reqBuf : slice) :
  exists b : bool,
    postgres.MatchType reqBuf = Ok b /\
    (b = true <->
     8 <= len reqBuf /\
     (version_field (elems reqBuf) = 0x00030000 \/
      version_field (elems reqBuf) = 80877103)).
Proof.
  destruct reqBuf as [l sp].
  do 8 (destruct l as [| ? l];
        [ exists false; split;
          [ apply MatchType_short; unfold len; cbn; lia
          | split; [ discriminate | unfold len; cbn; lia ] ] | ]).
  eexists. split; [ apply MatchType_long | ].
  unfold version_field, postgres.ProtocolVersion. cbn [elems nth].
  rewrite orb_true_iff, !Z.eqb_eq. unfold len. cbn [elems length]. lia.
Qed.

(** The three classifier scenarios of the specification. *)
Example MatchType_startup :
  postgres.MatchType (of_bytes [x00; x00; x00; x08; x00; x03; x00; x00]) = Ok true.
Proof. reflexivity. Qed.

Example MatchType_ssl_request :
  postgres.MatchType (of_bytes [x00; x00; x00; x08; x04; xd2; x16; x2f]) = Ok true.
Proof. reflexivity. Qed.

Example MatchType_http_get :
  postgres.MatchType (of_bytes (list_byte_of_string "GET / HT")) = Ok false.
Proof. reflexivity. Qed.

(** ** [Generic.MatchType] *)

(** C10: [Generic.MatchType] answers [false] on every buffer. *)
Theorem MatchType_generic_false (buffer : slice) :
  generic.MatchType buffer = Ok false.
Proof. reflexivity. Qed.

(** Hence the classifier's search never picks the generic codec: it is
    selected by the fall-through only. *)
Corollary first_match_not_generic (registry : list proxy.codec) (buffer : slice) :
  proxy.first_match registry buffer <> Some proxy.Generic.
Proof.
  induction registry as [| c registry IH]; cbn; [ discriminate | ].
  destruct c; cbn.
  - destruct (postgres.MatchType buffer) as [[] | | |]; try exact IH. discriminate.
  - exact IH.
Qed.

Corollary classify_generic_is_fallthrough (registry : list proxy.codec) (buffer : slice) :
  proxy.classify registry buffer = proxy.Generic ->
  proxy.first_match registry buffer = None.
Proof.
  unfold proxy.classify. pose proof (first_match_not_generic registry buffer) as H.
  destruct (proxy.first_match registry buffer); cbn; congruence.
Qed.

(** ** Slices *)

Lemma len_nonneg (s : slice) : 0 <= len s.
Proof. unfold len. lia. Qed.

Lemma len_le_cap (s : slice) : len s <= cap s.
Proof. unfold len, cap, backing. rewrite length_app. lia. Qed.

Lemma index_ok (s : slice) (i : Z) :
  0 <= i < len s -> index s i = Ok (nth (Z.to_nat i) (elems s) Byte.x00).
Proof.
  intros H. unfold index.
  replace ((0 <=? i) && (i <? len s)) with true
    by (symmetry; apply andb_true_iff; split; [apply Z.leb_le | apply Z.ltb_lt]; lia).
  unfold len in H.
  rewrite (nth_error_nth' (elems s) Byte.x00) by lia. reflexivity.
Qed.

Lemma index_panic (s : slice) (i : Z) :
  ~ (0 <= i < len s) -> index s i = Panic IndexOutOfRange.
Proof.
  intros H. unfold index.
  destruct (Z.leb_spec 0 i), (Z.ltb_spec i (len s)); cbn; try reflexivity. lia.
Qed.

Lemma slice_range_ok (s : slice) (lo hi : Z) :
  0 <= lo <= hi -> hi <= cap s ->
  slice_range s lo hi =
  Ok (Slice (drop (Z.to_nat lo) (take (Z.to_nat hi) (backing s)))
            (drop (Z.to_nat hi) (backing s))).
Proof.
  intros H1 H2. unfold slice_range.
  replace ((0 <=? lo) && (lo <=? hi) && (hi <=? cap s)) with true; [reflexivity |].
  symmetry. rewrite !andb_true_iff, !Z.leb_le. lia.
Qed.

Lemma slice_range_panic (s : slice) (lo hi : Z) :
  ~ (0 <= lo <= hi /\ hi <= cap s) ->
  slice_range s lo hi = Panic SliceBoundsOutOfRange.
Proof.
  intros H. unfold slice_range.
  destruct (Z.leb_spec 0 lo), (Z.leb_spec lo hi), (Z.leb_spec hi (cap s));
    cbn; try reflexivity. lia.
Qed.

Lemma slice_from_ok (s : slice) (lo : Z) :
  0 <= lo <= len s ->
  slice_from s lo = Ok (Slice (drop (Z.to_nat lo) (elems s)) (spare s)).
Proof.
  intros H. unfold slice_from.
  rewrite slice_range_ok by (pose proof (len_le_cap s); lia).
  unfold len, backing. rewrite Nat2Z.id.
  rewrite take_app_length, drop_app_length. reflexivity.
Qed.

Lemma slice_from_panic (s : slice) (lo : Z) :
  ~ (0 <= lo <= len s) -> slice_from s lo = Panic SliceBoundsOutOfRange.
Proof.
  intros H. apply slice_range_panic. pose proof (len_le_cap s). lia.
Qed.

Lemma slice_to_ok (s : slice) (hi : Z) :
  0 <= hi <= cap s ->
  slice_to s hi = Ok (Slice (take (Z.to_nat hi) (backing s))
                            (drop (Z.to_nat hi) (backing s))).
Proof.
  intros H. unfold slice_to. rewrite slice_range_ok by lia. reflexivity.
Qed.

Lemma slice_to_panic (s : slice) (hi : Z) :
  ~ (0 <= hi <= cap s) -> slice_to s hi = Panic SliceBoundsOutOfRange.
Proof.
  intros H. apply slice_range_panic. lia.
Qed.

(** Within the length, [s[:hi]] holds the first [hi] visible elements. *)
Lemma slice_to_elems (s : slice) (hi : Z) :
  0 <= hi <= len s ->
  exists sp, slice_to s hi = Ok (Slice (take (Z.to_nat hi) (elems s)) sp).
Proof.
  intros H. rewrite slice_to_ok by (pose proof (len_le_cap s); lia).
  eexists. unfold backing. rewrite take_app_le by (unfold len in H; lia).
  reflexivity.
Qed.

(** ** Null-terminated fields *)

Lemma byte_eqb_eq (a b : byte) : Byte.eqb a b = true <-> a = b.
Proof.
  split; [apply Byte.byte_dec_bl | apply Byte.byte_dec_lb].
Qed.

Lemma byte_eqb_neq (a b : byte) : Byte.eqb a b = false <-> a <> b.
Proof.
  rewrite <- byte_eqb_eq. destruct (Byte.eqb a b); split; congruence.
Qed.

Lemma split_nul_app u r :
  ~ In Byte.x00 u -> split_nul (u ++ Byte.x00 :: r) = Some (u, r).
Proof.
  induction u as [| b u IH]; intros Hn; cbn; [reflexivity |].
  replace (Byte.eqb b Byte.x00) with false
    by (symmetry; apply byte_eqb_neq; intros ->; apply Hn; now left).
  rewrite IH; [reflexivity | intros ?; apply Hn; now right].
Qed.

Lemma split_nul_inv l u r :
  split_nul l = Some (u, r) -> l = u ++ Byte.x00 :: r /\ ~ In Byte.x00 u.
Proof.
  revert u. induction l as [| b l IH]; intros u; cbn; [discriminate |].
  destruct (Byte.eqb b Byte.x00) eqn:E.
  - apply byte_eqb_eq in E. subst b. intros [= <- <-].
    split; [reflexivity | intros []].
  - apply byte_eqb_neq in E.
    destruct (split_nul l) as [[u' r'] |]; [| discriminate].
    intros [= <- <-]. destruct (IH u' eq_refl) as [-> Hn].
    split; [reflexivity |]. intros [? | ?]; [congruence | tauto].
Qed.

Lemma split_nul_Some l u r :
  split_nul l = Some (u, r) <-> l = u ++ Byte.x00 :: r /\ ~ In Byte.x00 u.
Proof.
  split; [apply split_nul_inv |]. intros [-> Hn]. now apply split_nul_app.
Qed.

Lemma split_nul_None l : split_nul l = None <-> ~ In Byte.x00 l.
Proof.
  induction l as [| b l IH]; cbn; [tauto |].
  destruct (Byte.eqb b Byte.x00) eqn:E.
  - apply byte_eqb_eq in E. subst. split; [discriminate | intros H; exfalso; auto].
  - apply byte_eqb_neq in E.
    destruct (split_nul l) as [[u r] |].
    + split; [discriminate |]. intros H. exfalso.
      assert (Some (u, r) = @None (list byte * list byte)) by (apply IH; tauto).
      discriminate.
    + split; [| reflexivity]. intros _ [? | ?]; [congruence |].
      now apply (proj1 IH).
Qed.

(** [bytes.IndexByte] finds the split point. *)
Lemma index_byte_split l :
  match split_nul l with
  | Some (u, r) => index_byte l Byte.x00 = Z.of_nat (length u)
  | None => index_byte l Byte.x00 = -1
  end.
Proof.
  induction l as [| b l IH]; cbn; [reflexivity |].
  destruct (Byte.eqb b Byte.x00); [reflexivity |].
  destruct (split_nul l) as [[u r] |].
  - rewrite IH. cbn [length].
    destruct (Z.eqb_spec (Z.of_nat (length u)) (-1)); lia.
  - rewrite IH. reflexivity.
Qed.

(** Reading a null-terminated field off the front of [data]: what
    [idx := bytes.IndexByte(data, 0x00)], [string(data[:idx])] and
    [data = data[idx+1:]] compute when a terminator is found. *)
Lemma read_nul_field (data : slice) u r :
  split_nul (elems data) = Some (u, r) ->
  IndexByte data Byte.x00 = Z.of_nat (length u) /\
  (exists sp, slice_to data (Z.of_nat (length u)) = Ok (Slice u sp)) /\
  slice_from data (Z.of_nat (length u) + 1) = Ok (Slice r (spare data)).
Proof.
  intros S. pose proof (index_byte_split (elems data)) as Hi. rewrite S in Hi.
  apply split_nul_Some in S as [E Hn].
  assert (len data = Z.of_nat (length u) + 1 + Z.of_nat (length r)) as Hl
    by (unfold len; rewrite E, length_app; cbn [length]; lia).
  split; [exact Hi |]. split.
  - destruct (slice_to_elems data (Z.of_nat (length u))) as [sp Hs]; [lia |].
    exists sp. rewrite Hs, Nat2Z.id, E, take_app_length. reflexivity.
  - rewrite slice_from_ok by lia.
    replace (Z.to_nat (Z.of_nat (length u) + 1)) with (length (u ++ [Byte.x00]))
      by (rewrite length_app; cbn; lia).
    rewrite E.
    replace (u ++ Byte.x00 :: r) with ((u ++ [Byte.x00]) ++ r)
      by (rewrite <- app_assoc; reflexivity).
    rewrite drop_app_length. reflexivity.
Qed.

(** ** [decodeHandshakeResponse]: the stages *)

Lemma LittleEndian_Uint32_4 b0 b1 b2 b3 sp :
  LittleEndian_Uint32 (Slice [b0; b1; b2; b3] sp) = Ok (uint32_le b0 b1 b2 b3).
Proof.
  unfold uint32_le. rewrite <- lor_bytes_be. reflexivity.
Qed.

Lemma decodeHeader_ok (hdr rest sp : list byte) :
  length hdr = 32%nat ->
  mysql.decodeHeader (Slice (hdr ++ rest) sp) =
  Ok (flags_of hdr, max_packet_of hdr, nth 8 hdr Byte.x00,
      take 23 (drop 9 hdr), Slice rest sp).
Proof.
  intros H.
  do 32 (destruct hdr as [| ? hdr]; [discriminate H |]).
  destruct hdr; [| discriminate H]. clear H.
  unfold mysql.decodeHeader, flags_of, max_packet_of. cbn [app nth].
  rewrite slice_to_ok by bounds. norm. rewrite LittleEndian_Uint32_4. norm.
  rewrite slice_from_ok by bounds. norm.
  rewrite slice_to_ok by bounds. norm. rewrite LittleEndian_Uint32_4. norm.
  rewrite slice_from_ok by bounds. norm.
  rewrite index_ok by bounds. norm.
  rewrite slice_from_ok by bounds. norm.
  rewrite slice_to_ok by bounds. norm.
  rewrite slice_from_ok by bounds. norm.
  reflexivity.
Qed.

(** Every buffer of at least 32 bytes has a header. *)
Lemma split_header (data : slice) :
  32 <= len data ->
  exists hdr rest, elems data = hdr ++ rest /\ length hdr = 32%nat.
Proof.
  intros H. exists (take 32 (elems data)), (drop 32 (elems data)).
  split; [symmetry; apply take_drop |].
  rewrite length_take. unfold len in H. lia.
Qed.

Lemma decodeUsername_eq (data : slice) :
  mysql.decodeUsername data =
  match split_nul (elems data) with
  | Some (u, r) => Ok (string_of_list_byte u, Slice r (spare data))
  | None =>
      Err "malformed handshake response packet: missing null terminator for Username"
  end.
Proof.
  unfold mysql.decodeUsername.
  pose proof (index_byte_split (elems data)) as Hi.
  destruct (split_nul (elems data)) as [[u r] |] eqn:S.
  - destruct (read_nul_field data u r S) as (Hidx & [sp Hto] & Hfrom).
    rewrite Hidx.
    replace (Z.of_nat (length u) =? -1) with false by (symmetry; apply Z.eqb_neq; lia).
    rewrite Hto. norm. rewrite Hfrom. reflexivity.
  - unfold IndexByte. rewrite Hi. reflexivity.
Qed.

Lemma decodeDatabase_eq (flags : Z) (data : slice) :
  mysql.decodeDatabase flags data =
  if mysql.has_flag flags mysql.CLIENT_CONNECT_WITH_DB then
    match split_nul (elems data) with
    | Some (u, r) => Ok (string_of_list_byte u, Slice r (spare data))
    | None => Ok (EmptyString, data)
    end
  else Ok (EmptyString, data).
Proof.
  unfold mysql.decodeDatabase.
  destruct (mysql.has_flag flags mysql.CLIENT_CONNECT_WITH_DB); [| reflexivity].
  pose proof (index_byte_split (elems data)) as Hi.
  destruct (split_nul (elems data)) as [[u r] |] eqn:S.
  - destruct (read_nul_field data u r S) as (Hidx & [sp Hto] & Hfrom).
    rewrite Hidx.
    replace (Z.of_nat (length u) =? -1) with false by (symmetry; apply Z.eqb_neq; lia).
    cbn [negb]. rewrite Hto. norm. rewrite Hfrom. reflexivity.
  - unfold IndexByte. rewrite Hi. reflexivity.
Qed.

Lemma decodeAuthPluginName_eq (flags : Z) (data : slice) :
  mysql.decodeAuthPluginName flags data =
  if mysql.has_flag flags mysql.CLIENT_PLUGIN_AUTH then
    match split_nul (elems data) with
    | Some (u, r) => Ok (string_of_list_byte u, Slice r (spare data))
    | None =>
        Err "malformed handshake response packet: missing null terminator for AuthPluginName"
    end
  else Ok (EmptyString, data).
Proof.
  unfold mysql.decodeAuthPluginName.
  destruct (mysql.has_flag flags mysql.CLIENT_PLUGIN_AUTH); [| reflexivity].
  pose proof (index_byte_split (elems data)) as Hi.
  destruct (split_nul (elems data)) as [[u r] |] eqn:S.
  - destruct (read_nul_field data u r S) as (Hidx & [sp Hto] & Hfrom).
    rewrite Hidx.
    replace (Z.of_nat (length u) =? -1) with false by (symmetry; apply Z.eqb_neq; lia).
    rewrite Hto. norm. rewrite Hfrom. reflexivity.
  - unfold IndexByte. rewrite Hi. reflexivity.
Qed.

(** The authentication data when [CLIENT_PLUGIN_AUTH_LENENC_CLIENT_DATA]
    is set: one length byte, then that many bytes. *)
Lemma decodeAuthData_lenenc (flags : Z) (data : slice) :
  mysql.has_flag flags mysql.CLIENT_PLUGIN_AUTH_LENENC_CLIENT_DATA = true ->
  mysql.decodeAuthData flags data =
  match elems data with
  | [] => Panic IndexOutOfRange
  | L :: more =>
      if Z.of_nat (length more) <? byte_to_Z L then
        Err "handshake response packet too short for auth data"
      else Ok (take (Z.to_nat (byte_to_Z L)) more,
               Slice (drop (Z.to_nat (byte_to_Z L)) more) (spare data))
  end.
Proof.
  intros Hf. unfold mysql.decodeAuthData. rewrite Hf.
  destruct data as [[| L more] sp]; cbn [elems spare].
  - rewrite index_panic by bounds. reflexivity.
  - rewrite index_ok by bounds. norm. cbn [nth].
    rewrite slice_from_ok by bounds. norm.
    pose proof (byte_to_Z_range L) as HL.
    destruct (Z.ltb_spec 0 (byte_to_Z L)) as [Hpos | Hz].
    + unfold len at 1. cbn [elems].
      destruct (Z.ltb_spec (Z.of_nat (length more)) (byte_to_Z L)); [reflexivity |].
      rewrite slice_to_ok by bounds. norm.
      rewrite slice_from_ok by bounds. norm.
      rewrite take_app_le by lia. reflexivity.
    + assert (byte_to_Z L = 0) as -> by lia.
      replace (Z.of_nat (length more) <? 0) with false by (symmetry; apply Z.ltb_ge; lia).
      cbn. rewrite drop_0. reflexivity.
Qed.

(** The authentication data when the flag is not set: one length byte,
    one byte skipped, then that many bytes of the backing array; [data] is
    left at the start of the authentication data. *)
Lemma decodeAuthData_legacy (flags : Z) (data : slice) :
  mysql.has_flag flags mysql.CLIENT_PLUGIN_AUTH_LENENC_CLIENT_DATA = false ->
  mysql.decodeAuthData flags data =
  match elems data with
  | [] => Panic IndexOutOfRange
  | [L] => Panic SliceBoundsOutOfRange
  | L :: skipped :: more =>
      if byte_to_Z L <=? Z.of_nat (length (more ++ spare data)) then
        Ok (take (Z.to_nat (byte_to_Z L)) (more ++ spare data),
            Slice more (spare data))
      else Panic SliceBoundsOutOfRange
  end.
Proof.
  intros Hf. unfold mysql.decodeAuthData. rewrite Hf.
  destruct data as [[| L [| skipped more]] sp]; cbn [elems spare].
  - rewrite index_panic by bounds. reflexivity.
  - rewrite index_ok by bounds. norm.
    rewrite slice_from_panic by bounds. reflexivity.
  - rewrite index_ok by bounds. norm. cbn [nth].
    rewrite slice_from_ok by bounds. norm.
    pose proof (byte_to_Z_range L) as HL.
    destruct (Z.leb_spec (byte_to_Z L) (Z.of_nat (length (more ++ sp)))).
    + rewrite slice_to_ok by bounds. norm. reflexivity.
    + rewrite slice_to_panic by bounds. reflexivity.
Qed.

(** The zstd level is the first byte left, if any, when its flag is set:
    this stage never fails. *)
Lemma decodeZstd_level (flags : Z) (rest sp : list byte) :
  mysql.decodeZstd flags (Slice rest sp) = Ok (zstd_level flags rest).
Proof.
  unfold mysql.decodeZstd, zstd_level. destruct rest as [| b rest]; [reflexivity |].
  replace (0 <? len _) with true by (symmetry; apply Z.ltb_lt; bounds).
  destruct (mysql.has_flag _ _); [| reflexivity].
  replace (len _ <? 1) with false by (symmetry; apply Z.ltb_ge; bounds).
  rewrite index_ok by bounds. reflexivity.
Qed.

(** ** [decodeHandshakeResponse]: the handshake of the specification *)

Lemma bind_Ok_inv {A B} (m : go A) (f : A -> go B) (b : B) :
  m ≫= f = Ok b -> exists a, m = Ok a /\ f a = Ok b.
Proof.
  destruct m as [a | | |]; cbn; try discriminate. eauto.
Qed.

(** After any prefix, the first [0x00] of [t1 ++ 0x00 :: t2] or an earlier
    one ends the field, and what is left ends with [t2]. *)
Lemma split_nul_suffix (a t1 t2 : list byte) :
  ~ In Byte.x00 t1 ->
  exists u a', split_nul (a ++ t1 ++ Byte.x00 :: t2) = Some (u, a' ++ t2).
Proof.
  intros Hn. induction a as [| b a (u & a' & IH)].
  - exists t1, []. cbn. now apply split_nul_app.
  - cbn. destruct (Byte.eqb b Byte.x00).
    + exists [], (a ++ t1 ++ [Byte.x00]).
      rewrite <- !app_assoc. reflexivity.
    + rewrite IH. eauto.
Qed.

(** C2, as amended: on the handshake of the scenario, with any 20 bytes of
    authentication data, the decoder returns a record whose user name is
    ["root"]; the capability flags [0x000FA68D] do not include
    [CLIENT_CONNECT_ATTRS], so no attribute is decoded. *)
Theorem decodeHandshakeResponse_scenario (auth sp : list byte) :
  length auth = 20%nat ->
  exists p,
    mysql.decodeHandshakeResponse (Slice (handshake scenario_caps auth x0c) sp) = Ok p /\
    mysql.Username p = "root"%string /\
    mysql.CapabilityFlags p = 0x000FA68D /\
    mysql.MaxPacketSize p = 0x01000000 /\
    mysql.CharacterSet p = x21 /\
    mysql.has_flag (mysql.CapabilityFlags p) mysql.CLIENT_CONNECT_ATTRS = false /\
    mysql.ConnectAttributes p = None.
Proof.
  intros Hlen. destruct auth as [| a0 auth]; [discriminate |].
  injection Hlen as Hlen.
  unfold mysql.decodeHandshakeResponse.
  replace (len _ <? 32) with false.
  2:{ symmetry. apply Z.ltb_ge. unfold len, handshake. cbn [elems].
      rewrite length_app. cbn. lia. }
  unfold handshake. rewrite decodeHeader_ok by reflexivity.
  replace (flags_of (handshake_header scenario_caps)) with 0x000FA68D by reflexivity.
  cbn [mbind go_bind].
  rewrite decodeUsername_eq. cbn [elems spare handshake_body app list_byte_of_string].
  cbn -[Z.land]. 
  rewrite decodeAuthData_legacy by reflexivity. cbn [elems spare].
  replace (byte_to_Z x14) with 20 by reflexivity.
  replace (20 <=? _) with true.
  2:{ symmetry. apply Z.leb_le. rewrite !length_app. cbn [length]. lia. }
  cbn [mbind go_bind].
  rewrite decodeDatabase_eq.
  replace (mysql.has_flag _ mysql.CLIENT_CONNECT_WITH_DB) with true by reflexivity.
  cbn [elems spare].
  destruct (split_nul_suffix auth (list_byte_of_string "test")
              (list_byte_of_string "mysql_native_password" ++ x00 :: attribute_block x0c))
    as (db & a1 & Hdb).
  { cbn. intuition discriminate. }
  cbn in Hdb. rewrite Hdb. cbn [mbind go_bind].
  rewrite decodeAuthPluginName_eq.
  replace (mysql.has_flag _ mysql.CLIENT_PLUGIN_AUTH) with true by reflexivity.
  cbn [elems spare].
  destruct (split_nul_suffix a1 (list_byte_of_string "mysql_native_password")
              (attribute_block x0c)) as (pl & a2 & Hpl).
  { cbn. intuition discriminate. }
  cbn in Hpl. rewrite Hpl. cbn [mbind go_bind].
  unfold mysql.decodeConnectAttrs.
  replace (mysql.has_flag _ mysql.CLIENT_CONNECT_ATTRS) with false by reflexivity.
  cbn [mbind go_bind]. unfold mysql.decodeZstd.
  replace (0 <? len _) with true.
  2:{ symmetry. apply Z.ltb_lt. unfold len. cbn [elems].
      rewrite length_app. cbn [attribute_block app length]. lia. }
  replace (mysql.has_flag _ mysql.CLIENT_ZSTD_COMPRESSION_ALGORITHM) with true by reflexivity.
  replace (len _ <? 1) with false.
  2:{ symmetry. apply Z.ltb_ge. unfold len. cbn [elems].
      rewrite length_app. cbn [attribute_block app length]. lia. }
  rewrite index_ok.
  2:{ unfold len. cbn [elems]. rewrite length_app. cbn [attribute_block app length]. lia. }
  cbn [mbind go_bind]. eexists. split; [reflexivity |].
  cbn. repeat split; reflexivity.
Qed.

Lemma decodeHandshakeResponse_scenario_witness :
  length scramble = 20%nat /\
  exists p,
    mysql.decodeHandshakeResponse (Slice (handshake scenario_caps scramble x0c) []) = Ok p /\
    mysql.Username p = "root"%string /\
    mysql.CapabilityFlags p = 0x000FA68D /\
    mysql.MaxPacketSize p = 0x01000000 /\
    mysql.CharacterSet p = x21 /\
    mysql.has_flag (mysql.CapabilityFlags p) mysql.CLIENT_CONNECT_ATTRS = false /\
    mysql.ConnectAttributes p = None.
Proof.
  split; [reflexivity |].
  apply (decodeHandshakeResponse_scenario scramble []). reflexivity.
Defined.

(** What the decoder returns on the scenario with the authentication bytes
    [01 .. 14]: the authentication data starts one byte late and runs into
    the database name, the database name starts inside the authentication
    data, and there are no attributes. *)
Lemma decodeHandshakeResponse_scenario_value :
  mysql.decodeHandshakeResponse (of_bytes (handshake scenario_caps scramble x0c)) =
  Ok {| mysql.CapabilityFlags := 0x000FA68D;
        mysql.MaxPacketSize := 0x01000000;
        mysql.CharacterSet := x21;
        mysql.Reserved := repeat x00 23;
        mysql.Username := "root";
        mysql.AuthData := tail scramble ++ [x74];
        mysql.Database := string_of_list_byte (tail scramble ++ list_byte_of_string "test");
        mysql.AuthPluginName := "mysql_native_password";
        mysql.ConnectAttributes := None;
        mysql.ZstdCompressionLevel := x0c |}.
Proof. vm_compute. reflexivity. Qed.

(** C2 fails as stated: on the scenario with authentication bytes
    [01 .. 14] the decoder does not return the record of the
    specification. *)
Lemma decodeHandshakeResponse_scenario_counterexample :
  ~ exists p,
      mysql.decodeHandshakeResponse (of_bytes (handshake scenario_caps scramble x0c)) = Ok p /\
      mysql.Username p = "root"%string /\
      mysql.Database p = "test"%string /\
      mysql.AuthPluginName p = "mysql_native_password"%string /\
      mysql.ConnectAttributes p = Some {[ "foo"%string := "bar"%string ]}.
Proof.
  intros (p & H & _ & Hdb & _ & Hattrs).
  rewrite decodeHandshakeResponse_scenario_value in H.
  injection H as <-. cbn in Hattrs. discriminate Hattrs.
Qed.

(** With [CLIENT_PLUGIN_AUTH_LENENC_CLIENT_DATA] and [CLIENT_CONNECT_ATTRS]
    added to the capability bytes ([8D A6 3F 00]) and the attribute block
    length equal to the 8 bytes that follow it, the decoder returns the
    record of the specification. *)
Lemma decodeHandshakeResponse_scenario_lenenc :
  mysql.decodeHandshakeResponse
    (of_bytes (handshake [x8d; xa6; x3f; x00] scramble x08)) =
  Ok {| mysql.CapabilityFlags := 0x003FA68D;
        mysql.MaxPacketSize := 0x01000000;
        mysql.CharacterSet := x21;
        mysql.Reserved := repeat x00 23;
        mysql.Username := "root";
        mysql.AuthData := scramble;
        mysql.Database := "test";
        mysql.AuthPluginName := "mysql_native_password";
        mysql.ConnectAttributes := Some {[ "foo"%string := "bar"%string ]};
        mysql.ZstdCompressionLevel := x00 |}.
Proof. vm_compute. reflexivity. Qed.

(** With the attribute block length [0x0C] of the scenario the block is
    longer than the bytes that follow, and the decoder panics. *)
Lemma decodeHandshakeResponse_scenario_attrlen :
  mysql.decodeHandshakeResponse
    (of_bytes (handshake [x8d; xa6; x3f; x00] scramble x0c)) =
  Panic SliceBoundsOutOfRange.
Proof. vm_compute. reflexivity. Qed.

(** ** [decodeHandshakeResponse]: short buffers *)

(** C4 fails on the code: 33 zero bytes (no capability flag, an empty user
    name and nothing after it) make the decoder index an empty slice, with
    any capacity. *)
Theorem decodeHandshakeResponse_panics (sp : list byte) :
  mysql.decodeHandshakeResponse (Slice (repeat x00 33) sp) = Panic IndexOutOfRange.
Proof.
  unfold mysql.decodeHandshakeResponse.
  replace (len _ <? 32) with false by reflexivity.
  change (repeat x00 33) with (repeat x00 32 ++ [x00]).
  rewrite decodeHeader_ok by reflexivity. cbn [mbind go_bind].
  rewrite decodeUsername_eq. cbn [elems spare].
  change (split_nul [x00]) with (Some (@nil byte, @nil byte)).
  cbn [mbind go_bind].
  rewrite decodeAuthData_legacy by reflexivity. reflexivity.
Qed.

(** The two branches on the same truncated authentication data (length
    byte 20, five bytes present): an error where the flag is set, a panic
    where it is not. *)
Lemma decodeAuthData_truncated_lenenc :
  mysql.decodeHandshakeResponse
    (of_bytes (zero_header [x00; x00; x20; x00] ++ [x00; x14; x01; x02; x03; x04; x05])) =
  Err "handshake response packet too short for auth data".
Proof. vm_compute. reflexivity. Qed.

Lemma decodeAuthData_truncated_legacy :
  mysql.decodeHandshakeResponse
    (of_bytes (zero_header [x00; x00; x00; x00] ++ [x00; x14; x00; x01; x02; x03; x04; x05])) =
  Panic SliceBoundsOutOfRange.
Proof. vm_compute. reflexivity. Qed.

(** An attribute block holding the lone prefix [0xfc]: every iteration of
    the attribute loop consumes nothing, and the decoder does not return. *)
Lemma decodeHandshakeResponse_diverges :
  mysql.decodeHandshakeResponse
    (of_bytes (zero_header [x00; x00; x30; x00] ++ [x00; x00; x01; xfc; x00; x00])) =
  Diverge.
Proof. vm_compute. reflexivity. Qed.

(** ** The attribute loop *)

Lemma slice_from_inv (s s' : slice) (lo : Z) :
  slice_from s lo = Ok s' ->
  0 <= lo <= len s /\ s' = Slice (drop (Z.to_nat lo) (elems s)) (spare s).
Proof.
  intros H. destruct (Z_le_dec 0 lo), (Z_le_dec lo (len s)).
  1: rewrite slice_from_ok in H by lia; injection H as <-; split; [lia | reflexivity].
  all: rewrite slice_from_panic in H by lia; discriminate.
Qed.

Lemma slice_to_inv (s s' : slice) (hi : Z) :
  slice_to s hi = Ok s' ->
  0 <= hi <= cap s /\
  s' = Slice (take (Z.to_nat hi) (backing s)) (drop (Z.to_nat hi) (backing s)).
Proof.
  intros H. destruct (Z_le_dec 0 hi), (Z_le_dec hi (cap s)).
  1: rewrite slice_to_ok in H by lia; injection H as <-; split; [lia | reflexivity].
  all: rewrite slice_to_panic in H by lia; discriminate.
Qed.

(** A pair read off [a] leaves a suffix of [a]; when nothing is consumed
    the key and the value are empty. *)
Lemma attrPair_inv (a rest : slice) (key value : string) :
  mysql.attrPair a = Ok (rest, key, value) ->
  exists k : nat,
    (k <= length (elems a))%nat /\
    rest = Slice (drop k (elems a)) (spare a) /\
    (k = 0%nat -> key = EmptyString /\ value = EmptyString).
Proof.
  unfold mysql.attrPair. intros H.
  apply bind_Ok_inv in H as ([[kl isn] n] & _ & H). destruct isn; [discriminate |].
  apply bind_Ok_inv in H as (a1 & H1 & H). apply slice_from_inv in H1 as [B1 ->].
  apply bind_Ok_inv in H as (k1 & H2 & H). apply slice_to_inv in H2 as [B2 ->].
  apply bind_Ok_inv in H as (a2 & H3 & H). apply slice_from_inv in H3 as [B3 ->].
  apply bind_Ok_inv in H as ([[vl isn] n2] & _ & H). destruct isn; [discriminate |].
  apply bind_Ok_inv in H as (a3 & H4 & H). apply slice_from_inv in H4 as [B4 ->].
  apply bind_Ok_inv in H as (v1 & H5 & H). apply slice_to_inv in H5 as [B5 ->].
  apply bind_Ok_inv in H as (a4 & H6 & H). apply slice_from_inv in H6 as [B6 ->].
  injection H as <- <- <-.
  unfold len in *. cbn [elems spare] in *. rewrite ?length_drop in *.
  exists (Z.to_nat n + (Z.to_nat kl + (Z.to_nat n2 + Z.to_nat vl)))%nat.
  split; [lia |]. split.
  - rewrite !drop_drop. reflexivity.
  - intros Hk.
    assert (kl = 0) as -> by lia. assert (vl = 0) as -> by lia.
    split; reflexivity.
Qed.

(** An iteration that does not shorten [attributesData] leaves the loop
    where it was: every later iteration starts from the same slice, with
    the same map, and the guard [len(attributesData) > 0] still holds. *)
Lemma attrBody_stuck_forever (a rest : slice) (m m' : gmap string string) :
  mysql.attrBody (a, m) = Ok (rest, m') ->
  len rest = len a ->
  forall n, attrIter (S n) (a, m) = Ok (a, m').
Proof.
  unfold mysql.attrBody. cbn [fst snd]. intros H Hlen.
  apply bind_Ok_inv in H as ([[r key] value] & Hp & H). injection H as <- <-.
  destruct (attrPair_inv _ _ _ _ Hp) as (k & Hk & -> & Hempty).
  unfold len in Hlen. cbn [elems] in Hlen. rewrite length_drop in Hlen.
  assert (k = 0%nat) as -> by lia.
  destruct (Hempty eq_refl) as [-> ->].
  assert (Slice (drop 0 (elems a)) (spare a) = a) as Ea
    by (destruct a; reflexivity).
  rewrite Ea in *. clear Ea.
  assert (mysql.attrBody (a, <[EmptyString := EmptyString]> m)
          = Ok (a, <[EmptyString := EmptyString]> m)) as Hfix.
  { unfold mysql.attrBody. cbn [fst snd]. rewrite Hp. cbn [mbind go_bind].
    rewrite insert_insert_eq. reflexivity. }
  assert (forall n, attrIter n (a, <[EmptyString := EmptyString]> m)
                    = Ok (a, <[EmptyString := EmptyString]> m)) as Hit.
  { induction n as [| n IH]; [reflexivity |].
    cbn [attrIter]. rewrite Hfix. exact IH. }
  intros n. cbn [attrIter]. unfold mysql.attrBody at 1. cbn [fst snd].
  rewrite Hp. cbn [mbind go_bind]. apply Hit.
Qed.

(** The length of [attributesData] is enough fuel: more changes nothing. *)
Lemma attrLoop_fuel_irrelevant (fuel1 fuel2 : nat) (a : slice) (m : gmap string string) :
  (length (elems a) <= fuel1)%nat -> (length (elems a) <= fuel2)%nat ->
  mysql.attrLoop fuel1 a m = mysql.attrLoop fuel2 a m.
Proof.
  revert fuel2 a m. induction fuel1 as [| fuel1 IH]; intros fuel2 a m H1 H2.
  - assert (len a = 0) as E by (unfold len; lia).
    destruct fuel2; cbn [mysql.attrLoop]; rewrite E; reflexivity.
  - destruct fuel2 as [| fuel2].
    + assert (len a = 0) as E by (unfold len; lia).
      cbn [mysql.attrLoop]. rewrite E. reflexivity.
    + cbn [mysql.attrLoop]. destruct (0 <? len a); [| reflexivity].
      unfold mysql.attrBody. cbn [fst snd].
      destruct (mysql.attrPair a) as [[[rest key] value] | | |] eqn:Hp;
        cbn [mbind go_bind]; try reflexivity.
      destruct (Z.eqb_spec (len rest) (len a)) as [| Hne]; [reflexivity |].
      destruct (attrPair_inv _ _ _ _ Hp) as (k & Hk & -> & _).
      unfold len in Hne. cbn [elems] in Hne. rewrite length_drop in Hne.
      apply IH; cbn [elems]; rewrite length_drop; lia.
Qed.

Lemma attrLoop_fuel (fuel : nat) (a : slice) (m : gmap string string) :
  (length (elems a) <= fuel)%nat ->
  mysql.attrLoop fuel a m = mysql.attrLoop (length (elems a)) a m.
Proof.
  intros H. apply attrLoop_fuel_irrelevant; lia.
Qed.

(** ** [decodeHandshakeResponse]: missing terminators *)

Lemma unterminated_is_error (data : slice) (field : string) :
  32 <= len data ->
  unterminated data field ->
  mysql.decodeHandshakeResponse data =
  Err ("malformed handshake response packet: missing null terminator for " +:+ field).
Proof.
  intros Hlen Hu. unfold mysql.decodeHandshakeResponse.
  replace (len data <? 32) with false by (symmetry; apply Z.ltb_ge; lia).
  destruct Hu as [flags mp cs rv rest Hh Hn | flags rest Hb Hf Hn].
  - rewrite Hh. cbn [mbind go_bind]. rewrite decodeUsername_eq.
    rewrite (proj2 (split_nul_None _) Hn). reflexivity.
  - unfold mysql.before_plugin_name, mysql.before_database in Hb.
    apply bind_Ok_inv in Hb as ([f d3] & Hb & Hd).
    apply bind_Ok_inv in Hb as ([[[[f0 mp] cs] rv] d1] & Hh & Hb).
    apply bind_Ok_inv in Hb as ([u d2] & Hu & Hb).
    apply bind_Ok_inv in Hb as ([a d3'] & Ha & Hb).
    injection Hb as <- <-.
    apply bind_Ok_inv in Hd as ([db d4] & Hd & Hr). injection Hr as <- <-.
    rewrite Hh. cbn [mbind go_bind]. rewrite Hu. cbn [mbind go_bind].
    rewrite Ha. cbn [mbind go_bind]. rewrite Hd. cbn [mbind go_bind].
    rewrite decodeAuthPluginName_eq, Hf.
    rewrite (proj2 (split_nul_None _) Hn). reflexivity.
Qed.

(** A database name without terminator is passed over: the field stays
    empty and no byte is consumed. *)
Lemma decodeDatabase_unterminated (flags : Z) (data : slice) :
  ~ In x00 (elems data) ->
  mysql.decodeDatabase flags data = Ok (EmptyString, data).
Proof.
  intros Hn. rewrite decodeDatabase_eq, (proj2 (split_nul_None _) Hn).
  destruct (mysql.has_flag _ _); reflexivity.
Qed.

(** The decoder up to the database name, run inside the decoder. *)
Lemma before_database_inv (data : slice) (flags : Z) (rest : slice) :
  32 <= len data ->
  mysql.before_database data = Ok (flags, rest) ->
  exists maxPacket charset reserved username authData,
    mysql.decodeHandshakeResponse data =
    '(database, data) ← mysql.decodeDatabase flags rest;
    '(pluginName, data) ← mysql.decodeAuthPluginName flags data;
    '(attrs, data) ← mysql.decodeConnectAttrs flags data;
    level ← mysql.decodeZstd flags data;
    Ok {| mysql.CapabilityFlags := flags;
          mysql.MaxPacketSize := maxPacket;
          mysql.CharacterSet := charset;
          mysql.Reserved := reserved;
          mysql.Username := username;
          mysql.AuthData := authData;
          mysql.Database := database;
          mysql.AuthPluginName := pluginName;
          mysql.ConnectAttributes := attrs;
          mysql.ZstdCompressionLevel := level |}.
Proof.
  intros Hlen Hb. unfold mysql.before_database in Hb.
  apply bind_Ok_inv in Hb as ([[[[f0 mp] cs] rv] d1] & Hh & Hb).
  apply bind_Ok_inv in Hb as ([u d2] & Hu & Hb).
  apply bind_Ok_inv in Hb as ([a d3] & Ha & Hb).
  injection Hb as <- <-.
  exists mp, cs, rv, u, a. unfold mysql.decodeHandshakeResponse.
  replace (len data <? 32) with false by (symmetry; apply Z.ltb_ge; lia).
  rewrite Hh. cbn [mbind go_bind]. rewrite Hu. cbn [mbind go_bind].
  rewrite Ha. reflexivity.
Qed.

(** C5 fails on the code for the database name.  A buffer whose user
    name, or whose plugin name when [CLIENT_PLUGIN_AUTH] is set, lacks its
    terminator is rejected with the error that names the field.  A buffer
    in which the decoder reaches the database name with
    [CLIENT_CONNECT_WITH_DB] set and no [0x00] left is not rejected for it:
    the name is passed over, and without [CLIENT_PLUGIN_AUTH] and
    [CLIENT_CONNECT_ATTRS] the buffer is accepted with an empty [Database];
    with [CLIENT_PLUGIN_AUTH] the error names the plugin name. *)
Theorem decodeHandshakeResponse_unterminated (data : slice) :
  32 <= len data ->
  (forall field,
     unterminated data field ->
     mysql.decodeHandshakeResponse data =
     Err ("malformed handshake response packet: missing null terminator for " +:+ field)) /\
  (forall flags rest,
     mysql.before_database data = Ok (flags, rest) ->
     mysql.has_flag flags mysql.CLIENT_CONNECT_WITH_DB = true ->
     ~ In x00 (elems rest) ->
     (mysql.has_flag flags mysql.CLIENT_PLUGIN_AUTH = true ->
      mysql.decodeHandshakeResponse data =
      Err "malformed handshake response packet: missing null terminator for AuthPluginName") /\
     (mysql.has_flag flags mysql.CLIENT_PLUGIN_AUTH = false ->
      mysql.has_flag flags mysql.CLIENT_CONNECT_ATTRS = false ->
      exists p,
        mysql.decodeHandshakeResponse data = Ok p /\
        mysql.CapabilityFlags p = flags /\
        mysql.Database p = EmptyString /\
        mysql.AuthPluginName p = EmptyString /\
        mysql.ConnectAttributes p = None /\
        mysql.ZstdCompressionLevel p = zstd_level flags (elems rest))).
Proof.
  intros Hlen. split.
  - intros field Hu. now apply unterminated_is_error.
  - intros flags rest Hb Hdb Hn.
    destruct (before_database_inv _ _ _ Hlen Hb) as (mp & cs & rv & u & a & ->).
    rewrite decodeDatabase_unterminated by exact Hn. cbn [mbind go_bind].
    rewrite decodeAuthPluginName_eq. split.
    + intros ->. rewrite (proj2 (split_nul_None _) Hn). reflexivity.
    + intros -> Hattrs. cbn [mbind go_bind].
      unfold mysql.decodeConnectAttrs. rewrite Hattrs. cbn [mbind go_bind].
      destruct rest as [l sp]. rewrite decodeZstd_level. cbn [mbind go_bind elems].
      eexists. split; [reflexivity |]. repeat split.
Qed.

Lemma decodeHandshakeResponse_unterminated_witness :
  (32 <= len unterminated_user /\
   unterminated unterminated_user "Username" /\
   mysql.decodeHandshakeResponse unterminated_user =
   Err "malformed handshake response packet: missing null terminator for Username") /\
  (32 <= len unterminated_plugin /\
   unterminated unterminated_plugin "AuthPluginName" /\
   mysql.decodeHandshakeResponse unterminated_plugin =
   Err "malformed handshake response packet: missing null terminator for AuthPluginName") /\
  (32 <= len unterminated_db /\
   mysql.before_database unterminated_db
   = Ok (0x200008, of_bytes (list_byte_of_string "test")) /\
   mysql.has_flag 0x200008 mysql.CLIENT_CONNECT_WITH_DB = true /\
   ~ In x00 (list_byte_of_string "test") /\
   exists p,
     mysql.decodeHandshakeResponse unterminated_db = Ok p /\
     mysql.CapabilityFlags p = 0x200008 /\
     mysql.Database p = EmptyString /\
     mysql.AuthPluginName p = EmptyString /\
     mysql.ConnectAttributes p = None /\
     mysql.ZstdCompressionLevel p = zstd_level 0x200008 (list_byte_of_string "test")).
Proof.
  assert (unterminated unterminated_user "Username") as Hu.
  { eapply unterminated_Username; [vm_compute; reflexivity |].
    cbn. intuition discriminate. }
  assert (unterminated unterminated_plugin "AuthPluginName") as Hp.
  { eapply unterminated_AuthPluginName;
      [vm_compute; reflexivity | reflexivity |].
    cbn. intuition discriminate. }
  assert (32 <= len unterminated_user) as Lu by (vm_compute; discriminate).
  assert (32 <= len unterminated_plugin) as Lp by (vm_compute; discriminate).
  assert (32 <= len unterminated_db) as Ld by (vm_compute; discriminate).
  split; [| split].
  - split; [exact Lu |]. split; [exact Hu |].
    apply (proj1 (decodeHandshakeResponse_unterminated unterminated_user Lu)
             "Username"%string Hu).
  - split; [exact Lp |]. split; [exact Hp |].
    apply (proj1 (decodeHandshakeResponse_unterminated unterminated_plugin Lp)
             "AuthPluginName"%string Hp).
  - split; [exact Ld |].
    assert (~ In x00 (list_byte_of_string "test")) as Hn
      by (cbn; intuition discriminate).
    assert (mysql.before_database unterminated_db
            = Ok (0x200008, of_bytes (list_byte_of_string "test"))) as Hb
      by (vm_compute; reflexivity).
    split; [exact Hb |]. split; [reflexivity |]. split; [exact Hn |].
    apply (proj2 (decodeHandshakeResponse_unterminated unterminated_db Ld)
             0x200008 (of_bytes (list_byte_of_string "test")) Hb eq_refl Hn);
      reflexivity.
Defined.

(** What the decoder returns when the database name has no terminator: the
    field stays empty, its bytes are left in the buffer, and the call
    succeeds. *)
Lemma decodeHandshakeResponse_unterminated_db_value :
  mysql.decodeHandshakeResponse unterminated_db =
  Ok {| mysql.CapabilityFlags := 0x200008;
        mysql.MaxPacketSize := 0;
        mysql.CharacterSet := x00;
        mysql.Reserved := repeat x00 23;
        mysql.Username := "root";
        mysql.AuthData := [];
        mysql.Database := "";
        mysql.AuthPluginName := "";
        mysql.ConnectAttributes := None;
        mysql.ZstdCompressionLevel := x00 |}.
Proof. vm_compute. reflexivity. Qed.

(** The buffer [unterminated_db] has [CLIENT_CONNECT_WITH_DB] set and no
    terminator after the database name, and the decoder does not return an
    error. *)
Lemma decodeHandshakeResponse_unterminated_counterexample :
  unterminated_Database unterminated_db /\
  ~ fails (mysql.decodeHandshakeResponse unterminated_db).
Proof.
  split.
  - eexists _, _. split; [vm_compute; reflexivity |].
    split; [reflexivity |]. cbn. intuition discriminate.
  - rewrite decodeHandshakeResponse_unterminated_db_value.
    intros [msg H]. discriminate H.
Qed.

(** ** [decodeHandshakeResponse]: the authentication data *)

(** Every packet the decoder accepts has the layout [AuthData_layout]: the
    user name is followed by a length byte [L]; without
    [CLIENT_PLUGIN_AUTH_LENENC_CLIENT_DATA] one more byte is skipped and
    [AuthData] is the [L] bytes that follow it; with the flag, [AuthData] is
    the [L] bytes right after the length byte. *)
Lemma accepted_AuthData_layout (data : slice) (p : mysql.MySQLHandshakeResponse) :
  mysql.decodeHandshakeResponse data = Ok p -> AuthData_layout data p.
Proof.
  unfold mysql.decodeHandshakeResponse, AuthData_layout. intros H.
  destruct (Z.ltb_spec (len data) 32) as [| Hlen]; [discriminate |].
  destruct (split_header data Hlen) as (hdr & rest & E & Hh).
  destruct data as [l sp]. cbn [elems spare] in *. subst l.
  rewrite decodeHeader_ok in H by exact Hh. cbn [mbind go_bind] in H.
  rewrite decodeUsername_eq in H. cbn [elems spare] in H.
  destruct (split_nul rest) as [[user r] |] eqn:S; [| discriminate].
  apply split_nul_inv in S as [-> Hn]. cbn [mbind go_bind] in H.
  apply bind_Ok_inv in H as ([a d3] & Ha & H).
  apply bind_Ok_inv in H as ([db d4] & _ & H).
  apply bind_Ok_inv in H as ([pl d5] & _ & H).
  apply bind_Ok_inv in H as ([attrs d6] & _ & H).
  apply bind_Ok_inv in H as (lv & _ & H).
  injection H as <-. cbn [mysql.CapabilityFlags mysql.Username mysql.AuthData].
  destruct (mysql.has_flag (flags_of hdr) mysql.CLIENT_PLUGIN_AUTH_LENENC_CLIENT_DATA) eqn:F.
  - rewrite decodeAuthData_lenenc in Ha by exact F. cbn [elems spare] in Ha.
    destruct r as [| L more]; [discriminate |].
    destruct (Z.ltb_spec (Z.of_nat (length more)) (byte_to_Z L)); [discriminate |].
    injection Ha as <- _.
    exists hdr, user, L, more. rewrite F. repeat split; auto.
  - rewrite decodeAuthData_legacy in Ha by exact F. cbn [elems spare] in Ha.
    destruct r as [| L [| skipped more']]; try discriminate.
    destruct (Z.leb_spec (byte_to_Z L) (Z.of_nat (length (more' ++ sp)))); [| discriminate].
    injection Ha as <- _.
    exists hdr, user, L, (skipped :: more'). rewrite F. repeat split; eauto.
Qed.

Lemma decodeHandshakeResponse_AuthData_lenenc_value :
  exists p, mysql.decodeHandshakeResponse auth_lenenc = Ok p /\
            mysql.AuthData p = [xaa; xbb].
Proof.
  eexists. split; [vm_compute; reflexivity | reflexivity].
Qed.

(** ** [WriteFile] and [ReadFile] *)

Section yaml_facts.

Context {paths : yaml.Paths}.
Variables path fileName : string.

Local Abbreviation yamlPath := (yaml.Join path (fileName +:+ ".yaml")).

(** The path of the session file is a valid one. *)
Hypothesis valid : yaml.ValidatePath yamlPath = Ok yamlPath.

(** A [WriteFile] replaces the content of the file: the document alone
    when the file is new, the separator and the document otherwise. *)
Lemma WriteFile_content (fs : yaml.files) (docData : list byte) :
  yaml.WriteFile false fs path fileName docData =
  (<[yamlPath := (match fs !! yamlPath with
                  | Some _ => yaml.separator
                  | None => []
                  end) ++ docData]> fs, Ok tt).
Proof.
  unfold yaml.WriteFile, yaml.CreateYamlFile. rewrite valid.
  assert (forall (fs0 : yaml.files) data,
            (let '(content, w) :=
               yaml.ctxWriter_Write false
                 (default [] (yaml.OpenFile_trunc fs0 yamlPath !! yamlPath)) data in
             let fs1 := <[yamlPath := content]> (yaml.OpenFile_trunc fs0 yamlPath) in
             match w with
             | Ok _ => (fs1, Ok tt)
             | _ => (fs1, Ok tt)
             end) = (<[yamlPath := data]> fs0, Ok tt)) as Hw.
  { intros fs0 data. unfold yaml.OpenFile_trunc, yaml.ctxWriter_Write.
    rewrite lookup_insert_eq. cbn [default].
    destruct (Z.ltb_spec 0 (Z.of_nat (length data))) as [Hpos | Hz].
    - rewrite insert_insert_eq. reflexivity.
    - destruct data; [| cbn [length] in Hz; lia].
      rewrite insert_insert_eq. reflexivity. }
  destruct (fs !! yamlPath) as [c |] eqn:E.
  - apply Hw.
  - rewrite Hw. rewrite insert_insert_eq. reflexivity.
Qed.

(** Once the file exists, any number of further writes leaves the
    separator and the last document. *)
Lemma WriteFiles_existing (docs : list (list byte)) (fs : yaml.files) (d : list byte) :
  is_Some (fs !! yamlPath) ->
  yaml.WriteFiles fs path fileName (docs ++ [d]) !! yamlPath =
  Some (yaml.separator ++ d).
Proof.
  revert fs. induction docs as [| d0 docs IH]; intros fs [c Hc].
  - cbn. rewrite WriteFile_content, Hc. cbn [fst]. apply lookup_insert_eq.
  - cbn [app yaml.WriteFiles]. rewrite WriteFile_content. cbn [fst].
    apply IH. rewrite lookup_insert_eq. eauto.
Qed.

(** Reading back after two or more writes to a new file returns the
    separator and the last document, whatever was written before. *)
Lemma WriteFiles_ReadFile (d1 : list byte) (docs : list (list byte)) (d : list byte)
    (fs : yaml.files) :
  fs !! yamlPath = None ->
  yaml.ReadFile false (yaml.WriteFiles fs path fileName (d1 :: docs ++ [d])) path fileName
  = Ok (yaml.separator ++ d).
Proof.
  intros Hnew. unfold yaml.ReadFile. cbn [yaml.WriteFiles].
  rewrite WriteFile_content. cbn [fst].
  rewrite WriteFiles_existing by (rewrite lookup_insert_eq; eauto).
  reflexivity.
Qed.

End yaml_facts.

(** C3 fails on the code: two documents written to a new session file, and
    the file read back holds the separator and the second document; the
    first one is gone. *)
Theorem WriteFile_twice_ReadFile :
  yaml.ReadFile false
    (yaml.WriteFiles ∅ "keploy/test-set-0" "mocks" [doc_a; doc_b])
    "keploy/test-set-0" "mocks"
  = Ok (yaml.separator ++ doc_b) /\
  yaml.joined [doc_a; doc_b] = doc_a ++ yaml.separator ++ doc_b /\
  yaml.separator ++ doc_b <> yaml.joined [doc_a; doc_b].
Proof.
  split.
  - apply (@WriteFiles_ReadFile plain_paths "keploy/test-set-0" "mocks" eq_refl
             doc_a [] doc_b ∅).
    reflexivity.
  - split; [reflexivity | discriminate].
Qed.

(** ** The factory: [ProcessActiveTrackers] *)

Lemma send_inv (ch : option conn.chan) (v : conn.SocketDataEvent) (c' : conn.chan) :
  conn.send ch v = conn.Returned c' ->
  exists c, ch = Some c /\ conn.closed c = false /\
            (length (conn.buf c) < conn.capacity c)%nat /\
            c' = conn.Chan (conn.buf c ++ [v]) (conn.capacity c) false.
Proof.
  unfold conn.send. destruct ch as [c |]; [| discriminate].
  destruct (conn.closed c) eqn:E; [discriminate |].
  destruct (Nat.ltb_spec (length (conn.buf c)) (conn.capacity c)); [| discriminate].
  intros [= <-]. exists c. repeat split; auto.
Qed.

Lemma close_inv (ch : option conn.chan) (c' : conn.chan) :
  conn.close ch = conn.Returned c' ->
  exists c, ch = Some c /\ conn.closed c = false /\
            c' = conn.Chan (conn.buf c) (conn.capacity c) true.
Proof.
  unfold conn.close. destruct ch as [c |]; [| discriminate].
  destruct (conn.closed c) eqn:E; [discriminate |]. intros [= <-].
  exists c. repeat split; auto.
Qed.

Lemma ProcessActiveTrackers_bounded (factory factory' : conn.Factory) (event : conn.Event) :
  bounded factory ->
  conn.ProcessActiveTrackers factory event = conn.Returned factory' ->
  bounded factory'.
Proof.
  intros Hb. destruct event as [id | ev | id |]; cbn [conn.ProcessActiveTrackers].
  - intros [= <-] l ch. cbn [conn.chans].
    destruct (decide (l = fresh (dom (conn.chans factory)))) as [-> | Hne].
    + rewrite lookup_insert_eq. intros [= <-]. cbn. lia.
    + rewrite lookup_insert_ne by congruence. apply Hb.
  - destruct (conn.send _ ev) as [c | |] eqn:Hs; try discriminate.
    intros [= <-] l ch. cbn [conn.chans].
    apply send_inv in Hs as (c0 & Hc0 & _ & Hlt & ->).
    destruct (conn.connections factory !! conn.ConnID ev) as [l0 |] eqn:Hl0;
      [| discriminate]. cbn in Hc0.
    destruct (decide (l = l0)) as [-> | Hne].
    + rewrite lookup_insert_eq. intros [= <-]. cbn.
      destruct (Hb _ _ Hc0) as [Hcap Hlen]. rewrite length_app. cbn. lia.
    + rewrite lookup_insert_ne by congruence. apply Hb.
  - destruct (conn.close _) as [c | |] eqn:Hs; try discriminate.
    intros [= <-] l ch. cbn [conn.chans].
    apply close_inv in Hs as (c0 & Hc0 & _ & ->).
    destruct (conn.connections factory !! id) as [l0 |] eqn:Hl0;
      [| discriminate]. cbn in Hc0.
    destruct (decide (l = l0)) as [-> | Hne].
    + rewrite lookup_insert_eq. intros [= <-]. cbn. apply (Hb _ _ Hc0).
    + rewrite lookup_insert_ne by congruence. apply Hb.
  - intros [= <-]. exact Hb.
Qed.

Lemma run_events_bounded (events : list conn.Event) (factory factory' : conn.Factory) :
  bounded factory ->
  conn.run_events factory events = conn.Returned factory' ->
  bounded factory'.
Proof.
  revert factory. induction events as [| e events IH]; intros factory Hb; cbn.
  - intros [= <-]. exact Hb.
  - destruct (conn.ProcessActiveTrackers factory e) as [f1 | |] eqn:E; try discriminate.
    apply IH. eapply ProcessActiveTrackers_bounded; eauto.
Qed.

Lemma NewFactory_bounded : bounded conn.NewFactory.
Proof. intros l ch H. cbn in H. rewrite lookup_empty in H. discriminate. Qed.

(** A [data] event for a live connection is a send on its channel. *)
Lemma ProcessActiveTrackers_send (factory : conn.Factory)
    (dataEvent : conn.SocketDataEvent) (l : conn.loc) (ch : conn.chan) :
  conn.connections factory !! conn.ConnID dataEvent = Some l ->
  conn.chans factory !! l = Some ch ->
  conn.closed ch = false ->
  conn.ProcessActiveTrackers factory (conn.DataEvent dataEvent) =
  if (length (conn.buf ch) <? conn.capacity ch)%nat then
    conn.Returned
      {| conn.connections := conn.connections factory;
         conn.chans := <[l := conn.Chan (conn.buf ch ++ [dataEvent]) (conn.capacity ch) false]>
                         (conn.chans factory);
         conn.workers := conn.workers factory |}
  else conn.Blocked.
Proof.
  intros Hl Hch Hopen. cbn [conn.ProcessActiveTrackers].
  rewrite Hl. cbn [mbind option_bind]. rewrite Hch.
  unfold conn.send. rewrite Hopen.
  destruct (length (conn.buf ch) <? conn.capacity ch)%nat; reflexivity.
Qed.

(** C6, as amended: a [data] event for a live connection is sent on the
    channel of the connection.  When the queue has room the event is
    appended to it and the call returns; when the queue holds 1000 events
    the call is suspended on the send: it does not return, and the event is
    not dropped. *)
Theorem ProcessActiveTrackers_data (factory : conn.Factory)
    (dataEvent : conn.SocketDataEvent) (l : conn.loc) (ch : conn.chan) :
  conn.connections factory !! conn.ConnID dataEvent = Some l ->
  conn.chans factory !! l = Some ch ->
  conn.closed ch = false ->
  conn.capacity ch = 1000%nat ->
  conn.ProcessActiveTrackers factory (conn.DataEvent dataEvent) =
  if (length (conn.buf ch) <? 1000)%nat then
    conn.Returned
      {| conn.connections := conn.connections factory;
         conn.chans := <[l := conn.Chan (conn.buf ch ++ [dataEvent]) 1000 false]>
                         (conn.chans factory);
         conn.workers := conn.workers factory |}
  else conn.Blocked.
Proof.
  intros Hl Hch Hopen Hcap.
  rewrite (ProcessActiveTrackers_send factory dataEvent l ch Hl Hch Hopen), Hcap.
  reflexivity.
Qed.

(** After [open(42)] the factory has an empty queue for connection 42, and
    each [data] event that returns adds one element to it. *)
Lemma run_events_open : conn.run_events conn.NewFactory [conn.OpenEvent 42] = conn.Returned (queue42 0).
Proof. vm_compute. reflexivity. Qed.

Lemma run_events_data (n m : nat) :
  (n + m <= 1000)%nat ->
  conn.run_events (queue42 n) (repeat (conn.DataEvent data42) m) = conn.Returned (queue42 (n + m)).
Proof.
  revert n. induction m as [| m IH]; intros n Hle.
  - rewrite Nat.add_0_r. reflexivity.
  - cbn [repeat conn.run_events].
    rewrite (ProcessActiveTrackers_send (queue42 n) data42 0%nat
               (conn.Chan (repeat data42 n) 1000 false)); try reflexivity.
    cbn [conn.buf conn.capacity]. rewrite repeat_length.
    replace (n <? 1000)%nat with true by (symmetry; apply Nat.ltb_lt; lia).
    replace (n + S m)%nat with (S n + m)%nat by lia.
    rewrite <- IH by lia. f_equal. unfold queue42. cbn [conn.connections conn.chans conn.workers].
    f_equal. rewrite insert_singleton_eq. f_equal. f_equal.
    rewrite <- repeat_cons. reflexivity.
Qed.

Lemma ProcessActiveTrackers_data_witness :
  conn.connections (queue42 1000) !! conn.ConnID data42 = Some 0%nat /\
  conn.chans (queue42 1000) !! 0%nat = Some (conn.Chan (repeat data42 1000) 1000 false) /\
  conn.ProcessActiveTrackers (queue42 1000) (conn.DataEvent data42) =
  if (length (repeat data42 1000) <? 1000)%nat then
    conn.Returned
      {| conn.connections := conn.connections (queue42 1000);
         conn.chans := <[0%nat := conn.Chan (repeat data42 1000 ++ [data42]) 1000 false]>
                         (conn.chans (queue42 1000));
         conn.workers := conn.workers (queue42 1000) |}
  else conn.Blocked.
Proof.
  split; [reflexivity |]. split; [reflexivity |].
  apply (ProcessActiveTrackers_data (queue42 1000) data42 0%nat
           (conn.Chan (repeat data42 1000) 1000 false)); reflexivity.
Defined.

(** C6 fails as stated: after [open(42)] and 1000 [data] events the queue
    of connection 42 is full, and the next [data] event does not return:
    the call is suspended on the send. *)
Lemma ProcessActiveTrackers_data_counterexample :
  exists factory ch,
    conn.run_events conn.NewFactory
      (conn.OpenEvent 42 :: repeat (conn.DataEvent data42) 1000) = conn.Returned factory /\
    conn.connections factory !! 42 = Some 0%nat /\
    conn.chans factory !! 0%nat = Some ch /\
    length (conn.buf ch) = 1000%nat /\
    conn.closed ch = false /\
    conn.ProcessActiveTrackers factory (conn.DataEvent data42) = conn.Blocked /\
    ~ exists factory', conn.ProcessActiveTrackers factory (conn.DataEvent data42)
                       = conn.Returned factory'.
Proof.
  assert (conn.ProcessActiveTrackers (queue42 1000) (conn.DataEvent data42) = conn.Blocked) as Hb.
  { cbn [conn.ProcessActiveTrackers]. unfold queue42 at 1 2. cbn [conn.connections conn.chans conn.ConnID data42].
    rewrite lookup_singleton_eq. cbn [mbind option_bind]. rewrite lookup_singleton_eq.
    unfold conn.send. cbn [conn.closed conn.buf conn.capacity]. rewrite repeat_length.
    reflexivity. }
  exists (queue42 1000), (conn.Chan (repeat data42 1000) 1000 false).
  split.
  { change (conn.OpenEvent 42 :: repeat (conn.DataEvent data42) 1000)
      with ([conn.OpenEvent 42] ++ repeat (conn.DataEvent data42) 1000).
    cbn [app conn.run_events].
    change (conn.ProcessActiveTrackers conn.NewFactory (conn.OpenEvent 42))
      with (conn.run_events conn.NewFactory [conn.OpenEvent 42]).
    rewrite run_events_open. apply (run_events_data 0 1000). lia. }
  split; [reflexivity |]. split; [reflexivity |].
  split; [apply repeat_length |]. split; [reflexivity |].
  split; [exact Hb |]. intros [f' Hf']. rewrite Hb in Hf'. discriminate.
Qed.

(** ** The factory: [Worker] *)

Section worker_facts.

Context {ext : conn.Externals}.

(** With a live context the [select] has exactly one arm that can run, and
    it is not the arm of the context. *)
Lemma Worker_select_live (ch : conn.chan) :
  exists sel ch', conn.Worker_select false ch = [(sel, ch')] /\ sel <> conn.DoneCase.
Proof.
  unfold conn.Worker_select. destruct (conn.recv ch) as [[ev ch'] |].
  - exists (conn.RecvCase ev), ch'. split; [reflexivity | discriminate].
  - exists conn.TimeoutCase, ch. split; [reflexivity | discriminate].
Qed.

(** The only [return] of [Worker] is in the arm of the context. *)
Lemma Worker_iter_Exit (w : conn.locals) (sel : conn.selected) :
  conn.Worker_iter w sel = conn.Exit -> sel = conn.DoneCase.
Proof.
  destruct sel as [ev | |]; cbn; [| | reflexivity].
  - destruct (_ && _); [destruct (conn.parse_and_capture _ _) |]; discriminate.
  - destruct (_ =? _); [destruct (conn.parse_and_capture _ _) |]; discriminate.
Qed.

Lemma Worker_next_not_returned (g : conn.goroutine) :
  conn.returned g = false -> conn.returned (conn.Worker_next g) = false.
Proof.
  destruct g as [ch w | |]; cbn; try congruence. intros _.
  destruct (Worker_select_live ch) as (sel & ch' & -> & Hsel).
  destruct (conn.Worker_iter w sel) eqn:E; try reflexivity.
  apply Worker_iter_Exit in E. contradiction.
Qed.

(** With a live context the worker never returns, however many iterations
    it runs, whether its channel is closed or not. *)
Lemma Worker_run_not_returned (n : nat) (g : conn.goroutine) :
  conn.returned g = false -> conn.returned (conn.Worker_run n g) = false.
Proof.
  revert g. induction n as [| n IH]; intros g H; [exact H |].
  cbn [conn.Worker_run]. apply IH. now apply Worker_next_not_returned.
Qed.

(** The deterministic run agrees with the steps of the worker. *)
Lemma Worker_step_live (g g' : conn.goroutine) (e : option conn.TestCase) :
  conn.Worker_step false g e g' -> g' = conn.Worker_next g.
Proof.
  intros H. destruct H as [ch w sel ch' w' e Hin Hit | ch w sel ch' Hin Hit | ch w sel ch' p Hin Hit];
    cbn [conn.Worker_next];
    destruct (Worker_select_live ch) as (sel0 & ch0 & Hs & _); rewrite Hs in Hin |- *;
    destruct Hin as [[= <- <-] | []]; rewrite Hit; reflexivity.
Qed.

(** On a closed and drained channel every receive succeeds at once, with
    the zero value: the timer arm never runs again, and each iteration is
    the handling of a zero-valued event. *)
Lemma Worker_next_closed (ch : conn.chan) (w : conn.locals) :
  conn.buf ch = [] -> conn.closed ch = true ->
  conn.Worker_next (conn.Running ch w) =
  match conn.Worker_iter w
          (conn.RecvCase {| conn.ConnID := 0; conn.Direction := 0;
                            conn.Msg := conn.zeroMsg |}) with
  | conn.Continue w' _ => conn.Running ch w'
  | conn.Exit => conn.Exited
  | conn.Crash p => conn.Crashed p
  end.
Proof.
  intros Hb Hc. cbn [conn.Worker_next]. unfold conn.Worker_select, conn.recv.
  rewrite Hb, Hc. reflexivity.
Qed.

(** Before that, the events left in the queue of a closed channel are
    received in order. *)
Lemma Worker_next_drains (ch : conn.chan) (w : conn.locals)
    (dataEvent : conn.SocketDataEvent) (rest : list conn.SocketDataEvent) :
  conn.buf ch = dataEvent :: rest ->
  conn.Worker_next (conn.Running ch w) =
  match conn.Worker_iter w (conn.RecvCase dataEvent) with
  | conn.Continue w' _ => conn.Running (conn.Chan rest (conn.capacity ch) (conn.closed ch)) w'
  | conn.Exit => conn.Exited
  | conn.Crash p => conn.Crashed p
  end.
Proof.
  intros Hb. cbn [conn.Worker_next]. unfold conn.Worker_select, conn.recv.
  rewrite Hb. reflexivity.
Qed.

(** C7 fails on the code: after [open(42)] and [close(42)] the channel of
    the worker is closed, empty and no longer in [connections], and with a
    live context the worker has not returned after any number of
    iterations. *)
Theorem Worker_never_returns_after_close (n : nat) :
  exists factory ch,
    conn.run_events conn.NewFactory [conn.OpenEvent 42; conn.CloseEvent 42]
    = conn.Returned factory /\
    conn.connections factory !! 42 = None /\
    conn.chans factory !! 0%nat = Some ch /\
    conn.workers factory !! 0%nat = Some conn.initial /\
    conn.buf ch = [] /\
    conn.closed ch = true /\
    conn.returned (conn.Worker_run n (conn.Running ch conn.initial)) = false.
Proof.
  exists {| conn.connections := ∅;
            conn.chans := {[ 0%nat := conn.Chan [] 1000 true ]};
            conn.workers := {[ 0%nat := conn.initial ]} |},
         (conn.Chan [] 1000 true).
  split; [vm_compute; reflexivity |].
  repeat (split; [reflexivity |]).
  apply Worker_run_not_returned. reflexivity.
Qed.

(** *** What the worker sends *)



(** The same on the other arm: an ingress event right after an egress
    event. *)
Lemma Worker_recv_ignores_parse_errors (req res : list byte)
    (dataEvent : conn.SocketDataEvent) :
  conn.Direction dataEvent = conn.IngressTraffic ->
  conn.Worker_iter (conn.Locals conn.EgressTraffic req res) (conn.RecvCase dataEvent) =
  match conn.parse_and_capture (req ++ conn.Msg dataEvent) res with
  | conn.Sent tc =>
      conn.Continue (conn.Locals conn.IngressTraffic (req ++ conn.Msg dataEvent) res)
        (Some tc)
  | conn.NotSent =>
      conn.Continue (conn.Locals conn.IngressTraffic (req ++ conn.Msg dataEvent) res) None
  | conn.CapturePanic p => conn.Crash p
  end.
Proof.
  intros Hd. cbn [conn.Worker_iter conn.lastEventType conn.req conn.res].
  rewrite Hd, !Z.eqb_refl. reflexivity.
Qed.

(** What follows is for parsers that return a nil pointer with an error,
    and fail on an empty input. *)
Hypothesis request_nil_on_error :
  forall b, (conn.ParseHTTPRequest b).2 = true -> (conn.ParseHTTPRequest b).1 = None.
Hypothesis response_nil_on_error :
  forall b r, (conn.ParseHTTPResponse b r).2 = true -> (conn.ParseHTTPResponse b r).1 = None.
Hypothesis request_empty : (conn.ParseHTTPRequest []).2 = true.
Hypothesis response_empty : forall r, (conn.ParseHTTPResponse [] r).2 = true.

(** A test case is sent only for a request and a response that are there. *)
Lemma capture_Sent (req : option conn.Request) (resp : option conn.Response)
    (tc : conn.TestCase) :
  conn.capture req resp = conn.Sent tc ->
  req = Some (conn.HTTPReq tc) /\ resp = Some (conn.HTTPResp tc) /\
  conn.ReadAll_Request (conn.HTTPReq tc) = Some (conn.HTTPReq_Body tc) /\
  conn.ReadAll_Response (conn.HTTPResp tc) = Some (conn.HTTPResp_Body tc).
Proof.
  unfold conn.capture. destruct req as [r |]; [| discriminate].
  destruct (conn.ReadAll_Request r) eqn:Er; [| discriminate].
  destruct resp as [p |]; [| discriminate].
  destruct (conn.ReadAll_Response p) eqn:Ep; [| discriminate].
  intros [= <-]. cbn. auto.
Qed.

Lemma parse_and_capture_Sent (req res : list byte) (tc : conn.TestCase) :
  conn.parse_and_capture req res = conn.Sent tc -> parsed req res tc.
Proof.
  unfold conn.parse_and_capture, parsed. intros H.
  apply capture_Sent in H as (Hr & Hp & Hbr & Hbp).
  assert (conn.ParseHTTPRequest req = (Some (conn.HTTPReq tc), false)) as Er.
  { destruct (conn.ParseHTTPRequest req) as [o e] eqn:E. cbn in Hr. subst o.
    destruct e; [| reflexivity].
    pose proof (request_nil_on_error req) as Hn. rewrite E in Hn.
    discriminate (Hn eq_refl). }
  rewrite Er in Hp. cbn [fst] in Hp.
  assert (conn.ParseHTTPResponse res (Some (conn.HTTPReq tc))
          = (Some (conn.HTTPResp tc), false)) as Ep.
  { destruct (conn.ParseHTTPResponse res _) as [o e] eqn:E. cbn in Hp. subst o.
    destruct e; [| reflexivity].
    pose proof (response_nil_on_error res (Some (conn.HTTPReq tc))) as Hn.
    rewrite E in Hn. discriminate (Hn eq_refl). }
  repeat split; auto.
  - intros ->. rewrite Er in request_empty. discriminate.
  - intros ->. pose proof (response_empty (Some (conn.HTTPReq tc))) as He.
    rewrite Ep in He. discriminate.
Qed.

Lemma Worker_iter_Sent (w w' : conn.locals) (sel : conn.selected)
    (tc : conn.TestCase) :
  conn.Worker_iter w sel = conn.Continue w' (Some tc) ->
  parsed (conn.req w') (conn.res w') tc.
Proof.
  destruct sel as [ev | |]; cbn [conn.Worker_iter]; [| | discriminate].
  - destruct (_ && _); [| discriminate].
    destruct (conn.parse_and_capture _ _) eqn:E; try discriminate.
    intros [= <- <-]. cbn [conn.req conn.res]. now apply parse_and_capture_Sent.
  - destruct (_ =? _); [| discriminate].
    destruct (conn.parse_and_capture _ _) eqn:E; try discriminate.
    intros [= <- <-]. cbn [conn.req conn.res]. now apply parse_and_capture_Sent.
Qed.

(** When a parser fails, [capture] is still called, with a nil pointer,
    and the worker panics: nothing is sent. *)
Lemma parse_failure_panics (req res : list byte) :
  (conn.ParseHTTPRequest req).2 = true \/
  (conn.ParseHTTPResponse res (conn.ParseHTTPRequest req).1).2 = true ->
  (exists r body, (conn.ParseHTTPRequest req).1 = Some r /\
                  conn.ReadAll_Request r = Some body) \/
  (conn.ParseHTTPRequest req).1 = None ->
  conn.parse_and_capture req res = conn.CapturePanic NilDereference.
Proof.
  unfold conn.parse_and_capture, conn.capture. intros [Hr | Hp] Hbody.
  - rewrite (request_nil_on_error _ Hr). reflexivity.
  - rewrite (response_nil_on_error _ _ Hp).
    destruct Hbody as [(r & body & -> & ->) | ->]; reflexivity.
Qed.

(** Along any run of the worker, every test case sent was built from
    accumulators that are not empty and parse without error. *)
Lemma Worker_step_sends_parsed (ctxDone : bool) (g g' : conn.goroutine)
    (tc : conn.TestCase) :
  conn.Worker_step ctxDone g (Some tc) g' ->
  exists ch' w', g' = conn.Running ch' w' /\ parsed (conn.req w') (conn.res w') tc.
Proof.
  intros H. inversion H as [ch w sel ch' w' e Hin Hit | |]; subst.
  exists ch', w'. split; [reflexivity |]. eapply Worker_iter_Sent; eauto.
Qed.

Lemma Worker_steps_send_parsed (ctxDone : bool) (g g' : conn.goroutine)
    (out : list conn.TestCase) :
  conn.Worker_steps ctxDone g out g' ->
  forall tc, In tc out -> exists req res, parsed req res tc.
Proof.
  induction 1 as [| g1 e g2 out g3 Hstep Hsteps IH]; intros tc Hin; [destruct Hin |].
  apply in_app_or in Hin as [Hin | Hin]; [| now apply IH].
  destruct e as [tc0 |]; [| destruct Hin]. destruct Hin as [<- | []].
  destruct (Worker_step_sends_parsed _ _ _ _ Hstep) as (ch' & w' & _ & Hp). eauto.
Qed.

End worker_facts.


(** * Further properties *)

(** ** Package [yaml] *)

Section yaml_more.

Context {paths : yaml.Paths}.
Variables path fileName : string.

Local Abbreviation yamlPath := (yaml.Join path (fileName +:+ ".yaml")).

Hypothesis valid : yaml.ValidatePath yamlPath = Ok yamlPath.

(** X1: with a live context, [WriteFile] returns nil; reading the file back
    gives the document just written, after the separator when the file was
    there before the call; no other file is changed. *)
Theorem WriteFile_ReadFile (fs : yaml.files) (docData : list byte) :
  (yaml.WriteFile false fs path fileName docData).2 = Ok tt /\
  yaml.ReadFile false (yaml.WriteFile false fs path fileName docData).1 path fileName
  = Ok ((match fs !! yamlPath with
         | Some _ => yaml.separator
         | None => []
         end) ++ docData) /\
  forall other, other <> yamlPath ->
    (yaml.WriteFile false fs path fileName docData).1 !! other = fs !! other.
Proof.
  rewrite (WriteFile_content path fileName valid). cbn [fst snd].
  split; [reflexivity |]. split.
  - unfold yaml.ReadFile. rewrite lookup_insert_eq. reflexivity.
  - intros other Hne. apply lookup_insert_ne. congruence.
Qed.

(** Under a cancelled context the file is emptied and nothing is written. *)
Lemma WriteFile_cancelled_content (fs : yaml.files) (docData : list byte) :
  yaml.WriteFile true fs path fileName docData = (<[yamlPath := []]> fs, Ok tt).
Proof.
  unfold yaml.WriteFile, yaml.CreateYamlFile. rewrite valid.
  assert (forall (fs0 : yaml.files) data,
            (let '(content, w) :=
               yaml.ctxWriter_Write true
                 (default [] (yaml.OpenFile_trunc fs0 yamlPath !! yamlPath)) data in
             let fs1 := <[yamlPath := content]> (yaml.OpenFile_trunc fs0 yamlPath) in
             match w with
             | Err _ => (fs1, Ok tt)
             | _ => (fs1, Ok tt)
             end) = (<[yamlPath := []]> fs0, Ok tt)) as Hw.
  { intros fs0 data. unfold yaml.OpenFile_trunc, yaml.ctxWriter_Write.
    rewrite lookup_insert_eq. cbn [default].
    destruct (0 <? Z.of_nat (length data)); rewrite insert_insert_eq; reflexivity. }
  destruct (fs !! yamlPath) as [c |] eqn:E.
  - apply Hw.
  - rewrite Hw. rewrite insert_insert_eq. reflexivity.
Qed.

(** X2: under a cancelled context [WriteFile] still returns nil, and the
    file is left empty whatever it held and whatever was to be written. *)
Theorem WriteFile_cancelled (fs : yaml.files) (docData : list byte) :
  (yaml.WriteFile true fs path fileName docData).2 = Ok tt /\
  yaml.ReadFile false (yaml.WriteFile true fs path fileName docData).1 path fileName
  = Ok [].
Proof.
  rewrite WriteFile_cancelled_content. cbn [fst snd].
  split; [reflexivity |]. unfold yaml.ReadFile. rewrite lookup_insert_eq. reflexivity.
Qed.

(** X3: [CreateYamlFile] reports [true] exactly when the file was missing,
    leaves the content of an existing file alone, and reports [false] when
    called again.  So a document written to a file that was made beforehand
    is preceded by the separator, though the file was empty. *)
Theorem CreateYamlFile_then_WriteFile (fs : yaml.files) (docData : list byte) :
  let created := yaml.CreateYamlFile fs path fileName in
  created.2 = Ok (bool_decide (fs !! yamlPath = None)) /\
  created.1 !! yamlPath = Some (default [] (fs !! yamlPath)) /\
  yaml.CreateYamlFile created.1 path fileName = (created.1, Ok false) /\
  yaml.ReadFile false (yaml.WriteFile false created.1 path fileName docData).1
    path fileName = Ok (yaml.separator ++ docData).
Proof.
  assert (exists c, (yaml.CreateYamlFile fs path fileName).1 !! yamlPath = Some c
                    /\ c = default [] (fs !! yamlPath)
                    /\ (yaml.CreateYamlFile fs path fileName).2
                       = Ok (bool_decide (fs !! yamlPath = None))) as (c & Hc & -> & Hr).
  { unfold yaml.CreateYamlFile. rewrite valid.
    destruct (fs !! yamlPath) as [c |] eqn:E; cbn [fst snd].
    - exists c. rewrite E. repeat split.
    - exists []. rewrite lookup_insert_eq. repeat split. }
  cbn zeta. split; [exact Hr |]. split; [exact Hc |]. split.
  - unfold yaml.CreateYamlFile at 1. rewrite valid, Hc. reflexivity.
  - rewrite (WriteFile_content path fileName valid), Hc. cbn [fst].
    unfold yaml.ReadFile. rewrite lookup_insert_eq. reflexivity.
Qed.

End yaml_more.

Lemma WriteFile_ReadFile_witness :
  yaml.ValidatePath (yaml.Join "keploy/test-set-0" ("mocks" +:+ ".yaml"))
  = Ok (yaml.Join "keploy/test-set-0" ("mocks" +:+ ".yaml")) /\
  yaml.ReadFile false (yaml.WriteFile false ∅ "keploy/test-set-0" "mocks" doc_a).1
    "keploy/test-set-0" "mocks" = Ok doc_a.
Proof.
  split; [reflexivity |].
  pose proof (proj1 (proj2 (@WriteFile_ReadFile plain_paths "keploy/test-set-0" "mocks"
                              eq_refl ∅ doc_a))) as H.
  rewrite lookup_empty in H. exact H.
Defined.

Lemma WriteFile_cancelled_witness :
  yaml.ValidatePath (yaml.Join "keploy/test-set-0" ("mocks" +:+ ".yaml"))
  = Ok (yaml.Join "keploy/test-set-0" ("mocks" +:+ ".yaml")) /\
  yaml.ReadFile false
    (yaml.WriteFile true {[ "keploy/test-set-0/mocks.yaml"%string := doc_a ]}
       "keploy/test-set-0" "mocks" doc_b).1
    "keploy/test-set-0" "mocks" = Ok [].
Proof.
  split; [reflexivity |].
  apply (proj2 (@WriteFile_cancelled plain_paths "keploy/test-set-0" "mocks"
                  eq_refl {[ "keploy/test-set-0/mocks.yaml"%string := doc_a ]} doc_b)).
Defined.

Lemma CreateYamlFile_then_WriteFile_witness :
  yaml.ValidatePath (yaml.Join "keploy/test-set-0" ("mocks" +:+ ".yaml"))
  = Ok (yaml.Join "keploy/test-set-0" ("mocks" +:+ ".yaml")) /\
  yaml.ReadFile false
    (yaml.WriteFile false (yaml.CreateYamlFile ∅ "keploy/test-set-0" "mocks").1
       "keploy/test-set-0" "mocks" doc_a).1
    "keploy/test-set-0" "mocks" = Ok (yaml.separator ++ doc_a).
Proof.
  split; [reflexivity |].
  apply (@CreateYamlFile_then_WriteFile plain_paths "keploy/test-set-0" "mocks"
           eq_refl ∅ doc_a).
Defined.

(** The loop of [ReadSessionIndices] keeps the names in order and drops
    ["testReports"]. *)
Lemma ReadSessionIndices_loop (files acc : list string) :
  fold_left
    (fun indices v =>
       if negb (String.eqb v "testReports") then indices ++ [v] else indices)
    files acc
  = acc ++ List.filter (fun v => negb (String.eqb v "testReports")) files.
Proof.
  revert acc. induction files as [| v files IH]; intros acc; cbn.
  - now rewrite app_nil_r.
  - rewrite IH. destruct (String.eqb v "testReports"); cbn; [reflexivity |].
    now rewrite <- app_assoc.
Qed.

(** X4: [ReadSessionIndices] never fails when the directory cannot be
    opened (it returns no index and a nil error), returns the error of the
    listing, and otherwise returns the entries in their order without
    ["testReports"]: a name is returned exactly when it is an entry other
    than ["testReports"], and the list is unchanged when that entry is
    absent. *)
Theorem ReadSessionIndices_spec `{dirs : yaml.Directories} (path : string) :
  match yaml.ReadDir path with
  | Err _ => yaml.ReadSessionIndices path = Ok []
  | Ok (Err e) => yaml.ReadSessionIndices path = Err e
  | Ok (Ok files) =>
      exists indices,
        yaml.ReadSessionIndices path = Ok indices /\
        sublist indices files /\
        (forall name, In name indices <-> In name files /\ name <> "testReports"%string) /\
        (~ In "testReports"%string files -> indices = files)
  | _ => True
  end.
Proof.
  unfold yaml.ReadSessionIndices.
  destruct (yaml.ReadDir path) as [[files | e | p |] | e | p |]; try reflexivity; try exact I.
  rewrite ReadSessionIndices_loop. cbn [app]. eexists. split; [reflexivity |].
  split; [| split].
  - induction files as [| v files IH]; cbn; [constructor |].
    destruct (negb _); [now apply sublist_skip | now apply sublist_cons].
  - intros name. rewrite filter_In, negb_true_iff, String.eqb_neq. reflexivity.
  - intros Hn. induction files as [| v files IH]; [reflexivity |]. cbn.
    destruct (String.eqb_spec v "testReports") as [-> | Hne].
    + exfalso. apply Hn. now left.
    + cbn. f_equal. apply IH. intros ?. apply Hn. now right.
Qed.

Lemma ReadSessionIndices_example :
  @yaml.ReadSessionIndices (listing ["test-set-0"; "testReports"; "test-set-1"]%string)
    "keploy" = Ok ["test-set-0"; "test-set-1"]%string.
Proof. reflexivity. Qed.

(** ** Package [conn]: the factory *)

Lemma fresh_chan (factory : conn.Factory) (l : conn.loc) :
  is_Some (conn.chans factory !! l) -> l <> fresh (dom (conn.chans factory)).
Proof.
  intros H E. subst l. apply elem_of_dom in H. exact (is_fresh _ H).
Qed.

Lemma send_lookup (factory : conn.Factory) (id : conn.ID)
    (v : conn.SocketDataEvent) (c' : conn.chan) :
  conn.send (l ← conn.connections factory !! id; conn.chans factory !! l) v
  = conn.Returned c' ->
  exists l c, conn.connections factory !! id = Some l /\
              conn.chans factory !! l = Some c /\ conn.closed c = false /\
              c' = conn.Chan (conn.buf c ++ [v]) (conn.capacity c) false.
Proof.
  intros H. apply send_inv in H as (c & Hc & Hopen & _ & ->).
  destruct (conn.connections factory !! id) as [l |]; [| discriminate].
  exists l, c. auto.
Qed.

Lemma close_lookup (factory : conn.Factory) (id : conn.ID) (c' : conn.chan) :
  conn.close (l ← conn.connections factory !! id; conn.chans factory !! l)
  = conn.Returned c' ->
  exists l c, conn.connections factory !! id = Some l /\
              conn.chans factory !! l = Some c /\ conn.closed c = false /\
              c' = conn.Chan (conn.buf c) (conn.capacity c) true.
Proof.
  intros H. apply close_inv in H as (c & Hc & Hopen & ->).
  destruct (conn.connections factory !! id) as [l |]; [| discriminate].
  exists l, c. auto.
Qed.

Lemma ProcessActiveTrackers_well_formed (factory factory' : conn.Factory)
    (event : conn.Event) :
  well_formed factory ->
  conn.ProcessActiveTrackers factory event = conn.Returned factory' ->
  well_formed factory'.
Proof.
  intros (Hlive & Hinj & Hb) HP.
  assert (bounded factory') as Hb' by (eapply ProcessActiveTrackers_bounded; eauto).
  destruct event as [id | ev | id |]; cbn [conn.ProcessActiveTrackers] in HP.
  - injection HP as <-. set (l0 := fresh (dom (conn.chans factory))) in *.
    assert (forall id' l, conn.connections factory !! id' = Some l -> l <> l0) as Hold.
    { intros id' l H. destruct (Hlive _ _ H) as (ch & Hch & _).
      apply fresh_chan. eauto. }
    (split; [| split; [| exact Hb']]); cbn [conn.connections conn.chans conn.workers].
    + intros id' l. destruct (decide (id = id')) as [-> | Hne].
      * rewrite lookup_insert_eq. intros [= <-]. rewrite lookup_insert_eq. eauto.
      * rewrite lookup_insert_ne by exact Hne. intros H.
        rewrite lookup_insert_ne by (intros E; exact (Hold _ _ H (eq_sym E))).
        eauto.
    + intros id1 id2 l H1 H2.
      destruct (decide (id = id1)) as [E1 | N1]; destruct (decide (id = id2)) as [E2 | N2].
      * congruence.
      * subst id1. rewrite lookup_insert_eq in H1. injection H1 as <-.
        rewrite lookup_insert_ne in H2 by exact N2. destruct (Hold _ _ H2 eq_refl).
      * subst id2. rewrite lookup_insert_eq in H2. injection H2 as <-.
        rewrite lookup_insert_ne in H1 by exact N1. destruct (Hold _ _ H1 eq_refl).
      * rewrite lookup_insert_ne in H1 by exact N1.
        rewrite lookup_insert_ne in H2 by exact N2. eapply Hinj; eauto.
  - destruct (conn.send _ ev) as [c | |] eqn:Hs; try discriminate.
    injection HP as <-.
    apply send_lookup in Hs as (l0 & c0 & Hl0 & Hc0 & Hopen & ->).
    rewrite Hl0 in Hb' |- *. (split; [| split; [| exact Hb']]); cbn [conn.connections conn.chans conn.workers].
    + intros id' l H. destruct (decide (l = l0)) as [-> | Hne].
      * rewrite lookup_insert_eq. eauto.
      * rewrite lookup_insert_ne by congruence. eauto.
    + exact Hinj.
  - destruct (conn.close _) as [c | |] eqn:Hs; try discriminate.
    injection HP as <-.
    apply close_lookup in Hs as (l0 & c0 & Hl0 & Hc0 & Hopen & ->).
    rewrite Hl0 in Hb' |- *. (split; [| split; [| exact Hb']]); cbn [conn.connections conn.chans conn.workers].
    + intros id' l H. apply lookup_delete_Some in H as [Hne H].
      assert (l <> l0) by (intros ->; apply Hne; eapply Hinj; eauto).
      rewrite lookup_insert_ne by congruence. eauto.
    + intros id1 id2 l H1 H2.
      apply lookup_delete_Some in H1 as [_ H1]. apply lookup_delete_Some in H2 as [_ H2].
      eapply Hinj; eauto.
  - injection HP as <-. split; [| split]; assumption.
Qed.

(** An event leaves no channel without its worker: [open] starts one for
    the channel it makes, and the others make no channel. *)
Lemma ProcessActiveTrackers_staffed (factory factory' : conn.Factory)
    (event : conn.Event) :
  staffed factory ->
  conn.ProcessActiveTrackers factory event = conn.Returned factory' ->
  staffed factory'.
Proof.
  intros Hs HP l.
  destruct event as [id | ev | id |]; cbn [conn.ProcessActiveTrackers] in HP.
  - injection HP as <-. cbn [conn.chans conn.workers].
    rewrite !lookup_insert_is_Some. intros [-> | [Hne H]]; [left; reflexivity |].
    right. split; [exact Hne | exact (Hs _ H)].
  - destruct (conn.send _ ev) as [c | |] eqn:Hsend; try discriminate.
    injection HP as <-.
    apply send_lookup in Hsend as (l0 & c0 & Hl0 & Hc0 & _ & ->).
    rewrite Hl0. cbn [conn.chans conn.workers].
    rewrite lookup_insert_is_Some. intros [<- | [_ H]]; apply Hs; eauto.
  - destruct (conn.close _) as [c | |] eqn:Hclose; try discriminate.
    injection HP as <-.
    apply close_lookup in Hclose as (l0 & c0 & Hl0 & Hc0 & _ & ->).
    rewrite Hl0. cbn [conn.chans conn.workers].
    rewrite lookup_insert_is_Some. intros [<- | [_ H]]; apply Hs; eauto.
  - injection HP as <-. apply Hs.
Qed.

Lemma NewFactory_well_formed : well_formed conn.NewFactory.
Proof.
  split; [| split]; cbn.
  - intros id l H. rewrite lookup_empty in H. discriminate.
  - intros id1 id2 l H. rewrite lookup_empty in H. discriminate.
  - apply NewFactory_bounded.
Qed.

Lemma NewFactory_invariant : invariant (false, conn.NewFactory).
Proof.
  split; [exact NewFactory_well_formed |].
  intros _ l [ch H]. cbn in H. rewrite lookup_empty in H. discriminate.
Qed.

Lemma drained_refl (ch : conn.chan) : drained ch ch.
Proof. repeat split; reflexivity. Qed.

Lemma drained_trans (ch1 ch2 ch3 : conn.chan) :
  drained ch1 ch2 -> drained ch2 ch3 -> drained ch1 ch3.
Proof.
  intros (Hc & Hk & Hb) (Hc' & Hk' & Hb'). repeat split; try congruence.
  etransitivity; eauto.
Qed.

Section program_facts.

Context {ext : conn.Externals}.

(** An iteration of a worker takes the head of its queue or leaves the
    channel as it is: it sends nothing on it and does not close it. *)
Lemma Worker_select_drained (ctxDone : bool) (ch ch' : conn.chan) (sel : conn.selected) :
  In (sel, ch') (conn.Worker_select ctxDone ch) ->
  drained ch ch' /\ (sel = conn.DoneCase -> ctxDone = true).
Proof.
  unfold conn.Worker_select, conn.recv.
  destruct ch as [[| ev rest] k c]; cbn [conn.buf conn.closed conn.capacity].
  - destruct c, ctxDone; cbn [In]; intros H;
      repeat (destruct H as [H | H]; [injection H as <- <- |]); try destruct H;
      (split; [apply drained_refl | congruence]).
  - destruct ctxDone; cbn [In]; intros H;
      repeat (destruct H as [H | H]; [injection H as <- <- |]); try destruct H;
      (split; [| congruence]);
      first [ apply drained_refl
            | repeat split; cbn [conn.buf]; apply suffix_cons_r; reflexivity ].
Qed.

Lemma Worker_step_drained (ctxDone : bool) (ch ch' : conn.chan) (w w' : conn.locals)
    (e : option conn.TestCase) :
  conn.Worker_step ctxDone (conn.Running ch w) e (conn.Running ch' w') ->
  drained ch ch'.
Proof.
  intros H. inversion H as [? ? sel ? ? ? Hin _ | |]; subst.
  exact (proj1 (Worker_select_drained _ _ _ _ Hin)).
Qed.

(** A worker returns under a cancelled context only. *)
Lemma Worker_step_Exited (ctxDone : bool) (ch : conn.chan) (w : conn.locals)
    (e : option conn.TestCase) :
  conn.Worker_step ctxDone (conn.Running ch w) e conn.Exited -> ctxDone = true.
Proof.
  intros H. inversion H as [| ? ? sel ch' Hin Hit |]; subst.
  apply (proj2 (Worker_select_drained _ _ _ _ Hin)).
  destruct sel as [ev | |]; cbn [conn.Worker_iter] in Hit; [| | reflexivity].
  - destruct (_ && _); [destruct (conn.parse_and_capture _ _) |]; discriminate.
  - destruct (_ =? _); [destruct (conn.parse_and_capture _ _) |]; discriminate.
Qed.

Lemma step_invariant (s s' : bool * conn.Factory) :
  invariant s -> conn.step s s' -> invariant s'.
Proof.
  intros [Hw Hs] Hstep.
  destruct Hstep as [c f e f' HP | c f l ch w e ch' w' Hch Hwk Hst | c f l ch w Hch Hwk Hst | f];
    cbn [fst snd] in *.
  - split; [eapply ProcessActiveTrackers_well_formed; eauto |].
    intros Hc. eapply ProcessActiveTrackers_staffed; eauto.
  - apply Worker_step_drained in Hst as (Hclosed & Hcap & Hsuf).
    destruct Hw as (Hlive & Hinj & Hb).
    split; [split; [| split] |]; cbn [fst snd conn.connections conn.chans conn.workers].
    + intros id l0 H. destruct (Hlive _ _ H) as (ch0 & Hch0 & Hopen).
      destruct (decide (l0 = l)) as [-> | Hne].
      * rewrite lookup_insert_eq. eexists. split; [reflexivity |]. congruence.
      * rewrite lookup_insert_ne by congruence. eauto.
    + exact Hinj.
    + intros l0 c0. cbn [conn.chans]. destruct (decide (l0 = l)) as [-> | Hne].
      * rewrite lookup_insert_eq. intros [= <-]. destruct (Hb _ _ Hch) as [Hk Hlen].
        split; [congruence |]. apply suffix_length in Hsuf. lia.
      * rewrite lookup_insert_ne by congruence. apply Hb.
    + intros Hc l0. unfold staffed in Hs. cbn [conn.chans conn.workers].
      rewrite !lookup_insert_is_Some. intros [<- | [Hne H]]; [left; reflexivity |].
      right. split; [exact Hne | exact (Hs Hc _ H)].
  - apply Worker_step_Exited in Hst as ->.
    split; [| discriminate].
    destruct Hw as (Hlive & Hinj & Hb). split; [| split]; assumption.
  - split; [exact Hw | discriminate].
Qed.

Lemma steps_invariant (s s' : bool * conn.Factory) :
  invariant s -> rtc conn.step s s' -> invariant s'.
Proof.
  intros Hi Hsteps. induction Hsteps as [| s1 s2 s3 Hstep _ IH]; [exact Hi |].
  apply IH. eapply step_invariant; eauto.
Qed.

(** The runs of [run_events] are runs of the program. *)
Lemma run_events_steps (ctxDone : bool) (events : list conn.Event)
    (factory factory' : conn.Factory) :
  conn.run_events factory events = conn.Returned factory' ->
  rtc conn.step (ctxDone, factory) (ctxDone, factory').
Proof.
  revert factory. induction events as [| e events IH]; intros factory; cbn.
  - intros [= <-]. reflexivity.
  - destruct (conn.ProcessActiveTrackers factory e) as [f1 | |] eqn:E; try discriminate.
    intros H. eapply rtc_l; [eapply conn.step_event; exact E | apply IH; exact H].
Qed.

(** X5: in every state the program reaches, whatever events were handled
    and whatever the workers received in between, a connection of the
    factory has an open channel of capacity 1000 in the store, with at most
    1000 events queued, shared with no other connection, and, as long as
    the context is live, its worker; and the [close] event of that
    connection returns, leaving the channel closed with its queue, and the
    connection gone. *)
Theorem live_connection (ctxDone : bool) (factory : conn.Factory)
    (id : conn.ID) (l : conn.loc) :
  conn.reachable (ctxDone, factory) ->
  conn.connections factory !! id = Some l ->
  exists ch,
    conn.chans factory !! l = Some ch /\
    conn.closed ch = false /\
    conn.capacity ch = 1000%nat /\
    (length (conn.buf ch) <= 1000)%nat /\
    (ctxDone = false -> is_Some (conn.workers factory !! l)) /\
    (forall id', conn.connections factory !! id' = Some l -> id' = id) /\
    exists factory',
      conn.ProcessActiveTrackers factory (conn.CloseEvent id) = conn.Returned factory' /\
      conn.connections factory' !! id = None /\
      conn.chans factory' !! l = Some (conn.Chan (conn.buf ch) 1000 true).
Proof.
  intros Hrun Hl.
  destruct (steps_invariant _ _ NewFactory_invariant Hrun) as [(Hlive & Hinj & Hb) Hs].
  cbn [fst snd] in *.
  destruct (Hlive _ _ Hl) as (ch & Hch & Hopen). destruct (Hb _ _ Hch) as [Hcap Hlen].
  exists ch. repeat (split; [assumption |]).
  split. { intros Hc. apply (Hs Hc). eauto. }
  split. { intros id' H. eapply Hinj; eauto. }
  eexists. cbn [conn.ProcessActiveTrackers]. rewrite Hl. cbn [mbind option_bind].
  rewrite Hch. unfold conn.close. rewrite Hopen. split; [reflexivity |].
  cbn [conn.connections conn.chans]. rewrite lookup_delete_eq, lookup_insert_eq, Hcap.
  split; reflexivity.
Qed.

End program_facts.

(** After [open(42)] and a [data] event the worker of the connection
    receives the event: the queue is empty again. *)
Lemma received42_reachable : @conn.reachable bytes_externals (false, received42).
Proof.
  unfold conn.reachable.
  eapply rtc_r.
  - apply (run_events_steps false [conn.OpenEvent 42; conn.DataEvent data42]
             conn.NewFactory (queue42 1)).
    vm_compute. reflexivity.
  - apply (@conn.step_worker bytes_externals false (queue42 1) 0%nat
             (conn.Chan [data42] 1000 false) conn.initial None
             (conn.Chan [] 1000 false) (conn.Locals 0 (conn.Msg data42) []));
      [reflexivity | reflexivity |].
    eapply conn.step_continue with (sel := conn.RecvCase data42);
      [left; reflexivity | reflexivity].
Qed.

Lemma live_connection_witness :
  @conn.reachable bytes_externals (false, received42) /\
  conn.connections received42 !! 42 = Some 0%nat /\
  exists ch,
    conn.chans received42 !! 0%nat = Some ch /\
    conn.closed ch = false /\
    conn.capacity ch = 1000%nat /\
    (length (conn.buf ch) <= 1000)%nat /\
    (false = false -> is_Some (conn.workers received42 !! 0%nat)) /\
    (forall id', conn.connections received42 !! id' = Some 0%nat -> id' = 42) /\
    exists factory',
      conn.ProcessActiveTrackers received42 (conn.CloseEvent 42) = conn.Returned factory' /\
      conn.connections factory' !! 42 = None /\
      conn.chans factory' !! 0%nat = Some (conn.Chan (conn.buf ch) 1000 true).
Proof.
  assert (conn.connections received42 !! 42 = Some 0%nat) as Hl by reflexivity.
  split; [exact received42_reachable |]. split; [exact Hl |].
  exact (@live_connection bytes_externals false received42 42 0%nat
           received42_reachable Hl).
Defined.

(** X6: once the [close] event of a connection has returned, a second
    [close] event for it panics (it closes a nil channel), and a [data]
    event for it is suspended for ever on a nil channel. *)
Theorem events_after_close (factory factory' : conn.Factory) (id : conn.ID) :
  conn.ProcessActiveTrackers factory (conn.CloseEvent id) = conn.Returned factory' ->
  conn.ProcessActiveTrackers factory' (conn.CloseEvent id)
  = conn.Panicked "close of nil channel" /\
  forall dataEvent, conn.ConnID dataEvent = id ->
    conn.ProcessActiveTrackers factory' (conn.DataEvent dataEvent) = conn.Blocked.
Proof.
  cbn [conn.ProcessActiveTrackers]. intros H.
  destruct (conn.close _) as [c | |] eqn:Hc; try discriminate. injection H as <-.
  cbn [conn.connections conn.chans]. rewrite lookup_delete_eq. cbn.
  split; [reflexivity |]. intros ev ->. rewrite lookup_delete_eq. reflexivity.
Qed.

Lemma events_after_close_witness :
  conn.ProcessActiveTrackers (queue42 1) (conn.CloseEvent 42)
  = conn.Returned {| conn.connections := delete 42 (conn.connections (queue42 1));
                     conn.chans := <[0%nat := conn.Chan [data42] 1000 true]>
                                     (conn.chans (queue42 1));
                     conn.workers := conn.workers (queue42 1) |} /\
  conn.ProcessActiveTrackers
    {| conn.connections := delete 42 (conn.connections (queue42 1));
       conn.chans := <[0%nat := conn.Chan [data42] 1000 true]> (conn.chans (queue42 1));
       conn.workers := conn.workers (queue42 1) |} (conn.CloseEvent 42)
  = conn.Panicked "close of nil channel".
Proof.
  assert (conn.ProcessActiveTrackers (queue42 1) (conn.CloseEvent 42)
          = conn.Returned {| conn.connections := delete 42 (conn.connections (queue42 1));
                             conn.chans := <[0%nat := conn.Chan [data42] 1000 true]>
                                             (conn.chans (queue42 1));
                             conn.workers := conn.workers (queue42 1) |}) as H
    by reflexivity.
  split; [exact H |]. exact (proj1 (events_after_close _ _ _ H)).
Defined.

(** A channel that no connection has is left alone by every event. *)
Lemma ProcessActiveTrackers_frame (factory factory' : conn.Factory)
    (event : conn.Event) (l : conn.loc) :
  well_formed factory ->
  is_Some (conn.chans factory !! l) ->
  unreferenced l factory ->
  conn.ProcessActiveTrackers factory event = conn.Returned factory' ->
  conn.chans factory' !! l = conn.chans factory !! l /\ unreferenced l factory'.
Proof.
  intros Hw Hl Hun HP.
  destruct event as [id | ev | id |]; cbn [conn.ProcessActiveTrackers] in HP.
  - injection HP as <-. cbn [conn.connections conn.chans].
    pose proof (fresh_chan _ _ Hl) as Hne. split.
    + apply lookup_insert_ne. congruence.
    + intros id'. cbn [conn.connections].
      destruct (decide (id = id')) as [-> | Hn].
      * rewrite lookup_insert_eq. congruence.
      * rewrite lookup_insert_ne by exact Hn. apply Hun.
  - destruct (conn.send _ ev) as [c | |] eqn:Hs; try discriminate.
    injection HP as <-.
    apply send_lookup in Hs as (l0 & c0 & Hl0 & Hc0 & Hopen & ->).
    rewrite Hl0. cbn [conn.connections conn.chans]. split; [| exact Hun].
    apply lookup_insert_ne. intros ->. exact (Hun _ Hl0).
  - destruct (conn.close _) as [c | |] eqn:Hs; try discriminate.
    injection HP as <-.
    apply close_lookup in Hs as (l0 & c0 & Hl0 & Hc0 & Hopen & ->).
    rewrite Hl0. cbn [conn.connections conn.chans]. split.
    + apply lookup_insert_ne. intros ->. exact (Hun _ Hl0).
    + intros id' H. cbn [conn.connections] in H.
      apply lookup_delete_Some in H as [_ H]. exact (Hun _ H).
  - injection HP as <-. split; [reflexivity | exact Hun].
Qed.

Section orphans.

Context {ext : conn.Externals}.

(** A channel that no connection has stays so, and only shrinks. *)
Lemma step_orphan (s s' : bool * conn.Factory) (l : conn.loc) (ch : conn.chan) :
  invariant s ->
  unreferenced l s.2 ->
  (exists ch1, conn.chans s.2 !! l = Some ch1 /\ drained ch ch1) ->
  conn.step s s' ->
  unreferenced l s'.2 /\
  exists ch2, conn.chans s'.2 !! l = Some ch2 /\ drained ch ch2.
Proof.
  intros [Hw _] Hun (ch1 & Hch1 & Hd) Hstep.
  destruct Hstep as [c f e f' HP | c f l0 ch0 w e ch' w' Hch Hwk Hst | c f l0 ch0 w Hch Hwk Hst | f];
    cbn [fst snd] in *.
  - destruct (ProcessActiveTrackers_frame _ _ _ _ Hw ltac:(eauto) Hun HP) as [Hsame Hun'].
    split; [exact Hun' |]. exists ch1. rewrite Hsame. auto.
  - split; [exact Hun |]. cbn [conn.chans].
    destruct (decide (l = l0)) as [-> | Hne].
    + rewrite lookup_insert_eq. eexists. split; [reflexivity |].
      apply Worker_step_drained in Hst. rewrite Hch in Hch1. injection Hch1 as <-.
      eapply drained_trans; eauto.
    + rewrite lookup_insert_ne by congruence. eauto.
  - split; [exact Hun |]. eauto.
  - split; [exact Hun |]. eauto.
Qed.

Lemma steps_orphan (s s' : bool * conn.Factory) (l : conn.loc) (ch : conn.chan) :
  invariant s ->
  unreferenced l s.2 ->
  (exists ch1, conn.chans s.2 !! l = Some ch1 /\ drained ch ch1) ->
  rtc conn.step s s' ->
  unreferenced l s'.2 /\
  exists ch2, conn.chans s'.2 !! l = Some ch2 /\ drained ch ch2.
Proof.
  intros Hi Hun Hch Hsteps. induction Hsteps as [| s1 s2 s3 Hstep _ IH]; [auto |].
  destruct (step_orphan _ _ _ _ Hi Hun Hch Hstep) as [Hun' Hch'].
  apply IH; [eapply step_invariant; eauto | exact Hun' | exact Hch'].
Qed.

(** X7: an [open] event for a connection that is already open gives it a
    new channel and a new worker, and the channel it had is orphaned:
    whatever the program does next, no connection has it, it is not closed
    and nothing is sent on it, so its queue only shrinks as its worker
    receives, and, as long as the context is live, that worker is still
    there: the [close] of the connection never reaches it. *)
Theorem reopen_orphans_channel (ctxDone ctxDone' : bool)
    (factory opened factory' : conn.Factory) (id : conn.ID) (l : conn.loc)
    (ch : conn.chan) :
  conn.reachable (ctxDone, factory) ->
  conn.connections factory !! id = Some l ->
  conn.chans factory !! l = Some ch ->
  conn.ProcessActiveTrackers factory (conn.OpenEvent id) = conn.Returned opened ->
  rtc conn.step (ctxDone, opened) (ctxDone', factory') ->
  unreferenced l factory' /\
  (exists ch', conn.chans factory' !! l = Some ch' /\
               conn.closed ch' = false /\
               conn.capacity ch' = conn.capacity ch /\
               conn.buf ch' `suffix_of` conn.buf ch) /\
  (ctxDone' = false -> is_Some (conn.workers factory' !! l)).
Proof.
  intros Hrun Hl Hch E Hafter.
  pose proof (steps_invariant _ _ NewFactory_invariant Hrun) as Hi.
  assert (invariant (ctxDone, opened)) as Hi1
    by (eapply step_invariant; [exact Hi | eapply conn.step_event; exact E]).
  destruct Hi as [(Hlive & Hinj & Hb) _]. cbn [fst snd] in *.
  destruct (Hlive _ _ Hl) as (ch0 & Hch0 & Hopen).
  rewrite Hch in Hch0. injection Hch0 as <-.
  cbn [conn.ProcessActiveTrackers] in E. injection E as <-.
  set (f1 := {| conn.connections := _ |}) in *.
  assert (conn.chans f1 !! l = Some ch) as Hch1.
  { unfold f1. cbn [conn.chans]. rewrite lookup_insert_ne; [exact Hch |].
    intros E. symmetry in E. revert E. apply fresh_chan. eauto. }
  assert (unreferenced l f1) as Hun1.
  { intros id'. unfold f1. cbn [conn.connections].
    destruct (decide (id = id')) as [-> | Hn].
    - rewrite lookup_insert_eq. intros [= E]. revert E. apply not_eq_sym, fresh_chan. eauto.
    - rewrite lookup_insert_ne by exact Hn. intros H. apply Hn. eapply Hinj; eauto. }
  destruct (steps_orphan (ctxDone, f1) (ctxDone', factory') l ch Hi1 Hun1) as [Hun Hch'];
    [exists ch; split; [exact Hch1 | apply drained_refl] | exact Hafter |].
  cbn [fst snd] in *. destruct Hch' as (ch' & Hch' & Hclosed & Hcap & Hsuf).
  split; [exact Hun |]. split.
  - exists ch'. repeat split; auto. congruence.
  - intros Hc. destruct (steps_invariant _ _ Hi1 Hafter) as [_ Hs].
    apply (Hs Hc). eauto.
Qed.

End orphans.

Lemma reopen_orphans_channel_witness :
  @conn.reachable bytes_externals (false, queue42 1) /\
  conn.connections (queue42 1) !! 42 = Some 0%nat /\
  conn.chans (queue42 1) !! 0%nat = Some (conn.Chan [data42] 1000 false) /\
  conn.ProcessActiveTrackers (queue42 1) (conn.OpenEvent 42) = conn.Returned reopened42 /\
  @rtc _ (@conn.step bytes_externals) (false, reopened42) (false, orphaned42) /\
  unreferenced 0%nat orphaned42 /\
  (exists ch', conn.chans orphaned42 !! 0%nat = Some ch' /\
               conn.closed ch' = false /\
               conn.capacity ch' = 1000%nat /\
               conn.buf ch' `suffix_of` [data42]) /\
  (false = false -> is_Some (conn.workers orphaned42 !! 0%nat)).
Proof.
  assert (@conn.reachable bytes_externals (false, queue42 1)) as Hrun.
  { apply (run_events_steps false [conn.OpenEvent 42; conn.DataEvent data42]).
    vm_compute. reflexivity. }
  assert (conn.ProcessActiveTrackers (queue42 1) (conn.OpenEvent 42)
          = conn.Returned reopened42) as Hopen by (vm_compute; reflexivity).
  assert (@rtc _ (@conn.step bytes_externals) (false, reopened42) (false, orphaned42))
    as Hafter.
  { eapply rtc_l; [| eapply rtc_l; [| apply rtc_refl]].
    - apply (@conn.step_worker bytes_externals false reopened42 0%nat
               (conn.Chan [data42] 1000 false) conn.initial None
               (conn.Chan [] 1000 false) (conn.Locals 0 (conn.Msg data42) []));
        [reflexivity | reflexivity |].
      eapply conn.step_continue with (sel := conn.RecvCase data42);
        [left; reflexivity | reflexivity].
    - apply (conn.step_event false _ (conn.CloseEvent 42)). vm_compute. reflexivity. }
  split; [exact Hrun |]. split; [reflexivity |]. split; [reflexivity |].
  split; [exact Hopen |]. split; [exact Hafter |].
  exact (@reopen_orphans_channel bytes_externals false false (queue42 1) reopened42
           orphaned42 42 0%nat (conn.Chan [data42] 1000 false)
           Hrun eq_refl eq_refl Hopen Hafter).
Defined.

(** ** Package [conn]: the worker *)

Section worker_more.

Context {ext : conn.Externals}.

Lemma Worker_iter_grows (w w' : conn.locals) (sel : conn.selected)
    (e : option conn.TestCase) :
  conn.Worker_iter w sel = conn.Continue w' e ->
  conn.req w `prefix_of` conn.req w' /\ conn.res w `prefix_of` conn.res w'.
Proof.
  assert (forall (c1 : bool) (l m : list byte),
            l `prefix_of` (if c1 then l ++ m else l)) as Hp1
    by (intros [] l m; try reflexivity; apply prefix_app_r; reflexivity).
  assert (forall (c1 c2 : bool) (l m : list byte),
            l `prefix_of` (if c1 then l else if c2 then l ++ m else l)) as Hp2
    by (intros [] [] l m; try reflexivity; apply prefix_app_r; reflexivity).
  destruct sel as [ev | |]; cbn [conn.Worker_iter]; [| | discriminate].
  - destruct (_ && _); [destruct (conn.parse_and_capture _ _) |];
      try discriminate; intros [= <- <-]; cbn [conn.req conn.res];
      (split; [apply Hp1 | apply Hp2]).
  - destruct (_ =? _); [destruct (conn.parse_and_capture _ _) |];
      try discriminate; intros [= <- <-]; cbn [conn.req conn.res];
      split; reflexivity.
Qed.

Lemma Worker_step_grows (ctxDone : bool) (ch ch' : conn.chan) (w w' : conn.locals)
    (e : option conn.TestCase) :
  conn.Worker_step ctxDone (conn.Running ch w) e (conn.Running ch' w') ->
  conn.req w `prefix_of` conn.req w' /\ conn.res w `prefix_of` conn.res w'.
Proof.
  intros H. inversion H; subst. eapply Worker_iter_grows; eauto.
Qed.

Lemma Worker_steps_grow_gen (ctxDone : bool) (g g' : conn.goroutine)
    (out : list conn.TestCase) :
  conn.Worker_steps ctxDone g out g' ->
  forall ch w ch' w', g = conn.Running ch w -> g' = conn.Running ch' w' ->
  conn.req w `prefix_of` conn.req w' /\ conn.res w `prefix_of` conn.res w'.
Proof.
  induction 1 as [g | g1 e g2 out g3 Hstep Hsteps IH]; intros ch w ch' w' Eg Eg'.
  - subst. injection Eg' as <- <-. split; reflexivity.
  - subst g1 g3. destruct g2 as [ch2 w2 | |].
    + destruct (Worker_step_grows _ _ _ _ _ _ Hstep) as [H1 H2].
      destruct (IH ch2 w2 ch' w' eq_refl eq_refl) as [H3 H4].
      split; etransitivity; eauto.
    + inversion Hsteps as [| ? ? ? ? ? Hs]; subst. inversion Hs.
    + inversion Hsteps as [| ? ? ? ? ? Hs]; subst. inversion Hs.
Qed.

(** X8: the worker never clears its accumulators: along any run, also
    across the test cases it sends, the request bytes and the response
    bytes it held are a prefix of those it holds later. *)
Theorem Worker_steps_grow (ctxDone : bool) (ch ch' : conn.chan) (w w' : conn.locals)
    (out : list conn.TestCase) :
  conn.Worker_steps ctxDone (conn.Running ch w) out (conn.Running ch' w') ->
  conn.req w `prefix_of` conn.req w' /\ conn.res w `prefix_of` conn.res w'.
Proof.
  intros H. eapply Worker_steps_grow_gen; eauto.
Qed.

(** X9: a test case is sent only by an iteration that starts with
    [lastEventType] equal to [EgressTraffic], that is right after an egress
    event; and, the direction constants being distinct and egress not
    being [-1], the iteration that follows a send never sends: between two
    test cases there is an egress event. *)
Theorem Worker_sends_after_egress (w w' : conn.locals) (sel : conn.selected)
    (tc : conn.TestCase) :
  conn.IngressTraffic <> conn.EgressTraffic ->
  conn.EgressTraffic <> -1 ->
  conn.Worker_iter w sel = conn.Continue w' (Some tc) ->
  conn.lastEventType w = conn.EgressTraffic /\
  forall sel', sends (conn.Worker_iter w' sel') = false.
Proof.
  intros Hie He H.
  assert (conn.lastEventType w = conn.EgressTraffic /\
          conn.lastEventType w' <> conn.EgressTraffic) as [Hlast Hnext].
  { destruct sel as [ev | |]; cbn [conn.Worker_iter] in H; [| | discriminate].
    - destruct (Z.eqb_spec (conn.Direction ev) conn.IngressTraffic) as [Hd |];
        [| discriminate].
      destruct (Z.eqb_spec (conn.lastEventType w) conn.EgressTraffic) as [Hl |];
        [| discriminate].
      cbn [andb] in H. destruct (conn.parse_and_capture _ _); try discriminate.
      injection H as <- _. cbn [conn.lastEventType]. split; congruence.
    - destruct (Z.eqb_spec (conn.lastEventType w) conn.EgressTraffic) as [Hl |];
        [| discriminate].
      destruct (conn.parse_and_capture _ _); try discriminate.
      injection H as <- _. cbn [conn.lastEventType]. split; congruence. }
  split; [exact Hlast |]. intros sel'.
  destruct sel' as [ev | |]; cbn [conn.Worker_iter]; [| | reflexivity].
  - replace (conn.lastEventType w' =? conn.EgressTraffic) with false
      by (symmetry; apply Z.eqb_neq; exact Hnext).
    rewrite andb_false_r. reflexivity.
  - replace (conn.lastEventType w' =? conn.EgressTraffic) with false
      by (symmetry; apply Z.eqb_neq; exact Hnext).
    reflexivity.
Qed.

End worker_more.

Lemma Worker_steps_grow_witness :
  let w := conn.Locals 1 get_request ok_response in
  let w' := conn.Locals 0 (get_request ++ next_request) ok_response in
  let dataEvent := {| conn.ConnID := 42; conn.Direction := 0; conn.Msg := next_request |} in
  let tc := {| conn.HTTPReq := get_request ++ next_request;
               conn.HTTPReq_Body := get_request ++ next_request;
               conn.HTTPResp := ok_response;
               conn.HTTPResp_Body := ok_response |} in
  conn.Worker_steps false (conn.Running (conn.Chan [dataEvent] 1000 false) w) [tc]
    (conn.Running (conn.Chan [] 1000 false) w') /\
  conn.req w `prefix_of` conn.req w' /\ conn.res w `prefix_of` conn.res w'.
Proof.
  intros w w' dataEvent tc.
  assert (conn.Worker_steps false (conn.Running (conn.Chan [dataEvent] 1000 false) w) [tc]
            (conn.Running (conn.Chan [] 1000 false) w')) as H.
  { apply (conn.steps_cons false _ (Some tc) (conn.Running (conn.Chan [] 1000 false) w') []).
    - apply (conn.step_continue false _ w (conn.RecvCase dataEvent)); [left |]; reflexivity.
    - apply conn.steps_nil. }
  split; [exact H |].
  exact (@Worker_steps_grow bytes_externals false _ _ _ _ _ H).
Defined.

Lemma Worker_sends_after_egress_witness :
  let w := conn.Locals 1 get_request ok_response in
  let w' := conn.Locals 0 (get_request ++ next_request) ok_response in
  let sel := conn.RecvCase {| conn.ConnID := 42; conn.Direction := 0;
                              conn.Msg := next_request |} in
  let tc := {| conn.HTTPReq := get_request ++ next_request;
               conn.HTTPReq_Body := get_request ++ next_request;
               conn.HTTPResp := ok_response;
               conn.HTTPResp_Body := ok_response |} in
  conn.Worker_iter w sel = conn.Continue w' (Some tc) /\
  conn.lastEventType w = conn.EgressTraffic /\
  forall sel', sends (conn.Worker_iter w' sel') = false.
Proof.
  intros w w' sel tc.
  assert (conn.Worker_iter w sel = conn.Continue w' (Some tc)) as H by reflexivity.
  split; [exact H |].
  apply (@Worker_sends_after_egress bytes_externals w w' sel tc);
    [discriminate | discriminate | exact H].
Defined.

(** ** Package [mysql]: length-encoded integers *)

Lemma byte_to_Z_of_Z (z : Z) : byte_to_Z (byte_of_Z z) = z mod 256.
Proof.
  unfold byte_of_Z, byte_to_Z.
  pose proof (Z.mod_pos_bound z 256 ltac:(lia)) as Hr.
  destruct (Byte.of_N (Z.to_N (z mod 256))) as [b |] eqn:E.
  - apply Byte.to_of_N in E. unfold default. cbn. rewrite E. lia.
  - apply Byte.of_N_None_iff in E. lia.
Qed.

Lemma le_value_le_bytes (n : nat) (v : Z) :
  le_value (le_bytes n v) = v mod 256 ^ Z.of_nat n.
Proof.
  revert v. induction n as [| n IH]; intros v.
  - cbn. now rewrite Z.mod_1_r.
  - cbn [le_bytes le_value fold_right]. fold (le_value (le_bytes n (v / 256))).
    rewrite IH, byte_to_Z_of_Z, Nat2Z.inj_succ, Z.pow_succ_r by lia.
    assert (0 < 256 ^ Z.of_nat n) by (apply Z.pow_pos_nonneg; lia).
    rewrite Z.rem_mul_r by lia. reflexivity.
Qed.

Lemma le_value_bound (l : list byte) : 0 <= le_value l < 256 ^ Z.of_nat (length l).
Proof.
  induction l as [| b l IH]; cbn [le_value fold_right length]; [cbn; lia |].
  fold (le_value l). pose proof (byte_to_Z_range b).
  rewrite Nat2Z.inj_succ, Z.pow_succ_r by lia.
  assert (0 < 256 ^ Z.of_nat (length l)) by (apply Z.pow_pos_nonneg; lia). nia.
Qed.

Lemma LittleEndian_Uint16_value b0 b1 sp :
  LittleEndian_Uint16 (Slice [b0; b1] sp) = Ok (le_value [b0; b1]).
Proof.
  change (LittleEndian_Uint16 (Slice [b0; b1] sp))
    with (Ok (Z.lor (byte_to_Z b0) (Z.shiftl (byte_to_Z b1) 8)) : go Z).
  pose proof (byte_to_Z_range b0).
  rewrite lor_shiftl_add by lia. cbn [le_value fold_right]. f_equal. lia.
Qed.

Lemma lor3_value (b1 b2 b3 : byte) :
  Z.lor (Z.lor (byte_to_Z b1) (Z.shiftl (byte_to_Z b2) 8)) (Z.shiftl (byte_to_Z b3) 16)
  = le_value [b1; b2; b3].
Proof.
  pose proof (byte_to_Z_range b1). pose proof (byte_to_Z_range b2).
  rewrite (lor_shiftl_add (byte_to_Z b1)) by lia.
  rewrite (lor_shiftl_add _ (byte_to_Z b3)) by lia. cbn [le_value fold_right]. lia.
Qed.

Lemma LittleEndian_Uint64_value b0 b1 b2 b3 b4 b5 b6 b7 sp :
  LittleEndian_Uint64 (Slice [b0; b1; b2; b3; b4; b5; b6; b7] sp)
  = Ok (le_value [b0; b1; b2; b3; b4; b5; b6; b7]).
Proof.
  change (LittleEndian_Uint64 (Slice [b0; b1; b2; b3; b4; b5; b6; b7] sp))
    with (Ok (Z.lor (Z.lor (Z.lor (Z.lor (Z.lor (Z.lor (Z.lor
        (byte_to_Z b0) (Z.shiftl (byte_to_Z b1) 8))
        (Z.shiftl (byte_to_Z b2) 16)) (Z.shiftl (byte_to_Z b3) 24))
        (Z.shiftl (byte_to_Z b4) 32)) (Z.shiftl (byte_to_Z b5) 40))
        (Z.shiftl (byte_to_Z b6) 48)) (Z.shiftl (byte_to_Z b7) 56)) : go Z).
  pose proof (byte_to_Z_range b0). pose proof (byte_to_Z_range b1).
  pose proof (byte_to_Z_range b2). pose proof (byte_to_Z_range b3).
  pose proof (byte_to_Z_range b4). pose proof (byte_to_Z_range b5).
  pose proof (byte_to_Z_range b6). pose proof (byte_to_Z_range b7).
  rewrite (lor_shiftl_add (byte_to_Z b0)) by lia.
  rewrite (lor_shiftl_add _ (byte_to_Z b2)) by lia.
  rewrite (lor_shiftl_add _ (byte_to_Z b3)) by lia.
  rewrite (lor_shiftl_add _ (byte_to_Z b4)) by lia.
  rewrite (lor_shiftl_add _ (byte_to_Z b5)) by lia.
  rewrite (lor_shiftl_add _ (byte_to_Z b6)) by lia.
  rewrite (lor_shiftl_add _ (byte_to_Z b7)) by lia.
  cbn [le_value fold_right]. f_equal. lia.
Qed.

(** [decodeLengthEncodedInteger] never panics: on every slice it computes
    [lenenc_decode] of the visible bytes. *)
Lemma decodeLengthEncodedInteger_eq (l sp : list byte) :
  mysql.decodeLengthEncodedInteger (Slice l sp) = Ok (lenenc_decode l).
Proof.
  unfold mysql.decodeLengthEncodedInteger.
  destruct l as [| b0 t]; [reflexivity |].
  replace (len _ =? 0) with false by (symmetry; apply Z.eqb_neq; bounds).
  rewrite (index_ok _ 0) by bounds. norm. cbn [nth lenenc_decode].
  destruct (byte_to_Z b0 =? 251); [reflexivity |].
  destruct (byte_to_Z b0 =? 252).
  { destruct t as [| b1 [| b2 t]]; try reflexivity.
    replace (len _ <? 3) with false by (symmetry; apply Z.ltb_ge; bounds).
    rewrite slice_range_ok by bounds. norm.
    rewrite LittleEndian_Uint16_value. reflexivity. }
  destruct (byte_to_Z b0 =? 253).
  { destruct t as [| b1 [| b2 [| b3 t]]]; try reflexivity.
    replace (len _ <? 4) with false by (symmetry; apply Z.ltb_ge; bounds).
    rewrite !index_ok by bounds. norm. cbn [nth]. rewrite lor3_value. reflexivity. }
  destruct (byte_to_Z b0 =? 254); [| reflexivity].
  do 8 (destruct t as [| ? t]; [reflexivity |]).
  replace (len _ <? 9) with false by (symmetry; apply Z.ltb_ge; bounds).
  rewrite slice_range_ok by bounds. norm.
  rewrite LittleEndian_Uint64_value. reflexivity.
Qed.

(** X10: [decodeLengthEncodedInteger] never panics and never reads past
    the end: it returns a number of bytes read between 0 and the length of
    the slice, which is 0, 1, 3, 4 or 9.  The length is 0 when the integer
    is null or nothing was read, lies in [0, 2^24) unless 9 bytes were
    read, and is negative only in that case, when the top bit of the
    64-bit value is set. *)
Theorem decodeLengthEncodedInteger_bounds (b : slice) :
  exists (length : Z) (isNull : bool) (bytesRead : Z),
    mysql.decodeLengthEncodedInteger b = Ok (length, isNull, bytesRead) /\
    0 <= bytesRead <= len b /\
    In bytesRead [0; 1; 3; 4; 9] /\
    (isNull = true \/ bytesRead = 0 -> length = 0) /\
    (bytesRead <> 9 -> 0 <= length < 2 ^ 24) /\
    - 2 ^ 63 <= length < 2 ^ 63.
Proof.
  destruct b as [l sp]. rewrite decodeLengthEncodedInteger_eq.
  unfold len. cbn [elems].
  assert (forall t : list byte, - 2 ^ 63 <= int_of_uint64 (le_value t) < 2 ^ 63) as Hint.
  { intros t. unfold int_of_uint64.
    pose proof (Z.mod_pos_bound (le_value t) (2 ^ 64) ltac:(lia)).
    destruct (_ <? _) eqn:E; [apply Z.ltb_lt in E | apply Z.ltb_ge in E]; lia. }
  destruct l as [| b0 t]; cbn [lenenc_decode].
  { eexists _, _, _. split; [reflexivity |]. cbn. intuition lia. }
  pose proof (byte_to_Z_range b0).
  destruct (byte_to_Z b0 =? 251).
  { eexists _, _, _. split; [reflexivity |]. cbn [length In]. intuition lia. }
  destruct (byte_to_Z b0 =? 252).
  { destruct t as [| b1 [| b2 t]];
      (eexists _, _, _; split; [reflexivity |]); cbn [length In];
      try (intuition (discriminate || lia)).
    pose proof (le_value_bound [b1; b2]). cbn [length] in *.
    intuition (discriminate || lia). }
  destruct (byte_to_Z b0 =? 253).
  { destruct t as [| b1 [| b2 [| b3 t]]];
      (eexists _, _, _; split; [reflexivity |]); cbn [length In];
      try (intuition (discriminate || lia)).
    pose proof (le_value_bound [b1; b2; b3]). cbn [length] in *.
    intuition (discriminate || lia). }
  destruct (byte_to_Z b0 =? 254).
  { do 8 (destruct t as [| ? t];
          [eexists _, _, _; split; [reflexivity |]; cbn [length In];
           intuition (discriminate || lia) |]).
    eexists _, _, _. split; [reflexivity |]. cbn [length In].
    pose proof (Hint [b; b1; b2; b3; b4; b5; b6; b7]).
    intuition (discriminate || lia). }
  eexists _, _, _. split; [reflexivity |]. cbn [length In].
  intuition (discriminate || lia).
Qed.

Lemma lenenc_decode_lenenc (v : Z) (rest : list byte) :
  0 <= v < 2 ^ 63 ->
  lenenc_decode (lenenc v ++ rest) = (v, false, Z.of_nat (length (lenenc v))).
Proof.
  intros Hv. unfold lenenc.
  destruct (Z.ltb_spec v 251).
  { cbn [app lenenc_decode length]. rewrite byte_to_Z_of_Z, Z.mod_small by lia.
    destruct (Z.eqb_spec v 251); [lia |]. destruct (Z.eqb_spec v 252); [lia |].
    destruct (Z.eqb_spec v 253); [lia |]. destruct (Z.eqb_spec v 254); [lia |].
    reflexivity. }
  destruct (Z.ltb_spec v (2 ^ 16)).
  { cbn [app lenenc_decode le_bytes length].
    change (byte_to_Z xfc =? 251) with false. change (byte_to_Z xfc =? 252) with true.
    cbn match. change [byte_of_Z v; byte_of_Z (v / 256)] with (le_bytes 2 v).
    rewrite le_value_le_bytes, Z.mod_small by (cbn; lia). reflexivity. }
  destruct (Z.ltb_spec v (2 ^ 24)).
  { cbn [app lenenc_decode le_bytes length].
    change (byte_to_Z xfd =? 251) with false. change (byte_to_Z xfd =? 252) with false.
    change (byte_to_Z xfd =? 253) with true. cbn match.
    change [byte_of_Z v; byte_of_Z (v / 256); byte_of_Z (v / 256 / 256)]
      with (le_bytes 3 v).
    rewrite le_value_le_bytes, Z.mod_small by (cbn; lia). reflexivity. }
  cbn [app lenenc_decode le_bytes length].
  change (byte_to_Z xfe =? 251) with false. change (byte_to_Z xfe =? 252) with false.
  change (byte_to_Z xfe =? 253) with false. change (byte_to_Z xfe =? 254) with true.
  cbn match.
  match goal with |- context [le_value ?l] => change l with (le_bytes 8 v) end.
  rewrite le_value_le_bytes, Z.mod_small by (cbn; lia).
  unfold int_of_uint64. rewrite Z.mod_small by lia.
  replace (v <? 2 ^ 63) with true by (symmetry; apply Z.ltb_lt; lia). reflexivity.
Qed.

(** X11: decoding MySQL's length-encoded form of any [v] in [0, 2^63)
    gives back [v], not null, and the number of bytes of the encoding,
    whatever follows it. *)
Theorem decodeLengthEncodedInteger_lenenc (v : Z) (rest sp : list byte) :
  0 <= v < 2 ^ 63 ->
  mysql.decodeLengthEncodedInteger (Slice (lenenc v ++ rest) sp)
  = Ok (v, false, Z.of_nat (length (lenenc v))).
Proof.
  intros Hv. rewrite decodeLengthEncodedInteger_eq. f_equal. now apply lenenc_decode_lenenc.
Qed.

Lemma decodeLengthEncodedInteger_lenenc_witness :
  0 <= 70000 < 2 ^ 63 /\
  lenenc 70000 = [xfd; x70; x11; x01] /\
  mysql.decodeLengthEncodedInteger (Slice (lenenc 70000 ++ [xaa]) [])
  = Ok (70000, false, Z.of_nat (length (lenenc 70000))).
Proof.
  split; [lia |]. split; [reflexivity |].
  apply (decodeLengthEncodedInteger_lenenc 70000 [xaa] []). lia.
Defined.

(** ** Package [mysql]: the header *)

Lemma uint32_le_value (b0 b1 b2 b3 : byte) :
  uint32_le b0 b1 b2 b3 = le_value [b0; b1; b2; b3].
Proof. unfold uint32_le, uint32_be. cbn [le_value fold_right]. lia. Qed.

(** X12: in every packet the decoder accepts, the capability flags and the
    maximal packet size are the little-endian values of bytes 0-3 and 4-7,
    both in [0, 2^32), the character set is byte 8 and [Reserved] holds
    the 23 bytes 9-31. *)
Theorem decodeHandshakeResponse_header (data : slice) (p : mysql.MySQLHandshakeResponse) :
  mysql.decodeHandshakeResponse data = Ok p ->
  exists hdr rest : list byte,
    elems data = hdr ++ rest /\ length hdr = 32%nat /\
    mysql.CapabilityFlags p = le_value (take 4 hdr) /\
    mysql.MaxPacketSize p = le_value (take 4 (drop 4 hdr)) /\
    mysql.CharacterSet p = nth 8 hdr x00 /\
    mysql.Reserved p = take 23 (drop 9 hdr) /\
    length (mysql.Reserved p) = 23%nat /\
    0 <= mysql.CapabilityFlags p < 2 ^ 32 /\
    0 <= mysql.MaxPacketSize p < 2 ^ 32.
Proof.
  unfold mysql.decodeHandshakeResponse. intros H.
  destruct (Z.ltb_spec (len data) 32) as [| Hlen]; [discriminate |].
  destruct (split_header data Hlen) as (hdr & rest & E & Hh).
  destruct data as [l sp]. cbn [elems spare] in *. subst l.
  rewrite decodeHeader_ok in H by exact Hh. cbn [mbind go_bind] in H.
  apply bind_Ok_inv in H as ([u d2] & _ & H).
  apply bind_Ok_inv in H as ([a d3] & _ & H).
  apply bind_Ok_inv in H as ([db d4] & _ & H).
  apply bind_Ok_inv in H as ([pl d5] & _ & H).
  apply bind_Ok_inv in H as ([attrs d6] & _ & H).
  apply bind_Ok_inv in H as (lv & _ & H).
  injection H as <-.
  cbn [mysql.CapabilityFlags mysql.MaxPacketSize mysql.CharacterSet mysql.Reserved].
  exists hdr, rest. split; [reflexivity |]. split; [exact Hh |].
  do 32 (destruct hdr as [| ? hdr]; [discriminate Hh |]).
  destruct hdr; [| discriminate Hh].
  unfold flags_of, max_packet_of. cbn [nth take drop firstn skipn].
  rewrite !uint32_le_value.
  pose proof (le_value_bound [b; b0; b1; b2]) as B1.
  pose proof (le_value_bound [b3; b4; b5; b6]) as B2.
  cbn [length] in B1, B2.
  repeat split; try reflexivity; lia.
Qed.

Lemma decodeHandshakeResponse_header_witness :
  mysql.decodeHandshakeResponse auth_legacy = Ok auth_legacy_packet /\
  exists hdr rest : list byte,
    elems auth_legacy = hdr ++ rest /\ length hdr = 32%nat /\
    mysql.CapabilityFlags auth_legacy_packet = le_value (take 4 hdr) /\
    mysql.MaxPacketSize auth_legacy_packet = le_value (take 4 (drop 4 hdr)) /\
    mysql.CharacterSet auth_legacy_packet = nth 8 hdr x00 /\
    mysql.Reserved auth_legacy_packet = take 23 (drop 9 hdr) /\
    length (mysql.Reserved auth_legacy_packet) = 23%nat /\
    0 <= mysql.CapabilityFlags auth_legacy_packet < 2 ^ 32 /\
    0 <= mysql.MaxPacketSize auth_legacy_packet < 2 ^ 32.
Proof.
  assert (mysql.decodeHandshakeResponse auth_legacy = Ok auth_legacy_packet) as H
    by (vm_compute; reflexivity).
  split; [exact H |]. exact (decodeHandshakeResponse_header _ _ H).
Defined.

(** ** Package [mysql]: well-formed packets *)

(** A packet whose authentication data has the one-byte length form is
    decoded field by field; what is left for the attributes and the zstd
    level is [tail]. *)
Lemma decode_fields (hdr user auth db plugin tail sp : list byte) :
  length hdr = 32%nat ->
  mysql.has_flag (flags_of hdr) mysql.CLIENT_PLUGIN_AUTH_LENENC_CLIENT_DATA = true ->
  ~ In x00 user -> ~ In x00 db -> ~ In x00 plugin ->
  (length auth < 256)%nat ->
  mysql.decodeHandshakeResponse
    (Slice (hdr ++ encode_fields (flags_of hdr) user auth db plugin ++ tail) sp) =
  '(attrs, data) ← mysql.decodeConnectAttrs (flags_of hdr) (Slice tail sp);
  level ← mysql.decodeZstd (flags_of hdr) data;
  Ok {| mysql.CapabilityFlags := flags_of hdr;
        mysql.MaxPacketSize := max_packet_of hdr;
        mysql.CharacterSet := nth 8 hdr x00;
        mysql.Reserved := take 23 (drop 9 hdr);
        mysql.Username := string_of_list_byte user;
        mysql.AuthData := auth;
        mysql.Database :=
          if mysql.has_flag (flags_of hdr) mysql.CLIENT_CONNECT_WITH_DB
          then string_of_list_byte db else EmptyString;
        mysql.AuthPluginName :=
          if mysql.has_flag (flags_of hdr) mysql.CLIENT_PLUGIN_AUTH
          then string_of_list_byte plugin else EmptyString;
        mysql.ConnectAttributes := attrs;
        mysql.ZstdCompressionLevel := level |}.
Proof.
  intros Hh Hlenenc Hu Hd Hp Ha.
  unfold mysql.decodeHandshakeResponse.
  replace (len _ <? 32) with false
    by (symmetry; apply Z.ltb_ge; unfold len; cbn [elems]; rewrite length_app; lia).
  rewrite decodeHeader_ok by exact Hh. cbn [mbind go_bind].
  rewrite decodeUsername_eq. cbn [elems spare]. unfold encode_fields.
  rewrite <- !app_assoc. cbn [app]. rewrite (split_nul_app user) by exact Hu.
  cbn [mbind go_bind].
  rewrite decodeAuthData_lenenc by exact Hlenenc. cbn [elems spare].
  rewrite byte_to_Z_of_Z, Z.mod_small by lia. rewrite <- !app_assoc.
  replace (Z.of_nat (length (auth ++ _)) <? Z.of_nat (length auth)) with false
    by (symmetry; apply Z.ltb_ge; rewrite length_app; lia).
  rewrite Nat2Z.id, take_app_length, drop_app_length. cbn [mbind go_bind].
  rewrite decodeDatabase_eq. cbn [elems spare].
  destruct (mysql.has_flag (flags_of hdr) mysql.CLIENT_CONNECT_WITH_DB).
  - rewrite <- !app_assoc. cbn [app]. rewrite (split_nul_app db) by exact Hd.
    cbn [mbind go_bind]. rewrite decodeAuthPluginName_eq. cbn [elems spare].
    destruct (mysql.has_flag (flags_of hdr) mysql.CLIENT_PLUGIN_AUTH).
    + rewrite <- !app_assoc. cbn [app]. rewrite (split_nul_app plugin) by exact Hp.
      reflexivity.
    + reflexivity.
  - cbn [app mbind go_bind]. rewrite decodeAuthPluginName_eq. cbn [elems spare].
    destruct (mysql.has_flag (flags_of hdr) mysql.CLIENT_PLUGIN_AUTH).
    + rewrite <- !app_assoc. cbn [app]. rewrite (split_nul_app plugin) by exact Hp.
      reflexivity.
    + reflexivity.
Qed.

(** X13: a packet with [CLIENT_PLUGIN_AUTH_LENENC_CLIENT_DATA] and without
    [CLIENT_CONNECT_ATTRS], made of any 32-byte header, a user name, a
    length byte and that many bytes of authentication data, and the
    database and plugin names that its flags call for, each name free of
    [0x00] and followed by one, is decoded into exactly these fields;
    of the bytes that follow, the first is the zstd level when
    [CLIENT_ZSTD_COMPRESSION_ALGORITHM] is set and the others are ignored. *)
Theorem decodeHandshakeResponse_fields (hdr user auth db plugin rest sp : list byte) :
  length hdr = 32%nat ->
  mysql.has_flag (flags_of hdr) mysql.CLIENT_PLUGIN_AUTH_LENENC_CLIENT_DATA = true ->
  mysql.has_flag (flags_of hdr) mysql.CLIENT_CONNECT_ATTRS = false ->
  ~ In x00 user -> ~ In x00 db -> ~ In x00 plugin ->
  (length auth < 256)%nat ->
  mysql.decodeHandshakeResponse
    (Slice (hdr ++ encode_fields (flags_of hdr) user auth db plugin ++ rest) sp) =
  Ok {| mysql.CapabilityFlags := flags_of hdr;
        mysql.MaxPacketSize := max_packet_of hdr;
        mysql.CharacterSet := nth 8 hdr x00;
        mysql.Reserved := take 23 (drop 9 hdr);
        mysql.Username := string_of_list_byte user;
        mysql.AuthData := auth;
        mysql.Database :=
          if mysql.has_flag (flags_of hdr) mysql.CLIENT_CONNECT_WITH_DB
          then string_of_list_byte db else EmptyString;
        mysql.AuthPluginName :=
          if mysql.has_flag (flags_of hdr) mysql.CLIENT_PLUGIN_AUTH
          then string_of_list_byte plugin else EmptyString;
        mysql.ConnectAttributes := None;
        mysql.ZstdCompressionLevel := zstd_level (flags_of hdr) rest |}.
Proof.
  intros Hh Hlenenc Hattrs Hu Hd Hp Ha.
  rewrite decode_fields by assumption.
  unfold mysql.decodeConnectAttrs. rewrite Hattrs. cbn [mbind go_bind].
  rewrite decodeZstd_level. reflexivity.
Qed.

Lemma decodeHandshakeResponse_fields_witness :
  length lenenc_header = 32%nat /\
  mysql.has_flag (flags_of lenenc_header) mysql.CLIENT_PLUGIN_AUTH_LENENC_CLIENT_DATA = true /\
  mysql.has_flag (flags_of lenenc_header) mysql.CLIENT_CONNECT_ATTRS = false /\
  mysql.decodeHandshakeResponse
    (Slice (lenenc_header
            ++ encode_fields (flags_of lenenc_header) (list_byte_of_string "root")
                 scramble (list_byte_of_string "test")
                 (list_byte_of_string "mysql_native_password") ++ []) []) =
  Ok {| mysql.CapabilityFlags := flags_of lenenc_header;
        mysql.MaxPacketSize := max_packet_of lenenc_header;
        mysql.CharacterSet := nth 8 lenenc_header x00;
        mysql.Reserved := take 23 (drop 9 lenenc_header);
        mysql.Username := string_of_list_byte (list_byte_of_string "root");
        mysql.AuthData := scramble;
        mysql.Database :=
          if mysql.has_flag (flags_of lenenc_header) mysql.CLIENT_CONNECT_WITH_DB
          then string_of_list_byte (list_byte_of_string "test") else EmptyString;
        mysql.AuthPluginName :=
          if mysql.has_flag (flags_of lenenc_header) mysql.CLIENT_PLUGIN_AUTH
          then string_of_list_byte (list_byte_of_string "mysql_native_password")
          else EmptyString;
        mysql.ConnectAttributes := None;
        mysql.ZstdCompressionLevel := zstd_level (flags_of lenenc_header) [] |}.
Proof.
  split; [reflexivity |]. split; [reflexivity |]. split; [reflexivity |].
  apply (decodeHandshakeResponse_fields lenenc_header (list_byte_of_string "root")
           scramble (list_byte_of_string "test")
           (list_byte_of_string "mysql_native_password") [] []);
    try reflexivity; try (cbn; intuition discriminate).
  cbn. lia.
Defined.

(** ** Package [mysql]: connection attributes *)

Lemma lenenc_decode_short (n : Z) (t : list byte) :
  0 <= n < 251 -> lenenc_decode (byte_of_Z n :: t) = (n, false, 1).
Proof.
  intros Hn. pose proof (lenenc_decode_lenenc n t ltac:(lia)) as H.
  unfold lenenc in H. replace (n <? 251) with true in H by (symmetry; apply Z.ltb_lt; lia).
  exact H.
Qed.

(** Reading [n] bytes off the front of a slice that starts with them. *)
Lemma read_bytes (k rest sp : list byte) :
  slice_to (Slice (k ++ rest) sp) (Z.of_nat (length k)) = Ok (Slice k (rest ++ sp)) /\
  slice_from (Slice (k ++ rest) sp) (Z.of_nat (length k)) = Ok (Slice rest sp).
Proof.
  split.
  - rewrite slice_to_ok by bounds. unfold backing. cbn [elems spare].
    rewrite Nat2Z.id, <- app_assoc, take_app_length, drop_app_length. reflexivity.
  - rewrite slice_from_ok by bounds. cbn [elems spare].
    rewrite Nat2Z.id, drop_app_length. reflexivity.
Qed.

Lemma attrPair_encode_attr (kv : string * string) (rest sp : list byte) :
  short_attr kv ->
  mysql.attrPair (Slice (encode_attr kv ++ rest) sp) = Ok (Slice rest sp, kv.1, kv.2).
Proof.
  intros [Hk Hv]. destruct kv as [k v]. cbn [fst snd] in *.
  unfold mysql.attrPair, encode_attr. cbn [fst snd app].
  rewrite decodeLengthEncodedInteger_eq, lenenc_decode_short by lia.
  cbn [mbind go_bind]. rewrite slice_from_ok by bounds. norm.
  rewrite <- !app_assoc. cbn [app].
  destruct (read_bytes (list_byte_of_string k)
              (byte_of_Z (Z.of_nat (length (list_byte_of_string v)))
               :: list_byte_of_string v ++ rest) sp) as [Hto Hfrom].
  rewrite Hto, Hfrom. cbn [mbind go_bind].
  rewrite decodeLengthEncodedInteger_eq, lenenc_decode_short by lia.
  cbn [mbind go_bind]. rewrite slice_from_ok by bounds. norm.
  destruct (read_bytes (list_byte_of_string v) rest sp) as [Hto' Hfrom'].
  rewrite Hto', Hfrom'. cbn [mbind go_bind].
  unfold to_string. cbn [elems]. rewrite !string_of_list_byte_of_string. reflexivity.
Qed.

Lemma attrLoop_encode_attrs (kvs : list (string * string)) (sp : list byte)
    (attrs : gmap string string) (fuel : nat) :
  Forall short_attr kvs ->
  (length (encode_attrs kvs) <= fuel)%nat ->
  mysql.attrLoop fuel (Slice (encode_attrs kvs) sp) attrs = Ok (attrs_map kvs attrs).
Proof.
  intros Hs. revert attrs fuel.
  induction Hs as [| kv kvs Hkv Hs IH]; intros attrs fuel Hfuel.
  - destruct fuel; reflexivity.
  - unfold encode_attrs in *. cbn [map concat] in *. rewrite length_app in Hfuel.
    assert (2 <= length (encode_attr kv))%nat as Hpair
      by (unfold encode_attr; cbn [length]; rewrite length_app; cbn [length]; lia).
    destruct fuel as [| fuel]; [lia |]. cbn [mysql.attrLoop].
    replace (0 <? len _) with true
      by (symmetry; apply Z.ltb_lt; unfold len; cbn [elems]; rewrite length_app; lia).
    unfold mysql.attrBody. cbn [fst snd].
    rewrite attrPair_encode_attr by exact Hkv. cbn [mbind go_bind].
    replace (len _ =? len _) with false
      by (symmetry; apply Z.eqb_neq; unfold len; cbn [elems]; rewrite length_app; lia).
    rewrite IH by lia. reflexivity.
Qed.

(** The attribute block alone: a length byte below 251, then that many
    bytes holding the pairs. *)
Lemma decodeConnectAttrs_block (flags : Z) (kvs : list (string * string))
    (rest sp : list byte) :
  mysql.has_flag flags mysql.CLIENT_CONNECT_ATTRS = true ->
  Forall short_attr kvs ->
  (length (encode_attrs kvs) < 251)%nat ->
  (3 <= length (encode_attrs kvs) + length rest)%nat ->
  mysql.decodeConnectAttrs flags
    (Slice (byte_of_Z (Z.of_nat (length (encode_attrs kvs))) :: encode_attrs kvs ++ rest) sp)
  = Ok (Some (attrs_map kvs ∅), Slice rest sp).
Proof.
  intros Hf Hs Hlen Hmin. unfold mysql.decodeConnectAttrs. rewrite Hf.
  replace (len _ <? 4) with false
    by (symmetry; apply Z.ltb_ge; unfold len; cbn [elems length]; rewrite length_app; lia).
  rewrite decodeLengthEncodedInteger_eq, lenenc_decode_short by lia.
  cbn [mbind go_bind orb]. change (1 =? 0) with false. cbn match.
  rewrite slice_from_ok by bounds. norm.
  destruct (read_bytes (encode_attrs kvs) rest sp) as [Hto Hfrom].
  rewrite Hto, Hfrom. cbn [mbind go_bind elems].
  rewrite attrLoop_encode_attrs by (auto || lia). reflexivity.
Qed.

(** X14: a packet with [CLIENT_PLUGIN_AUTH_LENENC_CLIENT_DATA] and
    [CLIENT_CONNECT_ATTRS] whose attribute block is a length byte below
    251 followed by that many bytes holding pairs of a key and a value,
    each after its own length byte, is decoded with the map of the pairs,
    a later pair replacing an earlier one with the same key, provided the
    block and what follows it make at least 4 bytes with the length byte;
    what follows the block gives the zstd level. *)
Theorem decodeHandshakeResponse_attrs (hdr user auth db plugin rest sp : list byte)
    (kvs : list (string * string)) :
  length hdr = 32%nat ->
  mysql.has_flag (flags_of hdr) mysql.CLIENT_PLUGIN_AUTH_LENENC_CLIENT_DATA = true ->
  mysql.has_flag (flags_of hdr) mysql.CLIENT_CONNECT_ATTRS = true ->
  ~ In x00 user -> ~ In x00 db -> ~ In x00 plugin ->
  (length auth < 256)%nat ->
  Forall short_attr kvs ->
  (length (encode_attrs kvs) < 251)%nat ->
  (3 <= length (encode_attrs kvs) + length rest)%nat ->
  exists p,
    mysql.decodeHandshakeResponse
      (Slice (hdr ++ encode_fields (flags_of hdr) user auth db plugin
              ++ byte_of_Z (Z.of_nat (length (encode_attrs kvs)))
              :: encode_attrs kvs ++ rest) sp) = Ok p /\
    mysql.Username p = string_of_list_byte user /\
    mysql.AuthData p = auth /\
    mysql.ConnectAttributes p = Some (attrs_map kvs ∅) /\
    mysql.ZstdCompressionLevel p = zstd_level (flags_of hdr) rest.
Proof.
  intros Hh Hlenenc Hattrs Hu Hd Hp Ha Hs Hlen Hmin.
  rewrite decode_fields by assumption.
  rewrite decodeConnectAttrs_block by assumption. cbn [mbind go_bind].
  rewrite decodeZstd_level. cbn [mbind go_bind]. eexists. split; [reflexivity |].
  repeat split.
Qed.

Lemma decodeHandshakeResponse_attrs_witness :
  let kvs := [("foo", "bar"); ("_os", "linux"); ("foo", "baz")]%string in
  length attrs_header = 32%nat /\
  Forall short_attr kvs /\
  attrs_map kvs ∅ = {[ "foo" := "baz"; "_os" := "linux" ]}%string /\
  exists p,
    mysql.decodeHandshakeResponse
      (Slice (attrs_header
              ++ encode_fields (flags_of attrs_header) (list_byte_of_string "root")
                   scramble (list_byte_of_string "test")
                   (list_byte_of_string "mysql_native_password")
              ++ byte_of_Z (Z.of_nat (length (encode_attrs kvs)))
              :: encode_attrs kvs ++ [x05]) []) = Ok p /\
    mysql.Username p = string_of_list_byte (list_byte_of_string "root") /\
    mysql.AuthData p = scramble /\
    mysql.ConnectAttributes p = Some (attrs_map kvs ∅) /\
    mysql.ZstdCompressionLevel p = zstd_level (flags_of attrs_header) [x05].
Proof.
  intros kvs.
  assert (Forall short_attr kvs) as Hs
    by (repeat constructor; cbn; lia).
  split; [reflexivity |]. split; [exact Hs |]. split; [vm_compute; reflexivity |].
  apply (decodeHandshakeResponse_attrs attrs_header (list_byte_of_string "root")
           scramble (list_byte_of_string "test")
           (list_byte_of_string "mysql_native_password") [x05] [] kvs);
    try reflexivity; try exact Hs; try (cbn; intuition discriminate); cbn; lia.
Defined.

(** ** Package [mysql]: a length prefix cut short *)

Lemma lenenc_decode_truncated (l : list byte) :
  truncated_prefix l -> lenenc_decode l = (0, false, 0).
Proof.
  intros (b0 & t & -> & [[-> H] | [[-> H] | [-> H]]]); cbn.
  - destruct t as [| ? [| ? ?]]; cbn in H; try lia; reflexivity.
  - destruct t as [| ? [| ? [| ? ?]]]; cbn in H; try lia; reflexivity.
  - do 8 (destruct t as [| ? t]; [reflexivity |]). cbn in H. lia.
Qed.

Lemma attrPair_truncated (a : slice) :
  truncated_prefix (elems a) ->
  mysql.attrPair a = Ok (a, EmptyString, EmptyString).
Proof.
  intros H. destruct a as [l sp]. cbn [elems] in H.
  unfold mysql.attrPair.
  rewrite decodeLengthEncodedInteger_eq, lenenc_decode_truncated by exact H.
  cbn [mbind go_bind]. rewrite slice_from_ok by bounds. norm.
  rewrite slice_to_ok by bounds. norm.
  rewrite slice_from_ok by bounds. norm.
  rewrite decodeLengthEncodedInteger_eq, lenenc_decode_truncated by exact H.
  cbn [mbind go_bind]. rewrite slice_from_ok by bounds. norm.
  rewrite slice_to_ok by bounds. norm.
  rewrite slice_from_ok by bounds. norm. reflexivity.
Qed.

Lemma attrLoop_truncated (fuel : nat) (a : slice) (m : gmap string string) :
  truncated_prefix (elems a) -> mysql.attrLoop fuel a m = Diverge.
Proof.
  intros H.
  assert (0 < len a) as Hpos
    by (destruct H as (b0 & t & E & _); unfold len; rewrite E; cbn [length]; lia).
  destruct fuel as [| fuel]; cbn [mysql.attrLoop];
    (replace (0 <? len a) with true by (symmetry; apply Z.ltb_lt; exact Hpos));
    [reflexivity |].
  unfold mysql.attrBody. cbn [fst snd]. rewrite attrPair_truncated by exact H.
  cbn [mbind go_bind]. rewrite Z.eqb_refl. reflexivity.
Qed.

(** X15: a handshake response whose attribute block is a length prefix
    [0xfc], [0xfd] or [0xfe] with fewer bytes after it than the prefix
    calls for is never answered: [decodeLengthEncodedInteger] reads 0
    bytes of it, so every iteration of the attribute loop stores the empty
    key with the empty value and leaves the block as it was. *)
Theorem decodeHandshakeResponse_truncated_attrs
    (hdr user auth db plugin blk rest sp : list byte) :
  length hdr = 32%nat ->
  mysql.has_flag (flags_of hdr) mysql.CLIENT_PLUGIN_AUTH_LENENC_CLIENT_DATA = true ->
  mysql.has_flag (flags_of hdr) mysql.CLIENT_CONNECT_ATTRS = true ->
  ~ In x00 user -> ~ In x00 db -> ~ In x00 plugin ->
  (length auth < 256)%nat ->
  truncated_prefix blk ->
  (3 <= length blk + length rest)%nat ->
  mysql.decodeHandshakeResponse
    (Slice (hdr ++ encode_fields (flags_of hdr) user auth db plugin
            ++ byte_of_Z (Z.of_nat (length blk)) :: blk ++ rest) sp) = Diverge /\
  forall (m : gmap string string) (n : nat),
    attrIter (S n) (Slice blk (rest ++ sp), m)
    = Ok (Slice blk (rest ++ sp), <[EmptyString := EmptyString]> m).
Proof.
  intros Hh Hlenenc Hattrs Hu Hd Hp Ha Ht Hmin.
  assert (length blk < 251)%nat as Hshort.
  { destruct Ht as (b0 & t & -> & [[_ H] | [[_ H] | [_ H]]]); cbn [length]; lia. }
  split.
  - rewrite decode_fields by assumption.
    unfold mysql.decodeConnectAttrs. rewrite Hattrs.
    replace (len _ <? 4) with false
      by (symmetry; apply Z.ltb_ge; unfold len; cbn [elems length];
          rewrite length_app; lia).
    rewrite decodeLengthEncodedInteger_eq, lenenc_decode_short by lia.
    cbn [mbind go_bind orb]. change (1 =? 0) with false. cbn match.
    rewrite slice_from_ok by bounds. norm.
    destruct (read_bytes blk rest sp) as [Hto Hfrom].
    rewrite Hto, Hfrom. cbn [mbind go_bind elems].
    rewrite attrLoop_truncated by exact Ht. reflexivity.
  - intros m n. apply (attrBody_stuck_forever _ (Slice blk (rest ++ sp))).
    + unfold mysql.attrBody. cbn [fst snd].
      rewrite attrPair_truncated by exact Ht. reflexivity.
    + reflexivity.
Qed.

Lemma decodeHandshakeResponse_truncated_attrs_witness :
  length attrs_header = 32%nat /\
  truncated_prefix [xfd; x01; x02] /\
  mysql.decodeHandshakeResponse
    (Slice (attrs_header
            ++ encode_fields (flags_of attrs_header) (list_byte_of_string "root")
                 scramble (list_byte_of_string "test")
                 (list_byte_of_string "mysql_native_password")
            ++ byte_of_Z (Z.of_nat (length [xfd; x01; x02])) :: [xfd; x01; x02] ++ []) [])
  = Diverge /\
  forall (m : gmap string string) (n : nat),
    attrIter (S n) (Slice [xfd; x01; x02] ([] ++ []), m)
    = Ok (Slice [xfd; x01; x02] ([] ++ []), <[EmptyString := EmptyString]> m).
Proof.
  assert (truncated_prefix [xfd; x01; x02]) as Ht.
  { exists xfd, [x01; x02]. split; [reflexivity |].
    right. left. split; [reflexivity | cbn; lia]. }
  split; [reflexivity |]. split; [exact Ht |].
  apply (decodeHandshakeResponse_truncated_attrs attrs_header
           (list_byte_of_string "root") scramble (list_byte_of_string "test")
           (list_byte_of_string "mysql_native_password") [xfd; x01; x02] [] []);
    try reflexivity; try exact Ht; try (cbn; intuition discriminate); cbn; lia.
Defined.

(** ** Package [mysql]: the errors *)

Lemma errors_within_bind {A B} (L : list string) (m : go A) (f : A -> go B) :
  errors_within L m -> (forall a, errors_within L (f a)) ->
  errors_within L (m ≫= f).
Proof.
  intros Hm Hf msg H. destruct m as [a | e | p |]; cbn in H; try discriminate.
  - exact (Hf a msg H).
  - injection H as <-. exact (Hm e eq_refl).
Qed.

Lemma errors_within_Ok {A} (L : list string) (a : A) : errors_within L (Ok a).
Proof. intros msg H. discriminate. Qed.

Lemma errors_within_Panic {A} (L : list string) (p : panic) :
  errors_within L (@Panic A p).
Proof. intros msg H. discriminate. Qed.

Lemma errors_within_Diverge {A} (L : list string) : errors_within L (@Diverge A).
Proof. intros msg H. discriminate. Qed.

Lemma errors_within_Err {A} (L : list string) (e : string) :
  In e L -> errors_within L (@Err A e).
Proof. intros Hin msg [= <-]. exact Hin. Qed.

Lemma errors_within_index (L : list string) (s : slice) (i : Z) :
  errors_within L (index s i).
Proof.
  intros msg. unfold index.
  destruct (_ && _); [destruct (nth_error _ _) |]; discriminate.
Qed.

Lemma errors_within_slice_range (L : list string) (s : slice) (lo hi : Z) :
  errors_within L (slice_range s lo hi).
Proof. intros msg. unfold slice_range. destruct (_ && _); discriminate. Qed.

Lemma errors_within_slice_from (L : list string) (s : slice) (lo : Z) :
  errors_within L (slice_from s lo).
Proof. apply errors_within_slice_range. Qed.

Lemma errors_within_slice_to (L : list string) (s : slice) (hi : Z) :
  errors_within L (slice_to s hi).
Proof. apply errors_within_slice_range. Qed.

Lemma errors_within_decodeLengthEncodedInteger (L : list string) (b : slice) :
  errors_within L (mysql.decodeLengthEncodedInteger b).
Proof.
  destruct b as [l sp]. rewrite decodeLengthEncodedInteger_eq.
  apply errors_within_Ok.
Qed.

Ltac errors_within :=
  repeat first
    [ apply errors_within_Ok
    | apply errors_within_Panic
    | apply errors_within_Diverge
    | apply errors_within_Err; cbn; tauto
    | apply errors_within_index
    | apply errors_within_slice_range
    | apply errors_within_slice_from
    | apply errors_within_slice_to
    | apply errors_within_decodeLengthEncodedInteger
    | apply errors_within_bind; [| intros ? ]
    | match goal with
      | |- errors_within _ (if ?c then _ else _) => destruct c
      | |- errors_within _ (let (_, _) := ?x in _) => destruct x
      end ].

Lemma errors_within_LittleEndian_Uint32 (L : list string) (s : slice) :
  errors_within L (LittleEndian_Uint32 s).
Proof. unfold LittleEndian_Uint32. errors_within. Qed.

Lemma errors_within_attrLoop (fuel : nat) (a : slice) (m : gmap string string) :
  errors_within decode_errors (mysql.attrLoop fuel a m).
Proof.
  revert a m. induction fuel as [| fuel IH]; intros a m; cbn [mysql.attrLoop].
  - errors_within.
  - destruct (0 <? len a); [| apply errors_within_Ok].
    apply errors_within_bind.
    + unfold mysql.attrBody, mysql.attrPair. errors_within.
    + intros [rest attrs']. destruct (_ =? _); [apply errors_within_Diverge | apply IH].
Qed.

(** X16: the errors of [decodeHandshakeResponse] are the eight of
    [decode_errors]; the error of the zstd level, "too short", is never
    returned, its test [len(data) < 1] being made under [len(data) > 0]. *)
Theorem decodeHandshakeResponse_errors (data : slice) (msg : string) :
  mysql.decodeHandshakeResponse data = Err msg ->
  In msg decode_errors /\
  msg <> "handshake response packet too short for ZSTD compression level"%string.
Proof.
  intros H.
  assert (In msg decode_errors) as Hin.
  { revert msg H. change (errors_within decode_errors (mysql.decodeHandshakeResponse data)).
    unfold mysql.decodeHandshakeResponse.
    destruct (len data <? 32); [errors_within |].
    apply errors_within_bind.
    { unfold mysql.decodeHeader.
      repeat first [ apply errors_within_LittleEndian_Uint32 | progress errors_within ]. }
    intros [[[[flags maxPacket] charset] reserved] d0].
    apply errors_within_bind; [unfold mysql.decodeUsername; errors_within |].
    intros [username d1].
    apply errors_within_bind; [unfold mysql.decodeAuthData; errors_within |].
    intros [authData d2].
    apply errors_within_bind; [unfold mysql.decodeDatabase; errors_within |].
    intros [database d3].
    apply errors_within_bind; [unfold mysql.decodeAuthPluginName; errors_within |].
    intros [pluginName d4].
    apply errors_within_bind.
    { unfold mysql.decodeConnectAttrs.
      repeat first [ apply errors_within_attrLoop | progress errors_within ]. }
    intros [attrs d5].
    apply errors_within_bind; [| intros; apply errors_within_Ok].
    destruct d5 as [l sp]. rewrite decodeZstd_level. apply errors_within_Ok. }
  split; [exact Hin |].
  intros ->. cbn in Hin. intuition discriminate.
Qed.

Lemma decodeHandshakeResponse_errors_witness :
  mysql.decodeHandshakeResponse unterminated_user
  = Err "malformed handshake response packet: missing null terminator for Username" /\
  In "malformed handshake response packet: missing null terminator for Username"%string
     decode_errors /\
  "malformed handshake response packet: missing null terminator for Username"%string
  <> "handshake response packet too short for ZSTD compression level"%string.
Proof.
  assert (mysql.decodeHandshakeResponse unterminated_user
          = Err "malformed handshake response packet: missing null terminator for Username")
    as H by (vm_compute; reflexivity).
  split; [exact H |].
  exact (decodeHandshakeResponse_errors unterminated_user _ H).
Defined.

(** ** Package [mysql]: authentication data without the length-encoded form *)

(** A packet of the other form, decoded field by field. *)
Lemma decode_legacy
    (hdr user db plugin rest sp : list byte) (L skipped : byte) :
  length hdr = 32%nat ->
  mysql.has_flag (flags_of hdr) mysql.CLIENT_PLUGIN_AUTH_LENENC_CLIENT_DATA = false ->
  mysql.has_flag (flags_of hdr) mysql.CLIENT_CONNECT_WITH_DB = true ->
  mysql.has_flag (flags_of hdr) mysql.CLIENT_CONNECT_ATTRS = false ->
  ~ In x00 user -> ~ In x00 db -> ~ In x00 plugin ->
  byte_to_Z L <= Z.of_nat (length (legacy_region (flags_of hdr) db plugin rest ++ sp)) ->
  mysql.decodeHandshakeResponse
    (Slice (hdr ++ user ++ x00 :: L :: skipped
            :: legacy_region (flags_of hdr) db plugin rest) sp) =
  Ok {| mysql.CapabilityFlags := flags_of hdr;
        mysql.MaxPacketSize := max_packet_of hdr;
        mysql.CharacterSet := nth 8 hdr x00;
        mysql.Reserved := take 23 (drop 9 hdr);
        mysql.Username := string_of_list_byte user;
        mysql.AuthData :=
          take (Z.to_nat (byte_to_Z L)) (legacy_region (flags_of hdr) db plugin rest ++ sp);
        mysql.Database := string_of_list_byte db;
        mysql.AuthPluginName :=
          if mysql.has_flag (flags_of hdr) mysql.CLIENT_PLUGIN_AUTH
          then string_of_list_byte plugin else EmptyString;
        mysql.ConnectAttributes := None;
        mysql.ZstdCompressionLevel := zstd_level (flags_of hdr) rest |}.
Proof.
  intros Hh Hlenenc Hdb Hattrs Hu Hd Hp HL.
  unfold mysql.decodeHandshakeResponse.
  replace (len _ <? 32) with false
    by (symmetry; apply Z.ltb_ge; unfold len; cbn [elems]; rewrite length_app; lia).
  rewrite decodeHeader_ok by exact Hh. cbn [mbind go_bind].
  rewrite decodeUsername_eq. cbn [elems spare].
  rewrite (split_nul_app user) by exact Hu. cbn [mbind go_bind].
  rewrite decodeAuthData_legacy by exact Hlenenc. cbn [elems spare].
  replace (byte_to_Z L <=? _) with true by (symmetry; apply Z.leb_le; exact HL).
  cbn [mbind go_bind].
  rewrite decodeDatabase_eq, Hdb. cbn [elems spare].
  unfold legacy_region. rewrite (split_nul_app db) by exact Hd.
  cbn [mbind go_bind]. rewrite decodeAuthPluginName_eq. cbn [elems spare].
  unfold mysql.decodeConnectAttrs. rewrite Hattrs.
  destruct (mysql.has_flag (flags_of hdr) mysql.CLIENT_PLUGIN_AUTH).
  - rewrite <- !app_assoc. cbn [app]. rewrite (split_nul_app plugin) by exact Hp.
    cbn [mbind go_bind]. rewrite decodeZstd_level. reflexivity.
  - cbn [app mbind go_bind]. rewrite decodeZstd_level. reflexivity.
Qed.

(** X17: without [CLIENT_PLUGIN_AUTH_LENENC_CLIENT_DATA] the decoder skips
    the length byte [L] and one more byte, takes the next [L] bytes of the
    backing array as [AuthData], and does not move past them: on a packet
    with [CLIENT_CONNECT_WITH_DB] the database name is read from the same
    position, so the authentication data starts with the bytes of the
    database name (or is a prefix of them), and the plugin name and the
    zstd level are read from what follows the database name. *)
Theorem decodeHandshakeResponse_legacy
    (hdr user db plugin rest sp : list byte) (L skipped : byte) :
  length hdr = 32%nat ->
  mysql.has_flag (flags_of hdr) mysql.CLIENT_PLUGIN_AUTH_LENENC_CLIENT_DATA = false ->
  mysql.has_flag (flags_of hdr) mysql.CLIENT_CONNECT_WITH_DB = true ->
  mysql.has_flag (flags_of hdr) mysql.CLIENT_CONNECT_ATTRS = false ->
  ~ In x00 user -> ~ In x00 db -> ~ In x00 plugin ->
  byte_to_Z L <= Z.of_nat (length (legacy_region (flags_of hdr) db plugin rest ++ sp)) ->
  mysql.decodeHandshakeResponse
    (Slice (hdr ++ user ++ x00 :: L :: skipped
            :: legacy_region (flags_of hdr) db plugin rest) sp) =
  Ok {| mysql.CapabilityFlags := flags_of hdr;
        mysql.MaxPacketSize := max_packet_of hdr;
        mysql.CharacterSet := nth 8 hdr x00;
        mysql.Reserved := take 23 (drop 9 hdr);
        mysql.Username := string_of_list_byte user;
        mysql.AuthData :=
          take (Z.to_nat (byte_to_Z L)) (legacy_region (flags_of hdr) db plugin rest ++ sp);
        mysql.Database := string_of_list_byte db;
        mysql.AuthPluginName :=
          if mysql.has_flag (flags_of hdr) mysql.CLIENT_PLUGIN_AUTH
          then string_of_list_byte plugin else EmptyString;
        mysql.ConnectAttributes := None;
        mysql.ZstdCompressionLevel := zstd_level (flags_of hdr) rest |}.
Proof. exact (decode_legacy hdr user db plugin rest sp L skipped). Qed.

Lemma decodeHandshakeResponse_legacy_witness :
  length legacy_header = 32%nat /\
  mysql.has_flag (flags_of legacy_header) mysql.CLIENT_PLUGIN_AUTH_LENENC_CLIENT_DATA = false /\
  mysql.has_flag (flags_of legacy_header) mysql.CLIENT_CONNECT_WITH_DB = true /\
  exists p,
    mysql.decodeHandshakeResponse
      (Slice (legacy_header ++ list_byte_of_string "root" ++ x00 :: x06 :: x01
              :: legacy_region (flags_of legacy_header) (list_byte_of_string "test")
                   (list_byte_of_string "mysql_native_password") [x05]) []) = Ok p /\
    mysql.AuthData p = list_byte_of_string "test" ++ [x00; x6d] /\
    mysql.Database p = "test"%string /\
    mysql.AuthPluginName p = "mysql_native_password"%string /\
    mysql.ZstdCompressionLevel p = x05.
Proof.
  split; [reflexivity |]. split; [reflexivity |]. split; [reflexivity |].
  eexists. split.
  - apply (decodeHandshakeResponse_legacy legacy_header (list_byte_of_string "root")
             (list_byte_of_string "test") (list_byte_of_string "mysql_native_password")
             [x05] [] x06 x01);
      try reflexivity; try (cbn; intuition discriminate).
  - cbn. repeat split; reflexivity.
Defined.

(** ** [decodeHandshakeResponse]: the authentication data, in both forms *)

(** C9: every packet the decoder accepts has the layout [AuthData_layout]:
    the user name is followed by a length byte [L]; without
    [CLIENT_PLUGIN_AUTH_LENENC_CLIENT_DATA] one more byte is skipped and
    [AuthData] is the [L] bytes that follow it; with the flag, [AuthData] is
    the [L] bytes right after the length byte.  And packets of both forms
    are accepted so: without the flag, a packet with the length byte [L],
    any byte after it and at least [L] bytes in the backing array after
    that one; with the flag, a packet with a length byte and that many
    bytes of authentication data. *)
Theorem decodeHandshakeResponse_AuthData :
  (forall (data : slice) (p : mysql.MySQLHandshakeResponse),
     mysql.decodeHandshakeResponse data = Ok p -> AuthData_layout data p) /\
  (forall (hdr user db plugin rest sp : list byte) (L skipped : byte),
     length hdr = 32%nat ->
     mysql.has_flag (flags_of hdr) mysql.CLIENT_PLUGIN_AUTH_LENENC_CLIENT_DATA = false ->
     mysql.has_flag (flags_of hdr) mysql.CLIENT_CONNECT_WITH_DB = true ->
     mysql.has_flag (flags_of hdr) mysql.CLIENT_CONNECT_ATTRS = false ->
     ~ In x00 user -> ~ In x00 db -> ~ In x00 plugin ->
     byte_to_Z L <= Z.of_nat (length (legacy_region (flags_of hdr) db plugin rest ++ sp)) ->
     exists p,
       mysql.decodeHandshakeResponse
         (Slice (hdr ++ user ++ x00 :: L :: skipped
                 :: legacy_region (flags_of hdr) db plugin rest) sp) = Ok p /\
       mysql.Username p = string_of_list_byte user /\
       mysql.AuthData p =
       take (Z.to_nat (byte_to_Z L)) (legacy_region (flags_of hdr) db plugin rest ++ sp)) /\
  (forall (hdr user auth db plugin rest sp : list byte),
     length hdr = 32%nat ->
     mysql.has_flag (flags_of hdr) mysql.CLIENT_PLUGIN_AUTH_LENENC_CLIENT_DATA = true ->
     mysql.has_flag (flags_of hdr) mysql.CLIENT_CONNECT_ATTRS = false ->
     ~ In x00 user -> ~ In x00 db -> ~ In x00 plugin ->
     (length auth < 256)%nat ->
     exists p,
       mysql.decodeHandshakeResponse
         (Slice (hdr ++ user ++ x00 :: byte_of_Z (Z.of_nat (length auth)) :: auth
                 ++ (if mysql.has_flag (flags_of hdr) mysql.CLIENT_CONNECT_WITH_DB
                     then db ++ [x00] else [])
                 ++ (if mysql.has_flag (flags_of hdr) mysql.CLIENT_PLUGIN_AUTH
                     then plugin ++ [x00] else [])
                 ++ rest) sp) = Ok p /\
       mysql.Username p = string_of_list_byte user /\
       mysql.AuthData p = auth).
Proof.
  split; [exact accepted_AuthData_layout |]. split.
  - intros hdr user db plugin rest sp L skipped Hh Hlenenc Hdb Hattrs Hu Hd Hp HL.
    rewrite decode_legacy by assumption. eexists. split; [reflexivity |].
    split; reflexivity.
  - intros hdr user auth db plugin rest sp Hh Hlenenc Hattrs Hu Hd Hp Ha.
    pose proof (decode_fields hdr user auth db plugin rest sp Hh Hlenenc Hu Hd Hp Ha) as E.
    unfold encode_fields in E. rewrite <- !app_assoc in E. cbn [app] in E.
    rewrite <- ?app_assoc in E. rewrite E.
    unfold mysql.decodeConnectAttrs. rewrite Hattrs. cbn [mbind go_bind].
    rewrite decodeZstd_level. cbn [mbind go_bind].
    eexists. split; [reflexivity |]. split; reflexivity.
Qed.

Lemma decodeHandshakeResponse_AuthData_witness :
  (mysql.decodeHandshakeResponse auth_legacy = Ok auth_legacy_packet /\
   AuthData_layout auth_legacy auth_legacy_packet) /\
  (exists p,
     mysql.decodeHandshakeResponse
       (Slice (legacy_header ++ list_byte_of_string "root" ++ x00 :: x06 :: x01
               :: legacy_region (flags_of legacy_header) (list_byte_of_string "test")
                    (list_byte_of_string "mysql_native_password") [x05]) []) = Ok p /\
     mysql.Username p = "root"%string /\
     mysql.AuthData p = list_byte_of_string "test" ++ [x00; x6d]) /\
  (exists p,
     mysql.decodeHandshakeResponse
       (Slice (lenenc_header ++ list_byte_of_string "root" ++ x00 :: x14 :: scramble
               ++ (list_byte_of_string "test" ++ [x00])
               ++ (list_byte_of_string "mysql_native_password" ++ [x00])
               ++ [x05]) []) = Ok p /\
     mysql.Username p = "root"%string /\
     mysql.AuthData p = scramble).
Proof.
  destruct decodeHandshakeResponse_AuthData as (Hlayout & Hlegacy & Hlenenc).
  split; [| split].
  - split; [vm_compute; reflexivity |].
    apply (Hlayout auth_legacy auth_legacy_packet). vm_compute. reflexivity.
  - apply (Hlegacy legacy_header (list_byte_of_string "root")
             (list_byte_of_string "test") (list_byte_of_string "mysql_native_password")
             [x05] [] x06 x01);
      try reflexivity; try (cbn; intuition discriminate).
  - apply (Hlenenc lenenc_header (list_byte_of_string "root") scramble
             (list_byte_of_string "test") (list_byte_of_string "mysql_native_password")
             [x05] []);
      try reflexivity; try (cbn; intuition discriminate); cbn; lia.
Defined.

(** ** Package [app] *)

Section app_facts.

Context {W : Type} {client : app.Client W}.

Implicit Types (s : app.App * W) (a : app.App) (w : W).

Lemma post_bind {A B} (m : app.act A) (k : A -> app.act B) s Q :
  post m s (after k Q) -> post (m ≫= k) s Q.
Proof.
  unfold post, after, mbind, app.act_bind.
  destruct (m s) as [s1 [x | e | p |]]; cbn [fst snd]; auto.
Qed.

Lemma post_ret {A} (x : A) s (Q : app.App * W -> go A -> Prop) :
  Q s (Ok x) -> post (mret x) s Q.
Proof. exact id. Qed.

Lemma post_get s (Q : app.App * W -> go app.App -> Prop) :
  Q s (Ok s.1) -> post app.get s Q.
Proof. exact id. Qed.

Lemma post_modify (f : app.App -> app.App) s Q :
  Q (f s.1, s.2) (Ok tt) -> post (app.modify f) s Q.
Proof. exact id. Qed.

Lemma post_call {A} (m : W -> W * A) s Q :
  (forall w' x, m s.2 = (w', x) -> Q (s.1, w') (Ok x)) -> post (app.call m) s Q.
Proof.
  unfold post, app.call. destruct (m s.2) as [w' x]. intros H. exact (H _ _ eq_refl).
Qed.

Lemma post_checked {A} (m : W -> W * go A) s Q :
  (forall w' r, m s.2 = (w', r) -> Q (s.1, w') r) -> post (app.checked m) s Q.
Proof.
  unfold post, app.checked. destruct (m s.2) as [w' r]. intros H. exact (H _ _ eq_refl).
Qed.

Lemma post_pure {A} (r : go A) s (Q : app.App * W -> go A -> Prop) :
  Q s r -> post (app.pure r) s Q.
Proof. exact id. Qed.

Lemma post_deref {A} (p : option A) s (Q : app.App * W -> go A -> Prop) :
  (forall x, p = Some x -> Q s (Ok x)) ->
  (p = None -> Q s (Panic NilDereference)) ->
  post (app.deref p) s Q.
Proof. unfold post, app.deref, app.pure. destruct p; cbn [fst snd]; auto. Qed.

Lemma post_logged (m : app.act unit) s Q :
  post m s (fun s' r => Q s' (match r with Err _ => Ok tt | _ => r end)) ->
  post (app.logged m) s Q.
Proof.
  unfold post, app.logged. destruct (m s) as [s' [[] | e | p |]]; exact id.
Qed.

Lemma post_wrapped (prefix : string) (m : app.act unit) s Q :
  post m s (fun s' r => Q s' (match r with Err e => Err (prefix +:+ e) | _ => r end)) ->
  post (app.wrapped prefix m) s Q.
Proof.
  unfold post, app.wrapped. destruct (m s) as [s' [[] | e | p |]]; exact id.
Qed.

Lemma post_weaken {A} (m : app.act A) s (Q Q' : app.App * W -> go A -> Prop) :
  post m s Q -> (forall s' r, Q s' r -> Q' s' r) -> post m s Q'.
Proof. unfold post. auto. Qed.

Lemma post_run {A} (m : app.act A) s s' (r : go A) (Q : app.App * W -> go A -> Prop) :
  post m s Q -> m s = (s', r) -> Q s' r.
Proof. unfold post. intros H E. rewrite E in H. exact H. Qed.

(** One step of the run of a method, and the run up to the next call of
    another method. *)
Ltac act_step :=
  lazymatch goal with
  | |- post (mbind _ _) _ _ => apply post_bind
  | |- post (mret _) _ _ => apply post_ret
  | |- post app.get _ _ => apply post_get
  | |- post (app.modify _) _ _ => apply post_modify
  | |- post (app.errors_New _) _ _ => apply post_pure
  | |- post (app.deref _) _ _ => apply post_deref; [intros ? ? | intros ?]
  | |- post (app.pure _) _ _ => apply post_pure
  | |- post (app.logged _) _ _ => apply post_logged
  | |- post (app.wrapped _ _) _ _ => apply post_wrapped
  | |- post (app.call _) _ _ => apply post_call; intros ? ? ?
  | |- post (app.checked _) _ _ => apply post_checked; intros ? [? | ? | ? |] ?
  end;
  cbn [after fst snd] in *.

Ltac act_case :=
  lazymatch goal with
  | |- post (if ?c then _ else _) _ _ => destruct c eqn:?
  | |- post (match ?x with _ => _ end) _ _ => destruct x eqn:?
  | |- after _ _ _ ?r => destruct r eqn:?; cbn [after]
  end.

Ltac act_run := repeat first [act_step | act_case].

(** *** [SetupCompose] on a compose file without network *)

Ltac nil_fail :=
  split;
  [ discriminate
  | intros _ _ Hfa Hsk;
    match goal with
    | E : app.ForceAbsolutePath ?c ?p ?w0 = _ |- _ =>
        specialize (Hfa c p w0); rewrite E in Hfa; discriminate Hfa
    | E : app.SetKeployNetwork ?c ?w0 = _ |- _ =>
        specialize (Hsk c w0); rewrite E in Hsk; discriminate Hsk
    end ].

(** X18: when [GetNetworkInfo] finds no network in the compose file,
    [SetupCompose] never returns nil: it sets the default network and then
    reads [info.External] on the nil [info].  With a container name, a
    compose file, and [ForceAbsolutePath] and [SetKeployNetwork]
    succeeding, it panics. *)
Theorem SetupCompose_nil_network (a : app.App) (w : W) :
  (forall c w0, (app.GetNetworkInfo c w0).2 = None) ->
  (app.SetupCompose (a, w)).2 <> Ok tt /\
  (app.container a <> EmptyString ->
   (app.findComposeFile w).2 <> EmptyString ->
   (forall c p w0, (app.ForceAbsolutePath c p w0).2 = Ok tt) ->
   (forall c w0, (app.SetKeployNetwork c w0).2 = Ok tt) ->
   (app.SetupCompose (a, w)).2 = Panic NilDereference).
Proof.
  intros Hnil.
  change (post app.SetupCompose (a, w)
            (fun _ r => r <> Ok tt /\
               (app.container a <> EmptyString ->
                (app.findComposeFile w).2 <> EmptyString ->
                (forall c p w0, (app.ForceAbsolutePath c p w0).2 = Ok tt) ->
                (forall c w0, (app.SetKeployNetwork c w0).2 = Ok tt) ->
                r = Panic NilDereference))).
  unfold app.SetupCompose.
  do 2 act_step.
  destruct (String.eqb_spec (app.container a) "") as [Hc | Hc].
  { act_step. split; [discriminate | contradiction]. }
  do 2 act_step.
  match goal with |- context [String.eqb ?p ""] =>
    destruct (String.eqb_spec p "") as [Hp | Hp] end.
  { act_step. split; [discriminate |]. intros _ Hf.
    match goal with E : app.findComposeFile _ = _ |- _ => rewrite E in Hf end.
    contradiction. }
  do 5 act_step.
  match goal with |- context [if ?ok then _ else _] => destruct ok end;
    [do 2 act_step; [act_step | nil_fail ..] | act_step].
  all: do 2 act_step.
  all: match goal with
       | E : app.GetNetworkInfo ?c ?w0 = (_, ?i) |- _ =>
           pose proof (Hnil c w0) as Hi; rewrite E in Hi; cbn in Hi; subst i
       end.
  all: do 3 act_step; [do 2 act_step | nil_fail ..].
  all: split; [discriminate | reflexivity].
Qed.

(** *** [Setup] *)

Lemma injectNetwork_post (network : string) a w :
  post (app.injectNetwork network) (a, w)
    (fun s' r =>
       r = Ok tt ->
       exists w1 info ns settings,
         app.AttachNetwork (app.keployContainer a) [network] w = (w1, Ok tt) /\
         app.ContainerInspect (app.keployContainer a) w1 = (s'.2, Ok info) /\
         app.networkSettings info = Some ns /\
         default ∅ (app.Networks ns) !! network = Some (Some settings) /\
         s'.1 = app.set_keployIPv4 (app.IPAddress settings)
                  (app.set_keployNetwork network a)).
Proof.
  unfold app.injectNetwork. act_run; try discriminate.
  subst. intros _.
  repeat match goal with u : unit |- _ => destruct u end.
  eauto 10.
Qed.

Ltac eqb_facts :=
  repeat match goal with
         | H : (_ =? _)%string = true |- _ => apply String.eqb_eq in H
         | H : (_ =? _)%string = false |- _ => apply String.eqb_neq in H
         | H : negb _ = true |- _ => apply negb_true_iff in H
         | H : negb _ = false |- _ => apply negb_false_iff in H
         end.

Ltac inject_end :=
  eapply post_weaken; [apply injectNetwork_post |];
  cbn [fst snd]; intros [? ?] ? Hinj Hr;
  destruct (Hinj Hr) as (? & ? & ? & ? & ? & ? & ? & ? & Ha);
  cbn [fst snd] in *; subst.

Lemma SetupDocker_post a w :
  post app.SetupDocker (a, w) (fun s' r => r = Ok tt -> injected w a s').
Proof.
  unfold app.SetupDocker. act_run; try discriminate.
  all: inject_end; unfold injected; cbn; eauto 12.
Qed.

Lemma SetupCompose_post a w :
  post app.SetupCompose (a, w)
    (fun s' r =>
       r = Ok tt ->
       exists w0,
         injected w0 a s' /\ app.container a <> EmptyString /\
         app.containerNetwork s'.1 = app.containerNetwork a).
Proof.
  unfold app.SetupCompose. act_run; try discriminate.
  all: inject_end; unfold injected; cbn.
  all: eqb_facts.
  all: eexists; split; [| split; [eassumption | reflexivity]].
  all: eauto 15.
Qed.

(** X19: when [Setup] returns nil for an app that runs with Docker or
    Docker Compose, keploy has been attached to the network of the
    application container: [AttachNetwork] returned nil for the keploy
    container and that network (with Docker, in the world [docker.New]
    left), the keploy container was inspected right after, which left the
    world [Setup] ends in, [keployNetwork] is [containerNetwork], whatever
    network the compose file named, and [keployIPv4] is the address the
    inspection reported for that network; with Docker Compose the
    container name was given and the network was not changed.  For any
    other kind the app is left as it was. *)
Theorem Setup_injected (a a' : app.App) (w w' : W) :
  app.Setup (a, w) = ((a', w'), Ok tt) ->
  match app.kind a with
  | app.Docker => exists w0, app.New w = (w0, Ok tt) /\ injected w0 a (a', w')
  | app.DockerCompose =>
      exists w0,
        injected w0 a (a', w') /\ app.container a <> EmptyString /\
        app.containerNetwork a' = app.containerNetwork a
  | app.Native => a' = a /\ app.New w = (w', Ok tt)
  end.
Proof.
  intros H.
  assert (post app.Setup (a, w)
            (fun s' r =>
               r = Ok tt ->
               match app.kind a with
               | app.Docker => exists w0, app.New w = (w0, Ok tt) /\ injected w0 a s'
               | app.DockerCompose =>
                   exists w0,
                     injected w0 a s' /\ app.container a <> EmptyString /\
                     app.containerNetwork s'.1 = app.containerNetwork a
               | app.Native => s'.1 = a /\ app.New w = (s'.2, Ok tt)
               end)) as Hpost.
  { unfold app.Setup. do 2 act_step; [| discriminate ..].
    do 2 act_step.
    match goal with u : unit |- _ => destruct u end.
    destruct (app.kind a).
    - eapply post_weaken; [apply SetupDocker_post |]. cbn beta. eauto.
    - apply SetupCompose_post.
    - act_step. intros _. split; [reflexivity | assumption]. }
  exact (post_run _ _ _ _ _ Hpost H eq_refl).
Qed.

(** X20: an app of the Docker Compose kind as [NewApp] makes it cannot be
    set up: [NewApp] leaves the container name empty and [Setup] assigns
    it nowhere, so [SetupCompose] returns "container name not found" as
    soon as the client is made, and the app is as it was. *)
Theorem Setup_NewApp_compose (cmd : string) (w : W) :
  app.FindDockerCmd cmd = app.DockerCompose ->
  (app.Setup (app.NewApp cmd, w)).2 <> Ok tt /\
  forall w', app.New w = (w', Ok tt) ->
    app.Setup (app.NewApp cmd, w)
    = ((app.NewApp cmd, w'), Err "container name not found").
Proof.
  intros Hkind.
  assert (post app.Setup (app.NewApp cmd, w)
            (fun s' r =>
               r <> Ok tt /\
               forall w', app.New w = (w', Ok tt) ->
                 (s', r) = ((app.NewApp cmd, w'), Err "container name not found")))
    as Hpost.
  { unfold app.Setup. do 2 act_step.
    2-4: split; [discriminate | intros ? E; rewrite E in *; discriminate].
    do 2 act_step. cbn [app.NewApp app.kind]. rewrite Hkind.
    unfold app.SetupCompose. do 2 act_step. cbn [app.NewApp app.container String.eqb].
    act_step. split; [discriminate |].
    intros w'0 E. rewrite E in *. congruence. }
  unfold post in Hpost. destruct Hpost as [H1 H2]. split; [exact H1 |].
  intros w' E. specialize (H2 w' E).
  destruct (app.Setup (app.NewApp cmd, w)). exact H2.
Qed.

(** X21: a call of [injectNetwork] that does not return nil leaves the
    app as it was when the network could not be attached, and otherwise
    with [keployNetwork] already assigned and [keployIPv4] not: the two
    fields no longer go together. *)
Theorem injectNetwork_failed (network : string) (a a' : app.App) (w w' : W)
    (r : go unit) :
  app.injectNetwork network (a, w) = ((a', w'), r) ->
  r <> Ok tt ->
  match (app.AttachNetwork (app.keployContainer a) [network] w).2 with
  | Ok _ => a' = app.set_keployNetwork network a
  | _ => a' = a
  end.
Proof.
  intros H.
  assert (post (app.injectNetwork network) (a, w)
            (fun s' r =>
               r <> Ok tt ->
               match (app.AttachNetwork (app.keployContainer a) [network] w).2 with
               | Ok _ => s'.1 = app.set_keployNetwork network a
               | _ => s'.1 = a
               end)) as Hpost.
  { unfold app.injectNetwork. act_run.
    all: match goal with
         | E : app.AttachNetwork _ _ _ = _ |- _ => rewrite E; cbn [fst snd]
         end.
    all: first [reflexivity | intros Hr; contradiction Hr; reflexivity]. }
  exact (post_run _ _ _ _ _ Hpost H).
Qed.

(** *** [handleDockerEvents] *)

Lemma handleDockerEvents_post (e : app.Message) a w :
  post (app.handleDockerEvents e) (a, w)
    (fun s' r =>
       same_setup a s'.1 /\
       (app.containerIPv4 s'.1 <> app.containerIPv4 a ->
        app.Action e = "connect"%string /\ (app.GetContainerID w).2 <> EmptyString /\
        r = Ok tt) /\
       (app.inode s'.1 <> app.inode a -> app.Action e = "start"%string) /\
       (app.inodeChan s'.1 = app.inodeChan a \/
        app.inodeChan s'.1 = app.inodeChan a ++ [app.inode s'.1] /\
        app.Action e = "start"%string /\ (app.GetContainerID w).2 <> EmptyString /\
        app.containerIPv4 a <> EmptyString /\ r = Ok tt /\
        app.containerIPv4 s'.1 = app.containerIPv4 a)).
Proof.
  unfold app.handleDockerEvents. act_run.
  all: eqb_facts; unfold same_setup; cbn.
  all: repeat match goal with
              | E : app.GetContainerID _ = _ |- _ => rewrite E; clear E
              end; cbn [fst snd].
  all: split; [repeat split |].
  all: split; [intros Hne; first [contradiction Hne; reflexivity | auto] |].
  all: split; [intros Hne; first [contradiction Hne; reflexivity | auto] |].
  all: first [left; reflexivity | right; auto 10].
Qed.

(** X22: [handleDockerEvents] assigns [containerIPv4], [inode] and the
    channel only: the address on a [connect] event that returns nil, once
    the client holds a container identifier; the inode on a [start] event;
    and it sends at most one inode, the one it stored, on a [start] event
    that returns nil, once the client holds a container identifier and
    the address is known. *)
Theorem handleDockerEvents_assigns (e : app.Message) (a a' : app.App) (w w' : W)
    (r : go unit) :
  app.handleDockerEvents e (a, w) = ((a', w'), r) ->
  same_setup a a' /\
  (app.containerIPv4 a' <> app.containerIPv4 a ->
   app.Action e = "connect"%string /\ (app.GetContainerID w).2 <> EmptyString /\
   r = Ok tt) /\
  (app.inode a' <> app.inode a -> app.Action e = "start"%string) /\
  (app.inodeChan a' = app.inodeChan a \/
   app.inodeChan a' = app.inodeChan a ++ [app.inode a'] /\
   app.Action e = "start"%string /\ (app.GetContainerID w).2 <> EmptyString /\
   app.containerIPv4 a <> EmptyString /\ r = Ok tt /\
   app.containerIPv4 a' = app.containerIPv4 a).
Proof.
  intros H. exact (post_run _ _ _ _ _ (handleDockerEvents_post e a w) H).
Qed.

(** *** The events in their order *)

Lemma handled_cons (e : app.Message) (es : list app.Message) s :
  handled (e :: es) s =
  match app.handleDockerEvents e s with
  | (s', Ok _) | (s', Err _) => handled es s'
  | (s', _) => s'
  end.
Proof. reflexivity. Qed.

Lemma sent_after_start (es : list app.Message) s :
  app.inodeChan (handled es s).1 <> app.inodeChan s.1 ->
  ["start"%string] `sublist_of` (app.Action <$> es).
Proof.
  revert s. induction es as [| e es IH]; intros [a w] H; [contradiction H; reflexivity |].
  rewrite handled_cons in H.
  destruct (app.handleDockerEvents e (a, w)) as [[a1 w1] r] eqn:E.
  destruct (post_run _ _ _ _ _ (handleDockerEvents_post e a w) E)
    as (_ & _ & _ & [Hch | (_ & Hstart & _)]); cbn [fst snd] in *.
  - apply sublist_cons.
    destruct r; try (contradiction H; exact Hch).
    all: apply (IH (a1, w1)); cbn [fst snd]; rewrite Hch; exact H.
  - rewrite fmap_cons, Hstart. apply sublist_skip, sublist_nil_l.
Qed.

Lemma sent_after_connect (es : list app.Message) s :
  app.containerIPv4 s.1 = EmptyString ->
  app.inodeChan (handled es s).1 <> app.inodeChan s.1 ->
  ["connect"; "start"]%string `sublist_of` (app.Action <$> es).
Proof.
  revert s. induction es as [| e es IH]; intros [a w] Hip H;
    [contradiction H; reflexivity |].
  rewrite handled_cons in H. cbn [fst snd] in *.
  destruct (app.handleDockerEvents e (a, w)) as [[a1 w1] r] eqn:E.
  destruct (post_run _ _ _ _ _ (handleDockerEvents_post e a w) E)
    as (_ & Hchange & _ & [Hch | (_ & _ & _ & Hne & _)]); cbn [fst snd] in *;
    [| contradiction].
  destruct (String.eqb_spec (app.containerIPv4 a1) "") as [Hip1 | Hip1].
  - apply sublist_cons.
    destruct r; try (contradiction H; exact Hch).
    all: apply (IH (a1, w1)); cbn [fst snd]; [exact Hip1 | rewrite Hch; exact H].
  - destruct Hchange as (Hconnect & _ & ->); [congruence |].
    rewrite fmap_cons, Hconnect. apply sublist_skip.
    apply (sent_after_start es (a1, w1)). cbn [fst snd]. rewrite Hch. exact H.
Qed.

Lemma waiting_for_create (e : app.Message) a w :
  (forall w0, (app.GetContainerID w0).1 = w0) ->
  (app.GetContainerID w).2 = EmptyString ->
  app.Action e <> "create"%string ->
  post (app.handleDockerEvents e) (a, w)
    (fun s' _ => (app.GetContainerID s'.2).2 = EmptyString).
Proof.
  intros Hget Hid Hne. unfold app.handleDockerEvents. act_run.
  all: eqb_facts; try contradiction.
  all: pose proof Hid as Hx.
  all: repeat match goal with
              | E : app.GetContainerID ?w0 = (?w1, ?x) |- _ =>
                  let Hw := fresh in
                  pose proof (Hget w0) as Hw; rewrite E in Hw, Hx;
                  cbn [fst snd] in Hw, Hx; clear E; subst
              end.
  all: first [contradiction | assumption | congruence].
Qed.

(** X23: an inode is sent only after a [create] event, then a [connect]
    event and then a [start] event have been handled, in this order: with
    a client whose [GetContainerID] leaves the world as it is, from an app
    without address and a client without container identifier, any events
    after which the channel holds an inode include the three. *)
Theorem inode_after_create_connect_start (es : list app.Message) (a : app.App) (w : W) :
  (forall w0, (app.GetContainerID w0).1 = w0) ->
  (app.GetContainerID w).2 = EmptyString ->
  app.containerIPv4 a = EmptyString ->
  app.inodeChan (handled es (a, w)).1 <> app.inodeChan a ->
  ["create"; "connect"; "start"]%string `sublist_of` (app.Action <$> es).
Proof.
  intros Hget. revert a w.
  induction es as [| e es IH]; intros a w Hid Hip H; [contradiction H; reflexivity |].
  rewrite handled_cons in H.
  destruct (app.handleDockerEvents e (a, w)) as [[a1 w1] r] eqn:E.
  destruct (post_run _ _ _ _ _ (handleDockerEvents_post e a w) E)
    as (_ & Hchange & _ & [Hch | (_ & _ & _ & Hne & _)]); cbn [fst snd] in *;
    [| contradiction].
  destruct (String.eqb_spec (app.Action e) "create") as [Hcreate | Hcreate].
  - rewrite fmap_cons, Hcreate. apply sublist_skip.
    assert (app.containerIPv4 a1 = EmptyString) as Hip1.
    { destruct (String.eqb_spec (app.containerIPv4 a1) "") as [| Hn]; [assumption |].
      destruct Hchange as (Hc & _); [congruence |]. rewrite Hcreate in Hc. discriminate. }
    destruct r; try (contradiction H; exact Hch).
    all: apply (sent_after_connect es (a1, w1)); cbn [fst snd];
      [exact Hip1 | rewrite Hch; exact H].
  - apply sublist_cons.
    pose proof (post_run _ _ _ _ _ (waiting_for_create e a w Hget Hid Hcreate) E) as Hid1.
    cbn [fst snd] in Hid1.
    assert (app.containerIPv4 a1 = EmptyString) as Hip1.
    { destruct (String.eqb_spec (app.containerIPv4 a1) "") as [| Hn]; [assumption |].
      destruct Hchange as (_ & Hc & _); [congruence |]. contradiction. }
    destruct r; try (contradiction H; exact Hch).
    all: apply (IH a1 w1); [exact Hid1 | exact Hip1 | rewrite Hch; exact H].
Qed.

End app_facts.

Lemma SetupCompose_nil_network_witness :
  (@app.SetupCompose string (docker_world None) (compose_app, EmptyString)).2 <> Ok tt /\
  (@app.SetupCompose string (docker_world None) (compose_app, EmptyString)).2
  = Panic NilDereference.
Proof.
  destruct (@SetupCompose_nil_network string (docker_world None) compose_app EmptyString
              (fun _ _ => eq_refl)) as [H1 H2].
  split; [exact H1 |].
  apply H2; [discriminate | discriminate | reflexivity | reflexivity].
Defined.

Lemma Setup_injected_witness :
  let a' := app.set_keployIPv4 "172.18.0.2" (app.set_keployNetwork "appnet" compose_app) in
  @app.Setup _ attaching_world (compose_app, []) = ((a', ["appnet"%string]), Ok tt) /\
  exists w0,
    @injected _ attaching_world w0 compose_app (a', ["appnet"%string]) /\
    app.container compose_app <> EmptyString /\
    app.containerNetwork a' = app.containerNetwork compose_app.
Proof.
  intros a'.
  assert (@app.Setup _ attaching_world (compose_app, [])
          = ((a', ["appnet"%string]), Ok tt)) as H by (vm_compute; reflexivity).
  split; [exact H |].
  exact (@Setup_injected _ attaching_world compose_app a' [] ["appnet"%string] H).
Defined.

Lemma Setup_NewApp_compose_witness :
  let client := docker_world None in
  @app.FindDockerCmd string client "docker compose up" = app.DockerCompose /\
  @app.Setup string client (@app.NewApp string client "docker compose up", EmptyString)
  = ((@app.NewApp string client "docker compose up", EmptyString),
     Err "container name not found").
Proof.
  intros client. split; [reflexivity |].
  destruct (@Setup_NewApp_compose string client "docker compose up" EmptyString eq_refl)
    as [_ H].
  exact (H EmptyString eq_refl).
Defined.

Lemma handleDockerEvents_assigns_witness :
  let client := docker_world None in
  let e := {| app.Action := "start"; app.ID := "c1" |} in
  let a' := app.send_inode 4026532042 (app.set_inode 4026532042 linked_app) in
  @app.handleDockerEvents string client e (linked_app, "c1"%string)
  = ((a', "c1"%string), Ok tt) /\
  same_setup linked_app a' /\
  app.inodeChan a' = app.inodeChan linked_app ++ [app.inode a'].
Proof.
  intros client e a'.
  assert (@app.handleDockerEvents string client e (linked_app, "c1"%string)
          = ((a', "c1"%string), Ok tt)) as H by (vm_compute; reflexivity).
  split; [exact H |].
  destruct (@handleDockerEvents_assigns string client e linked_app a' _ _ _ H)
    as (Hsame & _ & _ & _).
  split; [exact Hsame | reflexivity].
Defined.

Lemma inode_after_create_connect_start_witness :
  let client := docker_world None in
  let es := [ {| app.Action := "create"; app.ID := "c1" |};
              {| app.Action := "connect"; app.ID := "appnet" |};
              {| app.Action := "start"; app.ID := "c1" |} ] in
  app.inodeChan (@handled string client es (compose_app, EmptyString)).1 = [4026532042] /\
  ["create"; "connect"; "start"]%string `sublist_of` (app.Action <$> es).
Proof.
  intros client es.
  assert (app.inodeChan (@handled string client es (compose_app, EmptyString)).1
          = [4026532042]) as H by (vm_compute; reflexivity).
  split; [exact H |].
  apply (@inode_after_create_connect_start string client es compose_app EmptyString);
    [reflexivity | reflexivity | reflexivity |].
  rewrite H. discriminate.
Defined.

Lemma injectNetwork_failed_witness :
  let client := docker_world None in
  let s' := @app.injectNetwork string client "other" (compose_app, EmptyString) in
  s'.2 = Err "failed to find the network:other in the keploy container" /\
  s'.1.1 = app.set_keployNetwork "other" compose_app /\
  app.keployIPv4 s'.1.1 = EmptyString.
Proof.
  intros client s'.
  assert (s'.2 = Err "failed to find the network:other in the keploy container") as Hr
    by (vm_compute; reflexivity).
  split; [exact Hr |]. split; [| vm_compute; reflexivity].
  apply (@injectNetwork_failed string client "other" compose_app s'.1.1
           EmptyString s'.1.2 s'.2).
  - vm_compute. reflexivity.
  - rewrite Hr. discriminate.
Defined.
